(** * Reassembly of an EPUB delivered in parts

    A shallow embedding of [grawlix/output/epub.py]: the fixed-layout page
    repair, the stylesheet rule keys and the rule-by-rule merge, the
    extraction of package metadata from an OPF document, and the loop of
    [Epub._download_epub_in_parts] that decides which files of each part
    are kept.

    Python values are modelled as follows.
    - [str] is a list of Unicode code points ([N]); [bytes] is a list of
      [Byte.byte].
    - a [dict] whose iteration order is observed (the rules of a
      stylesheet, the stylesheet cache, the spine properties) is an
      insertion-ordered association list; [added_files], which is only
      looked up, is a [gmap].
    - an exception is a value of [exn], and code that can raise returns a
      [result]. *)

From Stdlib Require Import NArith List Ascii String Bool Lia.
From stdpp Require Import gmap list strings.

Abbreviation str := (list N).
Abbreviation bytes := (list Byte.byte).

(** ** Exceptions *)

Inductive exn : Type :=
| ZeroDivisionError
| ParseError
| OtherError (cls : string).

Inductive result (A : Type) : Type :=
| Ok (a : A)
| Raise (e : exn).
Arguments Ok {A} a.
Arguments Raise {A} e.

#[global] Instance result_ret : MRet result := fun A a => Ok a.
#[global] Instance result_bind : MBind result := fun A B k r =>
  match r with
  | Ok a => k a
  | Raise e => Raise e
  end.

(** ** Literals *)

(** The text of a Python literal written with ASCII characters. *)
Definition pystr (s : string) : str := map Byte.to_N (list_byte_of_string s).
Definition pybytes (s : string) : bytes := list_byte_of_string s.

(** ** [str] methods used by the module *)

Module Str.

(** [str.isspace] on one code point, which is also the class [\s] of
    [re] on a [str] pattern. *)
Definition isspace (c : N) : bool :=
  ((9 <=? c) && (c <=? 13) || (28 <=? c) && (c <=? 32) || (c =? 133)
   || (c =? 160) || (c =? 5760) || (8192 <=? c) && (c <=? 8202)
   || (c =? 8232) || (c =? 8233) || (c =? 8239) || (c =? 8287)
   || (c =? 12288))%N.

Fixpoint startswith (s p : str) : bool :=
  match p, s with
  | [], _ => true
  | _ :: _, [] => false
  | a :: p', c :: s' => (a =? c)%N && startswith s' p'
  end.

Definition endswith (s p : str) : bool := startswith (rev s) (rev p).

(** [needle in hay] *)
Fixpoint contains (needle hay : str) : bool :=
  startswith hay needle
  || match hay with
     | [] => false
     | _ :: hay' => contains needle hay'
     end.

(** [s.split(sep)] for a separator of one character. *)
Fixpoint split (sep : N) (s : str) : list str :=
  match s with
  | [] => [[]]
  | c :: s' =>
      if (c =? sep)%N then [] :: split sep s'
      else match split sep s' with
           | h :: t => (c :: h) :: t
           | [] => [[c]]
           end
  end.

Fixpoint lstrip (s : str) : str :=
  match s with
  | [] => []
  | c :: s' => if isspace c then lstrip s' else s
  end.

Definition rstrip (s : str) : str := rev (lstrip (rev s)).

Definition strip (s : str) : str := lstrip (rstrip s).

(** [sep.join(parts)] *)
Fixpoint join (sep : str) (parts : list str) : str :=
  match parts with
  | [] => []
  | [p] => p
  | p :: rest => p ++ sep ++ join sep rest
  end.

(** [s.replace(old, new[, count])] for a non-empty [old]: occurrences
    are taken from the left and do not overlap.  [budget] is the number
    of replacements still allowed ([None]: no limit); [skip] counts the
    characters of the occurrence just replaced that are still to be
    dropped. *)
Fixpoint replace_from (old new : str) (budget : option nat) (skip : nat)
    (s : str) : str :=
  match s with
  | [] => []
  | c :: s' =>
      match skip with
      | S k => replace_from old new budget k s'
      | O =>
          let allowed := match budget with Some O => false | _ => true end in
          if allowed && startswith s old
          then new ++ replace_from old new (pred <$> budget) (length old - 1) s'
          else c :: replace_from old new budget 0 s'
      end
  end.

Definition replace (old new s : str) : str := replace_from old new None 0 s.
Definition replace_count (old new : str) (count : nat) (s : str) : str :=
  replace_from old new (Some count) 0 s.

(** [os.path.basename] (posix): what follows the last slash. *)
Definition basename (p : str) : str := List.last (split 47%N p) [].

(** Truth value of an optional string: [None] and [''] are false. *)
Definition truthy (o : option str) : bool :=
  match o with
  | Some (_ :: _) => true
  | _ => false
  end.

Definition eqb (s t : str) : bool := bool_decide (s = t).

End Str.

(** ** The UTF-8 codec *)

Module Utf8.

Definition cont (x : N) : bool := ((128 <=? x) && (x <=? 191))%N.

(** Second byte of a sequence whose lead byte is [b1]: a continuation
    byte, within the narrower range that excludes overlong forms,
    surrogates and code points beyond U+10FFFF. *)
Definition second_ok (b1 b2 : N) : bool :=
  (cont b2
   && negb ((b1 =? 224) && (b2 <? 160))
   && negb ((b1 =? 237) && (160 <=? b2))
   && negb ((b1 =? 240) && (b2 <? 144))
   && negb ((b1 =? 244) && (144 <=? b2)))%N.

Definition cp2 (b1 b2 : N) : N := ((b1 - 192) * 64 + (b2 - 128))%N.
Definition cp3 (b1 b2 b3 : N) : N :=
  ((b1 - 224) * 4096 + (b2 - 128) * 64 + (b3 - 128))%N.
Definition cp4 (b1 b2 b3 b4 : N) : N :=
  ((b1 - 240) * 262144 + (b2 - 128) * 4096 + (b3 - 128) * 64 + (b4 - 128))%N.

(** [decode_from ignore bs]: with [ignore = false] the strict decoder,
    which fails ([None], Python's [UnicodeDecodeError]) on the first
    ill-formed sequence; with [ignore = true] the decoder of
    [errors='ignore'], which drops the ill-formed bytes (the valid
    prefix of the sequence, or everything left when the input ends
    inside a sequence) and goes on. *)
Fixpoint decode_from (ignore : bool) (bs : list N) {struct bs} : option str :=
  match bs with
  | [] => Some []
  | b1 :: r1 =>
      if (b1 <? 128)%N then cons b1 <$> decode_from ignore r1
      else if (b1 <? 194)%N || (245 <=? b1)%N then
        if ignore then decode_from ignore r1 else None
      else
        match r1 with
        | [] => if ignore then Some [] else None
        | b2 :: r2 =>
            if negb (second_ok b1 b2) then
              if ignore then decode_from ignore r1 else None
            else if (b1 <? 224)%N then cons (cp2 b1 b2) <$> decode_from ignore r2
            else
              match r2 with
              | [] => if ignore then Some [] else None
              | b3 :: r3 =>
                  if negb (cont b3) then
                    if ignore then decode_from ignore r2 else None
                  else if (b1 <? 240)%N
                  then cons (cp3 b1 b2 b3) <$> decode_from ignore r3
                  else
                    match r3 with
                    | [] => if ignore then Some [] else None
                    | b4 :: r4 =>
                        if negb (cont b4) then
                          if ignore then decode_from ignore r3 else None
                        else cons (cp4 b1 b2 b3 b4) <$> decode_from ignore r4
                    end
              end
        end
  end.

(** [b.decode('utf-8')]; [None] stands for [UnicodeDecodeError]. *)
Definition decode (b : bytes) : option str :=
  decode_from false (map Byte.to_N b).

(** [b.decode('utf-8', errors='ignore')], which cannot fail. *)
Definition decode_ignore (b : bytes) : str :=
  default [] (decode_from true (map Byte.to_N b)).

Definition byte_of (n : N) : Byte.byte := default Byte.x00 (Byte.of_N n).

Definition encode_cp (c : N) : list N :=
  (if c <? 128 then [c]
   else if c <? 2048 then [192 + c / 64; 128 + c mod 64]
   else if c <? 65536 then [224 + c / 4096; 128 + (c / 64) mod 64; 128 + c mod 64]
   else [240 + c / 262144; 128 + (c / 4096) mod 64; 128 + (c / 64) mod 64;
         128 + c mod 64])%N.

(** [s.encode('utf-8')].  Every string the module encodes was decoded
    from UTF-8 and extended with ASCII text, so it holds no surrogate
    and the encoder cannot fail. *)
Definition encode (s : str) : bytes := map byte_of (flat_map encode_cp s).

End Utf8.

(** ** Regular expressions

    The patterns of the module are sequences of literals and of
    repetitions of one character class, with at most one group.  [exec]
    is the backtracking matcher of [re] on such a sequence: a repetition
    is greedy and gives characters back one at a time. *)

Module Re.

(** A character class is its membership test: [Str.isspace] for [\s],
    [str.isdecimal] for [\d], [none_of l] for [[^l]]. *)
Inductive atom : Type :=
| Lit (s : str)
| Star (c : N -> bool)
| Plus (c : N -> bool)
| Opt (c : N -> bool)
| Open                  (* ( *)
| Close.                (* ) *)

Definition one_of (l : str) (x : N) : bool := existsb (N.eqb x) l.
Definition none_of (l : str) (x : N) : bool := negb (one_of l x).

Fixpoint greedy {A : Type} (p : N -> bool) (k : str -> option A) (s : str)
    : option A :=
  match s with
  | x :: s' =>
      if p x then
        match greedy p k s' with
        | Some m => Some m
        | None => k s
        end
      else k s
  | [] => k []
  end.

(** [exec r gs g s]: match [r] at the start of [s]; [gs] is the text
    that was left when the group opened, [g] the text of the group once
    closed.  The result is the group and the text left after the
    match. *)
Fixpoint exec (r : list atom) (gs : str) (g : option str) (s : str)
    {struct r} : option (option str * str) :=
  match r with
  | [] => Some (g, s)
  | Lit l :: r' =>
      if Str.startswith s l then exec r' gs g (drop (length l) s) else None
  | Star c :: r' => greedy c (exec r' gs g) s
  | Plus c :: r' =>
      match s with
      | x :: s' => if c x then greedy c (exec r' gs g) s' else None
      | [] => None
      end
  | Opt c :: r' =>
      match s with
      | x :: s' =>
          if c x then
            match exec r' gs g s' with
            | Some m => Some m
            | None => exec r' gs g s
            end
          else exec r' gs g s
      | [] => exec r' gs g []
      end
  | Open :: r' => exec r' s g s
  | Close :: r' => exec r' gs (Some (take (length gs - length s) gs)) s
  end.

(** [re.search(r, s)]: the match at the leftmost position that has one;
    [group(1)] and the text after the match. *)
Fixpoint search (r : list atom) (s : str) : option (option str * str) :=
  match exec r [] None s with
  | Some m => Some m
  | None =>
      match s with
      | [] => None
      | _ :: s' => search r s'
      end
  end.

(** [match.group(1)] of [re.search(r, s)]. *)
Definition search_group (r : list atom) (s : str) : option str :=
  match search r s with
  | Some (Some g, _) => Some g
  | _ => None
  end.

(** [re.sub(r, repl, s)] for a pattern that matches no empty string and
    a replacement without backslash: the matches are taken from the
    left and do not overlap.  [skip] counts the characters of the last
    match still to be dropped. *)
Fixpoint sub_from (r : list atom) (repl : str) (skip : nat) (s : str) : str :=
  match s with
  | [] => []
  | x :: s' =>
      match skip with
      | S k => sub_from r repl k s'
      | O =>
          match exec r [] None s with
          | Some (_, rest) =>
              match length s - length rest with
              | S n => repl ++ sub_from r repl n s'
              | O => x :: sub_from r repl 0 s'
              end
          | None => x :: sub_from r repl 0 s'
          end
      end
  end.

Definition sub (r : list atom) (repl s : str) : str := sub_from r repl 0 s.

End Re.

(** ** Dictionaries in insertion order

    A Python [dict] keyed by strings, where the order of the items is the
    order in which the keys were first set. *)

Module Dict.

Section Ops.
Context {V : Type}.

Fixpoint get (k : str) (d : list (str * V)) : option V :=
  match d with
  | [] => None
  | (k', v) :: d' => if Str.eqb k k' then Some v else get k d'
  end.

(** [d[k] = v]: a key already present keeps its place. *)
Fixpoint set (k : str) (v : V) (d : list (str * V)) : list (str * V) :=
  match d with
  | [] => [(k, v)]
  | (k', v') :: d' =>
      if Str.eqb k k' then (k, v) :: d' else (k', v') :: set k v d'
  end.

Definition values (d : list (str * V)) : list V := map snd d.

(** [d.update(e)] *)
Definition update (d e : list (str * V)) : list (str * V) :=
  fold_left (fun acc kv => set kv.1 kv.2 acc) e d.
End Ops.

End Dict.

(** ** XML elements

    The part of an [xml.etree.ElementTree.Element] that the module
    reads: the tag (with its namespace in braces), the attributes, the
    text and the child elements. *)

Module ET.

#[local] Unset Elimination Schemes.
Inductive Element : Type :=
| Elem (tag : str) (attrib : list (str * str)) (text : option str)
       (children : list Element).
#[local] Set Elimination Schemes.

Definition tag (e : Element) : str := let 'Elem t _ _ _ := e in t.
Definition attrib (e : Element) : list (str * str) := let 'Elem _ a _ _ := e in a.
Definition text (e : Element) : option str := let 'Elem _ _ t _ := e in t.
Definition children (e : Element) : list Element := let 'Elem _ _ _ c := e in c.

(** [e.iter()]: the element, then its descendants, in document order. *)
Fixpoint iter (e : Element) : list Element :=
  match e with
  | Elem _ _ _ cs =>
      e :: (fix over (l : list Element) : list Element :=
              match l with
              | [] => []
              | c :: l' => iter c ++ over l'
              end) cs
  end.

(** [e.get(key)] *)
Definition get (e : Element) (key : str) : option str := Dict.get key (attrib e).

(** [e.get(key, '')] *)
Definition get_or_empty (e : Element) (key : str) : str := default [] (get e key).

(** [e.find(path)] for a path that is one qualified tag: the first
    child with that tag. *)
Definition find (e : Element) (qtag : str) : option Element :=
  List.find (fun c => Str.eqb (tag c) qtag) (children e).

End ET.

(** ** Data of the package

    [OpfMetadata] is the dictionary returned by [_extract_opf_metadata],
    one field per key.  [Metadata] holds the three rendition fields of
    the class of that name in [grawlix/book.py]; the other fields are not
    touched by the module. *)

Record OpfMetadata : Type := {
  opf_rendition_layout : option str;
  opf_rendition_spread : option str;
  opf_rendition_orientation : option str;
  opf_cover_id : option str;
  opf_cover_href : option str;
  opf_spine_properties : list (str * str);
}.

Record Metadata : Type := {
  rendition_layout : option str;
  rendition_spread : option str;
  rendition_orientation : option str;
}.

(** ** Archives and the book under construction

    A part, once downloaded and decrypted, is a ZIP archive read through
    [zipfile.ZipFile]: the entries in archive order, each a name and its
    uncompressed content.  When a name occurs twice, [getinfo] and [read]
    answer for the last entry of that name. *)

Module Zip.

Definition namelist (z : list (str * bytes)) : list str := map fst z.

(** [z.read(name)], for a name of [namelist z]. *)
Definition read (z : list (str * bytes)) (name : str) : bytes :=
  default [] (Dict.get name (rev z)).

(** [z.getinfo(name).file_size] *)
Definition file_size (z : list (str * bytes)) (name : str) : nat :=
  length (read z name).

End Zip.

(** An [ebooklib.epub.EpubItem] as the module creates it, and the parts
    of the [EpubBook] that it fills: [add_item] appends to [items]. *)

Record EpubItem : Type := {
  file_name : str;
  content : bytes;
  media_type : option str;
}.

Inductive SpineEntry : Type :=
| SpineItem (item : EpubItem)
| SpineItemProps (item : EpubItem) (props : str).

Definition spine_item (e : SpineEntry) : EpubItem :=
  match e with
  | SpineItem i => i
  | SpineItemProps i _ => i
  end.

Record EpubBook : Type := {
  items : list EpubItem;
  spine : list SpineEntry;
  toc : list EpubItem;
}.

(** The variables of [_download_epub_in_parts] that live across parts.
    [progress_made] lists the calls of [update]; a progress of [1/n] is
    recorded as [n]. *)

Record State : Type := {
  added_files : gmap str nat;
  css_cache : list (str * bytes);
  cover_href : option str;
  spine_properties : list (str * str);
  output : EpubBook;
  opf_extracted : bool;
  metadata : Metadata;
  progress_made : list nat;
}.

(** ** What the module takes from outside the repository

    - [unicode_isdecimal] and [unicode_lower]: the Unicode character
      database, for code points beyond ASCII.  [unicode_lower s i] is the
      lowercase form of the character at index [i] of [s].
    - [fromstring]: [xml.etree.ElementTree.fromstring], which returns the
      root element or raises. *)

Record Runtime : Type := {
  unicode_isdecimal : N -> bool;
  unicode_lower : str -> nat -> str;
  fromstring : bytes -> result ET.Element;
}.

(** The double quote and the newline, as one-character strings. *)
Definition dq : str := [34%N].
Definition nl : str := [10%N].

Section Epub.

Context (rt : Runtime).

Definition isdecimal (c : N) : bool :=
  if (c <? 128)%N then (48 <=? c)%N && (c <=? 57)%N else unicode_isdecimal rt c.

Definition lower_char (s : str) (i : nat) (c : N) : str :=
  if (c <? 128)%N then [if (65 <=? c)%N && (c <=? 90)%N then (c + 32)%N else c]
  else unicode_lower rt s i.

(** [s.lower()] *)
Definition lower (s : str) : str := concat (imap (lower_char s) s).

(** *** Fixed-layout page repair *)

(** [body\s*\{[^}]*width:\s*(\d+)px] and the same for [height]. *)
Definition body_dimension_re (name : str) : list Re.atom :=
  [Re.Lit (pystr "body"); Re.Star Str.isspace; Re.Lit (pystr "{");
   Re.Star (Re.none_of (pystr "}")); Re.Lit (name ++ pystr ":");
   Re.Star Str.isspace; Re.Open; Re.Plus isdecimal; Re.Close;
   Re.Lit (pystr "px")].

(** The pattern [style=Qwidth:px;\s*height:px;Q], with Q the double
    quote. *)
Definition broken_style_re : list Re.atom :=
  [Re.Lit (pystr "style=" ++ dq ++ pystr "width:px;"); Re.Star Str.isspace;
   Re.Lit (pystr "height:px;" ++ dq)].

Definition viewport_tag (width height : str) : str :=
  pystr "<meta name=" ++ dq ++ pystr "viewport" ++ dq ++ pystr " content="
  ++ dq ++ pystr "width=" ++ width ++ pystr ", height=" ++ height ++ dq
  ++ pystr "/>".

Definition fixed_style (width height : str) : str :=
  pystr "style=" ++ dq ++ pystr "width:" ++ width ++ pystr "px; height:"
  ++ height ++ pystr "px;" ++ dq.

(** The dimensions read from the stylesheet: [(width, height)]. *)
Definition css_dimensions (css_content : option bytes) : option str * option str :=
  match css_content with
  | Some ((_ :: _) as css) =>
      match Utf8.decode css with
      | Some css_str =>
          (Re.search_group (body_dimension_re (pystr "width")) css_str,
           Re.search_group (body_dimension_re (pystr "height")) css_str)
      | None => (None, None)
      end
  | _ => (None, None)
  end.

(** Add the viewport meta tag if missing. *)
Definition add_viewport (width height html_str : str) : str :=
  if negb (Str.contains (pystr "name=" ++ dq ++ pystr "viewport" ++ dq) html_str)
     && Str.contains (pystr "<head>") html_str
  then Str.replace_count (pystr "<head>")
         (pystr "<head>" ++ nl ++ pystr "    " ++ viewport_tag width height)
         1 html_str
  else html_str.

(** Fix broken inline styles. *)
Definition fix_styles (width height html_str : str) : str :=
  Re.sub broken_style_re (fixed_style width height) html_str.

Definition _fix_fixed_layout_page (html_content : bytes)
    (css_content : option bytes) : bytes :=
  match Utf8.decode html_content with
  | None => html_content
  | Some html_str =>
      let '(width, height) := css_dimensions css_content in
      if negb (Str.truthy width) || negb (Str.truthy height) then html_content
      else
        let w := default [] width in
        let h := default [] height in
        Utf8.encode (fix_styles w h (add_viewport w h html_str))
  end.

(** *** Stylesheet rules *)

(** The pattern [font-family:\s*[Q']?([^Q';}]+)], with Q the double
    quote. *)
Definition font_family_re : list Re.atom :=
  [Re.Lit (pystr "font-family:"); Re.Star Str.isspace;
   Re.Opt (Re.one_of (dq ++ pystr "'")); Re.Open;
   Re.Plus (Re.none_of (dq ++ pystr "';}")); Re.Close].

(** [rule_text.split('{')[0].strip()] *)
Definition selector_of (rule_text : str) : str :=
  Str.strip (hd [] (Str.split 123%N rule_text)).

Definition _get_css_rule_key (rule_text : str) : option str :=
  let selector := selector_of rule_text in
  if Str.eqb selector (pystr "@font-face") then
    match Re.search_group font_family_re rule_text with
    | Some family => Some (pystr "@font-face:" ++ Str.strip family)
    | None => None
    end
  else if Str.truthy (Some selector) then Some selector else None.

(** One turn of the loop that parses the rules already cached. *)
Definition add_existing_rule (existing_rules : list (str * str)) (rule : str)
    : list (str * str) :=
  if Str.contains (pystr "{") rule then
    match _get_css_rule_key rule with
    | Some ((_ :: _) as rule_key) =>
        Dict.set rule_key (Str.strip rule ++ pystr "}") existing_rules
    | _ => existing_rules
    end
  else existing_rules.

(** One turn of the loop over the rules of the new content. *)
Definition add_new_rule (existing_rules : list (str * str)) (rule : str)
    : list (str * str) :=
  if Str.contains (pystr "{") rule then
    match _get_css_rule_key rule with
    | Some ((_ :: _) as rule_key) =>
        let new_rule := Str.strip rule ++ pystr "}" in
        match Dict.get rule_key existing_rules with
        | None => Dict.set rule_key new_rule existing_rules
        | Some old_rule =>
            if length old_rule <? length new_rule
            then Dict.set rule_key new_rule existing_rules
            else existing_rules
        end
    | _ => existing_rules
    end
  else existing_rules.

(** The merged rules of a cached stylesheet and a new one. *)
Definition merged_rules (existing_str new_str : str) : list (str * str) :=
  fold_left add_new_rule (Str.split 125%N new_str)
    (fold_left add_existing_rule (Str.split 125%N existing_str) []).

Definition merge_css_text (existing_str new_str : str) : str :=
  Str.join nl (Dict.values (merged_rules existing_str new_str)).

(** The new value of [css_cache[filepath]] when the path is cached. *)
Definition merge_css (existing new : bytes) : bytes :=
  Utf8.encode (merge_css_text (Utf8.decode_ignore existing) (Utf8.decode_ignore new)).


(** *** Package metadata *)

Definition opf_tag (name : string) : str :=
  pystr "{http://www.idpf.org/2007/opf}" ++ pystr name.

(** [root.find('opf:X', ns)], then [root.find('{...}X')] when the first
    search found nothing. *)
Definition find_opf (root : ET.Element) (name : string) : option ET.Element :=
  match ET.find root (opf_tag name) with
  | Some e => Some e
  | None => ET.find root (opf_tag name)
  end.

Definition unset_result : OpfMetadata :=
  {| opf_rendition_layout := None; opf_rendition_spread := None;
     opf_rendition_orientation := None; opf_cover_id := None;
     opf_cover_href := None; opf_spine_properties := [] |}.

Definition set_rendition (prop : str) (text : option str) (r : OpfMetadata)
    : OpfMetadata :=
  if Str.eqb prop (pystr "rendition:layout") then
    {| opf_rendition_layout := text;
       opf_rendition_spread := opf_rendition_spread r;
       opf_rendition_orientation := opf_rendition_orientation r;
       opf_cover_id := opf_cover_id r; opf_cover_href := opf_cover_href r;
       opf_spine_properties := opf_spine_properties r |}
  else if Str.eqb prop (pystr "rendition:spread") then
    {| opf_rendition_layout := opf_rendition_layout r;
       opf_rendition_spread := text;
       opf_rendition_orientation := opf_rendition_orientation r;
       opf_cover_id := opf_cover_id r; opf_cover_href := opf_cover_href r;
       opf_spine_properties := opf_spine_properties r |}
  else if Str.eqb prop (pystr "rendition:orientation") then
    {| opf_rendition_layout := opf_rendition_layout r;
       opf_rendition_spread := opf_rendition_spread r;
       opf_rendition_orientation := text;
       opf_cover_id := opf_cover_id r; opf_cover_href := opf_cover_href r;
       opf_spine_properties := opf_spine_properties r |}
  else r.

Definition set_cover (id href : option str) (r : OpfMetadata) : OpfMetadata :=
  {| opf_rendition_layout := opf_rendition_layout r;
     opf_rendition_spread := opf_rendition_spread r;
     opf_rendition_orientation := opf_rendition_orientation r;
     opf_cover_id := id; opf_cover_href := href;
     opf_spine_properties := opf_spine_properties r |}.

Definition set_spine_property (href props : str) (r : OpfMetadata) : OpfMetadata :=
  {| opf_rendition_layout := opf_rendition_layout r;
     opf_rendition_spread := opf_rendition_spread r;
     opf_rendition_orientation := opf_rendition_orientation r;
     opf_cover_id := opf_cover_id r; opf_cover_href := opf_cover_href r;
     opf_spine_properties := Dict.set href props (opf_spine_properties r) |}.

Definition has_tag (e : ET.Element) (name : string) : bool :=
  Str.endswith (ET.tag e) (pystr "}" ++ pystr name) || Str.eqb (ET.tag e) (pystr name).

(** One turn of the loop over [metadata.iter()]. *)
Definition scan_meta (r : OpfMetadata) (meta : ET.Element) : OpfMetadata :=
  if has_tag meta "meta" then
    let r := set_rendition (ET.get_or_empty meta (pystr "property")) (ET.text meta) r in
    if Str.eqb (ET.get_or_empty meta (pystr "name")) (pystr "cover")
    then set_cover (ET.get meta (pystr "content")) (opf_cover_href r) r
    else r
  else r.

(** One turn of the loop over [manifest.iter()], on the result and
    [id_to_href]. *)
Definition scan_item (acc : OpfMetadata * list (str * str)) (item : ET.Element)
    : OpfMetadata * list (str * str) :=
  let '(r, id_to_href) := acc in
  let item_id := ET.get item (pystr "id") in
  let item_href := ET.get item (pystr "href") in
  let id_to_href :=
    if Str.truthy item_id && Str.truthy item_href
    then Dict.set (default [] item_id) (default [] item_href) id_to_href
    else id_to_href in
  (* Check for cover by ID match *)
  let r :=
    if Str.truthy (opf_cover_id r) && bool_decide (item_id = opf_cover_id r)
       && negb (Str.truthy (opf_cover_href r))
    then set_cover (opf_cover_id r) item_href r
    else r in
  (* Check for cover-image property *)
  let props := ET.get_or_empty item (pystr "properties") in
  let r :=
    if Str.contains (pystr "cover-image") props && negb (Str.truthy (opf_cover_href r))
    then set_cover item_id item_href r
    else r in
  (r, id_to_href).

(** One turn of the loop over [spine.iter()]. *)
Definition scan_itemref (id_to_href : list (str * str)) (r : OpfMetadata)
    (itemref : ET.Element) : OpfMetadata :=
  if has_tag itemref "itemref" then
    match ET.get itemref (pystr "idref"), ET.get itemref (pystr "properties") with
    | Some ((_ :: _) as idref), Some ((_ :: _) as props) =>
        match Dict.get idref id_to_href with
        | Some href => set_spine_property href props r
        | None => r
        end
    | _, _ => r
    end
  else r.

(** The body of the [try] once the document is parsed. *)
Definition opf_metadata_of_root (root : ET.Element) : OpfMetadata :=
  match find_opf root "metadata" with
  | None => unset_result
  | Some metadata =>
      let r := fold_left scan_meta (ET.iter metadata) unset_result in
      let '(r, id_to_href) :=
        match find_opf root "manifest" with
        | Some manifest => fold_left scan_item (ET.iter manifest) (r, [])
        | None => (r, [])
        end in
      match find_opf root "spine" with
      | Some spine => fold_left (scan_itemref id_to_href) (ET.iter spine) r
      | None => r
      end
  end.

(** Only [ET.ParseError] is caught. *)
Definition _extract_opf_metadata (opf_content : bytes) : result OpfMetadata :=
  match fromstring rt opf_content with
  | Ok root => Ok (opf_metadata_of_root root)
  | Raise ParseError => Ok unset_result
  | Raise e => Raise e
  end.


(** *** The merge of the parts *)

Definition pre_paginated (md : Metadata) : bool :=
  bool_decide (rendition_layout md = Some (pystr "pre-paginated")).

Definition should_add_file (added : gmap str nat) (zipfile : list (str * bytes))
    (filename : str) : bool :=
  if Str.endswith filename (pystr "/") then false
  else if Str.eqb filename (pystr "mimetype")
          || Str.startswith filename (pystr "META-INF/") then false
  else if Str.endswith filename (pystr ".opf")
          || Str.endswith filename (pystr ".ncx") then false
  else
    match added !! filename with
    | None => true
    | Some old_size => old_size <? Zip.file_size zipfile filename
    end.

(** A truthy value of the OPF result replaces the current one. *)
Definition or_keep (new old : option str) : option str :=
  if Str.truthy new then new else old.

Definition store_opf_metadata (m : OpfMetadata) (st : State) : State :=
  {| added_files := added_files st;
     css_cache := css_cache st;
     cover_href := or_keep (opf_cover_href m) (cover_href st);
     spine_properties := Dict.update (spine_properties st) (opf_spine_properties m);
     output := output st;
     opf_extracted := true;
     metadata :=
       {| rendition_layout :=
            or_keep (opf_rendition_layout m) (rendition_layout (metadata st));
          rendition_spread :=
            or_keep (opf_rendition_spread m) (rendition_spread (metadata st));
          rendition_orientation :=
            or_keep (opf_rendition_orientation m)
              (rendition_orientation (metadata st)) |};
     progress_made := progress_made st |}.

(** Extract OPF metadata from the first OPF file, once. *)
Definition extract_opf (zipfile : list (str * bytes)) (st : State) : result State :=
  if opf_extracted st then Ok st
  else
    match List.find (fun f => Str.endswith f (pystr ".opf")) (Zip.namelist zipfile) with
    | None => Ok st
    | Some filename =>
        m ← _extract_opf_metadata (Zip.read zipfile filename);
        Ok (store_opf_metadata m st)
    end.

(** One turn of the loop that collects the CSS files. *)
Definition collect_css (zipfile : list (str * bytes)) (cache : list (str * bytes))
    (filepath : str) : list (str * bytes) :=
  if Str.endswith filepath (pystr ".css") then
    match Zip.read zipfile filepath with
    | [] => cache
    | content =>
        match Dict.get filepath cache with
        | None => Dict.set filepath content cache
        | Some existing => Dict.set filepath (merge_css existing content) cache
        end
    end
  else cache.

Definition set_css_cache (cache : list (str * bytes)) (st : State) : State :=
  {| added_files := added_files st; css_cache := cache;
     cover_href := cover_href st; spine_properties := spine_properties st;
     output := output st; opf_extracted := opf_extracted st;
     metadata := metadata st; progress_made := progress_made st |}.

(** The content stored for a page: repaired when the layout is
    pre-paginated and the stylesheet of the page is cached. *)
Definition page_content (st : State) (filepath : str) (content : bytes) : bytes :=
  if pre_paginated (metadata st) then
    let css_path :=
      Str.replace (pystr ".html") (pystr ".css")
        (Str.replace (pystr ".xhtml") (pystr ".css") filepath) in
    match Dict.get css_path (css_cache st) with
    | Some ((_ :: _) as css_content) =>
        _fix_fixed_layout_page content (Some css_content)
    | _ => content
    end
  else content.

Definition is_in_toc (files_in_toc : list (str * str)) (filename : str) : bool :=
  existsb (fun kv => Str.eqb filename (hd [] (Str.split 35%N kv.1))) files_in_toc.

Definition is_nav (filepath : str) : bool :=
  existsb (fun x => Str.contains x (lower filepath))
    [pystr "nav.xhtml"; pystr "nav.html"; pystr "toc.xhtml"; pystr "toc.html"].

(** The properties of the first entry of [spine_properties] that
    matches the path. *)
Definition spine_props (props : list (str * str)) (filepath : str) : option str :=
  snd <$> List.find
    (fun hp => Str.endswith filepath hp.1 || Str.endswith hp.1 (Str.basename filepath))
    props.

Definition spine_entry (st : State) (epub_file : EpubItem) : SpineEntry :=
  match spine_props (spine_properties st) (file_name epub_file) with
  | Some ((_ :: _) as props) => SpineItemProps epub_file props
  | _ => SpineItem epub_file
  end.

(** The book after a kept file is added to it.  A file that is no page
    is given to [EpubItem] without a media type; the type that
    [ebooklib] guesses for it from the path is not part of the
    model. *)
Definition add_to_book (files_in_toc : list (str * str)) (st : State)
    (filepath : str) (content : bytes) : EpubBook :=
  let book := output st in
  if Str.endswith filepath (pystr "html") then
    let epub_file :=
      {| file_name := filepath; content := page_content st filepath content;
         media_type := Some (pystr "application/xhtml+xml") |} in
    {| items := items book ++ [epub_file];
       spine :=
         if negb (is_nav filepath && pre_paginated (metadata st))
         then spine book ++ [spine_entry st epub_file]
         else spine book;
       toc :=
         if is_in_toc files_in_toc (Str.basename filepath)
         then toc book ++ [epub_file]
         else toc book |}
  else
    {| items := items book
                ++ [{| file_name := filepath; content := content; media_type := None |}];
       spine := spine book;
       toc := toc book |}.

(** The state once a file is kept: the book has the file and
    [added_files] has its size, measured before any repair. *)
Definition keep_file (files_in_toc : list (str * str)) (st : State)
    (filepath : str) (content : bytes) : State :=
  let file_size := length content in
  {| added_files := <[filepath := file_size]> (added_files st);
     css_cache := css_cache st;
     cover_href := cover_href st;
     spine_properties := spine_properties st;
     output := add_to_book files_in_toc st filepath content;
     opf_extracted := opf_extracted st;
     metadata := metadata st;
     progress_made := progress_made st |}.

(** One turn of the loop over the files of a part. *)
Definition add_file (files_in_toc : list (str * str)) (zipfile : list (str * bytes))
    (st : State) (filepath : str) : State :=
  if Str.endswith filepath (pystr ".css") then st
  else if negb (should_add_file (added_files st) zipfile filepath) then st
  else keep_file files_in_toc st filepath (Zip.read zipfile filepath).

Definition report (update : bool) (progress : nat) (st : State) : State :=
  {| added_files := added_files st; css_cache := css_cache st;
     cover_href := cover_href st; spine_properties := spine_properties st;
     output := output st; opf_extracted := opf_extracted st;
     metadata := metadata st;
     progress_made :=
       if update then progress_made st ++ [progress] else progress_made st |}.

(** The body of the loop over the parts. *)
Definition merge_part (files_in_toc : list (str * str)) (update : bool)
    (progress : nat) (st : State) (zipfile : list (str * bytes)) : result State :=
  st ← extract_opf zipfile st;
  let names := Zip.namelist zipfile in
  let st := set_css_cache (fold_left (collect_css zipfile) names (css_cache st)) st in
  let st := fold_left (add_file files_in_toc zipfile) names st in
  Ok (report update progress st).

Fixpoint merge_parts (files_in_toc : list (str * str)) (update : bool)
    (progress : nat) (st : State) (files : list (list (str * bytes)))
    : result State :=
  match files with
  | [] => Ok st
  | zipfile :: rest =>
      st ← merge_part files_in_toc update progress st zipfile;
      merge_parts files_in_toc update progress st rest
  end.

Definition initial_state (md : Metadata) : State :=
  {| added_files := ∅; css_cache := []; cover_href := None;
     spine_properties := [];
     output := {| items := []; spine := []; toc := [] |};
     opf_extracted := false; metadata := md; progress_made := [] |}.

(** [1/file_count] *)
Definition one_over (file_count : nat) : result nat :=
  match file_count with
  | O => Raise ZeroDivisionError
  | S _ => Ok file_count
  end.

(** Add the merged CSS files after all parts have been processed. *)
Definition add_css_items (st : State) : State :=
  {| added_files := added_files st; css_cache := css_cache st;
     cover_href := cover_href st; spine_properties := spine_properties st;
     output :=
       {| items :=
            items (output st)
            ++ map (fun kv => {| file_name := kv.1; content := kv.2;
                                 media_type := Some (pystr "text/css") |})
                 (css_cache st);
          spine := spine (output st);
          toc := toc (output st) |};
     opf_extracted := opf_extracted st;
     metadata := metadata st; progress_made := progress_made st |}.

(** [_download_epub_in_parts], from its first line to the point where
    the merged stylesheets have joined the book.  [files] holds, for
    each [OnlineFile] of [data.files], the archive that
    [_download_and_write_file] leaves in the temporary file; [update]
    tells whether a progress callback was given.  The marking of the
    cover and the hand-over to [ebooklib] that follow are not part of
    the model. *)
Definition _download_epub_in_parts (files : list (list (str * bytes)))
    (files_in_toc : list (str * str)) (md : Metadata) (update : bool)
    : result State :=
  let file_count := length files in
  progress ← one_over file_count;
  st ← merge_parts files_in_toc update progress (initial_state md) files;
  Ok (add_css_items st).


(** The content of the item that [add_to_book] adds for a kept file. *)
Definition kept_content (st : State) (filepath : str) (body : bytes) : bytes :=
  if Str.endswith filepath (pystr "html") then page_content st filepath body else body.

End Epub.

(** ** Notions used to state the properties *)

(** An element of the manifest is a candidate for the cover when its id
    is the cover id known so far, or when its [properties] attribute
    contains [cover-image]. *)
Definition matches_cover (cover_id : option str) (item : ET.Element) : bool :=
  Str.truthy cover_id && bool_decide (ET.get item (pystr "id") = cover_id)
  || Str.contains (pystr "cover-image") (ET.get_or_empty item (pystr "properties")).

(** The cover id after the scan of the metadata element. *)
Definition declared_cover_id (metadata : ET.Element) : option str :=
  opf_cover_id (fold_left scan_meta (ET.iter metadata) unset_result).

(** The cover reference with priority to the id: the href of the first
    element whose id is the cover id and, only when no element has that
    id, of the first element whose properties contain [cover-image]. *)
Definition cover_href_by_priority (cover_id : option str)
    (manifest_items : list ET.Element) : option str :=
  match List.find (fun i => Str.truthy cover_id
                            && bool_decide (ET.get i (pystr "id") = cover_id))
          manifest_items with
  | Some i => ET.get i (pystr "href")
  | None =>
      match List.find (fun i => Str.contains (pystr "cover-image")
                                  (ET.get_or_empty i (pystr "properties")))
              manifest_items with
      | Some i => ET.get i (pystr "href")
      | None => None
      end
  end.

(** The font family that keys a [@font-face] rule. *)
Definition font_family_of (rule_text : str) : option str :=
  Str.strip <$> Re.search_group font_family_re rule_text.

(** The candidate rules of a stylesheet text: the chunks between closing
    braces that contain an opening brace. *)
Definition rules_of (css : str) : list str :=
  filter (fun rule => Str.contains (pystr "{") rule = true) (Str.split 125%N css).

(** What a candidate rule contributes to the rule dictionary: its key
    and its stripped text, closed again. *)
Definition rule_entry (rule : str) : option (str * str) :=
  if Str.contains (pystr "{") rule then
    match _get_css_rule_key rule with
    | Some ((_ :: _) as rule_key) => Some (rule_key, Str.strip rule ++ pystr "}")
    | _ => None
    end
  else None.

(** The keyed rules of a stylesheet text, in order. *)
Definition entries_of (css : str) : list (str * str) :=
  omap rule_entry (Str.split 125%N css).

(** The text kept under a key when [new] competes with [old]. *)
Definition longer_of (old : option str) (new : str) : str :=
  match old with
  | None => new
  | Some old => if length old <? length new then new else old
  end.

(** The paths that the loop over the files never keeps: stylesheets
    (merged apart), directory entries, the container files, and the OPF
    and NCX documents. *)
Definition excluded (filepath : str) : bool :=
  Str.endswith filepath (pystr ".css")
  || Str.endswith filepath (pystr "/")
  || Str.eqb filepath (pystr "mimetype")
  || Str.startswith filepath (pystr "META-INF/")
  || Str.endswith filepath (pystr ".opf")
  || Str.endswith filepath (pystr ".ncx").

(** Every path of [names] that is not excluded is recorded in [added]
    with at least the size it has in the archive. *)
Definition covered (added : gmap str nat) (zipfile : list (str * bytes))
    (names : list str) : Prop :=
  forall p, p ∈ names -> excluded p = false ->
    exists old, added !! p = Some old /\ length (Zip.read zipfile p) <= old.

(** The body of the item added last to the book under a path. *)
Definition latest_body (book : EpubBook) (path : str) : option bytes :=
  content <$> List.find (fun i => Str.eqb (file_name i) path) (rev (items book)).

(** The paths of the spine, in order. *)
Definition spine_paths (book : EpubBook) : list str :=
  map (fun e => file_name (spine_item e)) (spine book).

(** A part that holds one file. *)
Definition single_file (path body : string) : list (str * bytes) :=
  [(pystr path, pybytes body)].

Definition no_rendition : Metadata :=
  {| rendition_layout := None; rendition_spread := None;
     rendition_orientation := None |}.

(** An element of the OPF namespace with ASCII attributes and no text. *)
Definition opf_element (name : string) (attrs : list (string * string))
    (children : list ET.Element) : ET.Element :=
  ET.Elem (opf_tag name) (map (fun kv => (pystr kv.1, pystr kv.2)) attrs) None children.

(** A package whose manifest lists an item marked [cover-image] before
    the item that the metadata names as the cover. *)
Definition sample_manifest : ET.Element :=
  opf_element "manifest" []
    [opf_element "item" [("id", "x"); ("href", "x.jpg"); ("properties", "cover-image")] [];
     opf_element "item" [("id", "c"); ("href", "c.jpg")] []].

Definition sample_metadata : ET.Element :=
  opf_element "metadata" [] [opf_element "meta" [("name", "cover"); ("content", "c")] []].

Definition sample_package : ET.Element :=
  opf_element "package" [] [sample_metadata; sample_manifest].



(** The entries of the spine and of the table of contents are pages
    that are items of the book. *)
Definition pages_of_book (book : EpubBook) : Prop :=
  (forall e, e ∈ spine book ->
     spine_item e ∈ items book
     /\ Str.endswith (file_name (spine_item e)) (pystr "html") = true)
  /\ (forall it, it ∈ toc book ->
        it ∈ items book /\ Str.endswith (file_name it) (pystr "html") = true).

(** A [meta] element that gives the rendition layout. *)
Definition declares_layout (meta : ET.Element) : bool :=
  has_tag meta "meta"
  && Str.eqb (ET.get_or_empty meta (pystr "property")) (pystr "rendition:layout").

(** The rules of a stylesheet text as the first loop of the merge leaves
    them, before any rule of a new stylesheet is seen. *)
Definition parsed_rules (existing_str : str) : list (str * str) :=
  fold_left add_existing_rule (Str.split 125%N existing_str) [].

(** Every recorded path that is not a page has, as the body kept last,
    the body it has in one of [files], of the recorded size. *)
Definition bodies_from (files : list (list (str * bytes))) (st : State) : Prop :=
  forall p n, added_files st !! p = Some n -> Str.endswith p (pystr "html") = false ->
    exists part, part ∈ files /\ p ∈ Zip.namelist part
                 /\ latest_body (output st) p = Some (Zip.read part p)
                 /\ length (Zip.read part p) = n.

(** A package in which the spine gives a page its spread. *)
Definition sample_spread_package : ET.Element :=
  opf_element "package" []
    [opf_element "metadata" [] [];
     opf_element "manifest" []
       [opf_element "item" [("id", "p1"); ("href", "page1.xhtml")] []];
     opf_element "spine" []
       [opf_element "itemref" [("idref", "p1"); ("properties", "page-spread-left")] []]].

(** A [meta] element that declares a pre-paginated layout. *)
Definition sample_layout_meta : ET.Element :=
  ET.Elem (opf_tag "meta") [(pystr "property", pystr "rendition:layout")]
    (Some (pystr "pre-paginated")) [].

Definition sample_layout_package : ET.Element :=
  opf_element "package" [] [opf_element "metadata" [] [sample_layout_meta]].

(** ** Paths

    The functions of [os.path] that the search for a cover uses, as
    [posixpath] defines them. *)

Module Path.

(** What is left of a reversed path from its first slash on. *)
Fixpoint from_slash (s : str) : str :=
  match s with
  | [] => []
  | c :: s' => if (c =? 47)%N then s else from_slash s'
  end.

Fixpoint skip_slashes (s : str) : str :=
  match s with
  | [] => []
  | c :: s' => if (c =? 47)%N then skip_slashes s' else s
  end.

(** [os.path.dirname(p)]: the path up to its last slash; trailing
    slashes go unless the head is made of slashes only. *)
Definition dirname (p : str) : str :=
  let head := rev (from_slash (rev p)) in
  if forallb (fun c => (c =? 47)%N) head then head
  else rev (skip_slashes (rev head)).

(** [os.path.join(a, b)] *)
Definition join (a b : str) : str :=
  if Str.startswith b (pystr "/") then b
  else if Str.eqb a [] || Str.endswith a (pystr "/") then a ++ b
  else a ++ pystr "/" ++ b.

(** One turn of the loop of [normpath] over the components. *)
Definition norm_step (initial_slashes : nat) (new_comps : list str) (comp : str)
    : list str :=
  let no_comps := match new_comps with [] => true | _ => false end in
  if Str.eqb comp [] || Str.eqb comp (pystr ".") then new_comps
  else if negb (Str.eqb comp (pystr ".."))
          || Nat.eqb initial_slashes 0 && no_comps
          || negb no_comps && Str.eqb (List.last new_comps []) (pystr "..")
  then new_comps ++ [comp]
  else removelast new_comps.

(** [os.path.normpath(path)] *)
Definition normpath (path : str) : str :=
  match path with
  | [] => pystr "."
  | _ =>
      let initial_slashes :=
        if Str.startswith path (pystr "/") then
          if Str.startswith path (pystr "//") && negb (Str.startswith path (pystr "///"))
          then 2 else 1
        else 0 in
      let comps := fold_left (norm_step initial_slashes) (Str.split 47%N path) [] in
      match repeat 47%N initial_slashes ++ Str.join (pystr "/") comps with
      | [] => pystr "."
      | normal => normal
      end
  end.

End Path.

(** ** The cover

    What follows the merge in [_download_epub_in_parts]: the search for
    a cover in the first page of a pre-paginated book when the OPF gave
    none, and the choice of the item that is marked as the cover. *)

Definition quote (c : N) : bool := Re.one_of (dq ++ pystr "'") c.

(** The pattern [<img[^>]+src=[Q']([^Q']+)[Q']], with Q the double
    quote, matched at the start of a text with the backtracking of
    [Re.greedy]: the closing quote, the attribute from [src=] on, and
    the whole tag.  The result is the group and the text left. *)
Definition img_close (gs u : str) : option (str * str) :=
  match u with
  | q :: rest => if quote q then Some (take (length gs - length u) gs, rest) else None
  | [] => None
  end.

Definition img_src (t : str) : option (str * str) :=
  if Str.startswith t (pystr "src=") then
    match drop 4 t with
    | q :: gs =>
        if quote q then
          match gs with
          | y :: gs' =>
              if negb (quote y)
              then Re.greedy (fun c => negb (quote c)) (img_close gs) gs'
              else None
          | [] => None
          end
        else None
    | [] => None
    end
  else None.

Definition img_at (s : str) : option (str * str) :=
  if Str.startswith s (pystr "<img") then
    match drop 4 s with
    | x :: s' =>
        if Re.none_of (pystr ">") x
        then Re.greedy (Re.none_of (pystr ">")) img_src s'
        else None
    | [] => None
    end
  else None.

(** [re.findall] for that pattern: the groups of the matches, taken
    from the left without overlap.  [skip] counts the characters of the
    last match still to be passed. *)
Fixpoint findall_img (skip : nat) (s : str) : list str :=
  match s with
  | [] => []
  | _ :: s' =>
      match skip with
      | S k => findall_img k s'
      | O =>
          match img_at s with
          | Some (g, rest) => g :: findall_img (length s - length rest - 1) s'
          | None => findall_img 0 s'
          end
      end
  end.

(** The first content page of the spine, which is no nav or toc file. *)
Definition is_content_page (rt : Runtime) (e : SpineEntry) : bool :=
  let name := file_name (spine_item e) in
  let fname := lower rt name in
  Str.truthy (Some name)
  && negb (Str.contains (pystr "nav.") fname || Str.contains (pystr "toc.") fname)
  && (Str.endswith fname (pystr ".xhtml") || Str.endswith fname (pystr ".html")).

Definition nonempty {A : Type} (l : list A) : bool :=
  match l with
  | [] => false
  | _ => true
  end.

(** The lookup of item sizes: path to length of content, for the items
    that have a path and a content. *)
Definition item_sizes (book : EpubBook) : list (str * nat) :=
  fold_left
    (fun sizes it =>
       if nonempty (file_name it) && nonempty (content it)
       then Dict.set (file_name it) (length (content it)) sizes
       else sizes)
    (items book) [].

(** The size of the first item whose path ends with [img_path]. *)
Definition stored_size (sizes : list (str * nat)) (img_path : str) : option nat :=
  snd <$> List.find (fun kv => Str.endswith kv.1 img_path) sizes.

(** One turn of the loop over the images: [(best_img, best_size)]. *)
Definition pick_image (page_dir : str) (sizes : list (str * nat))
    (best : option str * nat) (src : str) : option str * nat :=
  let img_path := Path.normpath (Path.join page_dir src) in
  match stored_size sizes img_path with
  | Some size => if best.2 <? size then (Some img_path, size) else best
  | None => best
  end.

(** The cover found in the first content page, if any. *)
Definition infer_cover (rt : Runtime) (book : EpubBook) : option str :=
  match List.find (is_content_page rt) (spine book) with
  | Some e =>
      let first_page := spine_item e in
      if nonempty (content first_page) then
        match Utf8.decode (content first_page) with
        | Some text =>
            let img_matches := findall_img 0 text in
            if nonempty img_matches then
              let page_dir := Path.dirname (file_name first_page) in
              let best :=
                fold_left (pick_image page_dir (item_sizes book)) img_matches (None, 0) in
              if Str.truthy best.1 then best.1 else None
            else None
        | None => None
        end
      else None
  | None => None
  end.

(** The cover href once the search is over. *)
Definition resolved_cover (rt : Runtime) (st : State) : option str :=
  if negb (Str.truthy (cover_href st)) && pre_paginated (metadata st) then
    match infer_cover rt (output st) with
    | Some best_img => Some best_img
    | None => cover_href st
    end
  else cover_href st.

(** The item that is marked as the cover: the first whose path ends
    with the cover href. *)
Definition cover_item (book : EpubBook) (cover : option str) : option EpubItem :=
  match cover with
  | Some ((_ :: _) as href) =>
      List.find (fun it => nonempty (file_name it) && Str.endswith (file_name it) href)
        (items book)
  | _ => None
  end.

(** A book of one page with two images, the second stored larger. *)
Definition sample_page : bytes :=
  pybytes "<html><body><img src='a.jpg'/><img class='x' src='../images/b.png'/></body></html>".

Definition sample_item (name body : string) : EpubItem :=
  {| file_name := pystr name; content := pybytes body; media_type := None |}.

Definition sample_cover_book : EpubBook :=
  {| items := [sample_item "OEBPS/text/a.jpg" "12345";
               sample_item "OEBPS/images/b.png" "1234567"];
     spine := [SpineItem {| file_name := pystr "OEBPS/text/nav.xhtml";
                            content := sample_page; media_type := None |};
               SpineItem {| file_name := pystr "OEBPS/text/p1.xhtml";
                            content := sample_page; media_type := None |}];
     toc := [] |}.

Definition sample_cover_state : State :=
  {| added_files := ∅; css_cache := []; cover_href := None; spine_properties := [];
     output := sample_cover_book; opf_extracted := true;
     metadata := {| rendition_layout := Some (pystr "pre-paginated");
                    rendition_spread := None; rendition_orientation := None |};
     progress_made := [] |}.

(** ** A runtime for closed examples

    ASCII only: no decimal digit and no case mapping beyond ASCII, and a
    parser that rejects every document. *)

Definition ascii_runtime : Runtime :=
  {| unicode_isdecimal := fun _ => false;
     unicode_lower := fun s i => match s !! i with Some c => [c] | None => [] end;
     fromstring := fun _ => Raise ParseError |}.

(** ** A runtime whose parser meets an unknown encoding

    [xml.etree.ElementTree.fromstring] looks up the encoding that the
    XML declaration of a document names, and the lookup of a name that
    Python does not know raises [LookupError].  This runtime has such a
    parser for the name [foo]; it rejects every other document, as
    [ascii_runtime] does. *)



(** * Properties *)

Section Properties.

Context (rt : Runtime).

(** ** The codec: encoding undoes decoding *)

Lemma cont_range b : Utf8.cont b = true -> (128 <= b <= 191)%N.
Proof. unfold Utf8.cont. intros [H1 H2]%andb_true_iff. apply N.leb_le in H1, H2. lia. Qed.

Lemma second_ok_range b1 b2 :
  Utf8.second_ok b1 b2 = true ->
  (128 <= b2 <= 191)%N /\ (b1 = 224 -> 160 <= b2)%N /\ (b1 = 237 -> b2 < 160)%N
  /\ (b1 = 240 -> 144 <= b2)%N /\ (b1 = 244 -> b2 < 144)%N.
Proof.
  unfold Utf8.second_ok. rewrite !andb_true_iff, !negb_true_iff, !andb_false_iff.
  intros ((((Hc & H1) & H2) & H3) & H4). apply cont_range in Hc.
  rewrite ?N.eqb_neq, ?N.ltb_ge, ?N.leb_gt in *. lia.
Qed.

Lemma encode_cp2 b1 b2 :
  (194 <= b1 < 224)%N -> Utf8.cont b2 = true ->
  Utf8.encode_cp (Utf8.cp2 b1 b2) = [b1; b2].
Proof.
  unfold Utf8.cp2, Utf8.encode_cp. intros Hb1 Hb2%cont_range.
  set (c := ((b1 - 192) * 64 + (b2 - 128))%N).
  assert (Hq : (c / 64 = b1 - 192)%N).
  { symmetry. apply (N.div_unique c 64 (b1 - 192) (b2 - 128)); subst c; lia. }
  assert (Hr : (c mod 64 = b2 - 128)%N).
  { symmetry. apply (N.mod_unique c 64 (b1 - 192) (b2 - 128)); subst c; lia. }
  destruct (N.ltb_spec c 128); [subst c; lia|].
  destruct (N.ltb_spec c 2048); [|subst c; lia].
  rewrite Hq, Hr. f_equal; [lia|]. f_equal. lia.
Qed.

Lemma encode_cp3 b1 b2 b3 :
  (224 <= b1 < 240)%N -> Utf8.second_ok b1 b2 = true -> Utf8.cont b3 = true ->
  Utf8.encode_cp (Utf8.cp3 b1 b2 b3) = [b1; b2; b3].
Proof.
  unfold Utf8.cp3, Utf8.encode_cp. intros Hb1 Hb2%second_ok_range Hb3%cont_range.
  set (c := ((b1 - 224) * 4096 + (b2 - 128) * 64 + (b3 - 128))%N).
  assert (Hq1 : (c / 4096 = b1 - 224)%N).
  { symmetry. apply (N.div_unique c 4096 (b1 - 224) ((b2 - 128) * 64 + (b3 - 128))); subst c; lia. }
  assert (Hq2 : (c / 64 = (b1 - 224) * 64 + (b2 - 128))%N).
  { symmetry. apply (N.div_unique c 64 _ (b3 - 128)); subst c; lia. }
  assert (Hr2 : (((b1 - 224) * 64 + (b2 - 128)) mod 64 = b2 - 128)%N).
  { symmetry. apply (N.mod_unique _ 64 (b1 - 224) (b2 - 128)); lia. }
  assert (Hr : (c mod 64 = b3 - 128)%N).
  { symmetry. apply (N.mod_unique c 64 ((b1 - 224) * 64 + (b2 - 128)) (b3 - 128)); subst c; lia. }
  destruct (N.ltb_spec c 128); [subst c; lia|].
  destruct (N.ltb_spec c 2048); [subst c; lia|].
  destruct (N.ltb_spec c 65536); [|subst c; lia].
  rewrite Hq1, Hq2, Hr2, Hr. repeat (f_equal; try lia).
Qed.

Lemma encode_cp4 b1 b2 b3 b4 :
  (240 <= b1 < 245)%N -> Utf8.second_ok b1 b2 = true -> Utf8.cont b3 = true ->
  Utf8.cont b4 = true ->
  Utf8.encode_cp (Utf8.cp4 b1 b2 b3 b4) = [b1; b2; b3; b4].
Proof.
  unfold Utf8.cp4, Utf8.encode_cp.
  intros Hb1 Hb2%second_ok_range Hb3%cont_range Hb4%cont_range.
  set (c := ((b1 - 240) * 262144 + (b2 - 128) * 4096 + (b3 - 128) * 64 + (b4 - 128))%N).
  assert (Hq1 : (c / 262144 = b1 - 240)%N).
  { symmetry. apply (N.div_unique c 262144 (b1 - 240)
                       ((b2 - 128) * 4096 + (b3 - 128) * 64 + (b4 - 128))); subst c; lia. }
  assert (Hq2 : (c / 4096 = (b1 - 240) * 64 + (b2 - 128))%N).
  { symmetry. apply (N.div_unique c 4096 _ ((b3 - 128) * 64 + (b4 - 128))); subst c; lia. }
  assert (Hq3 : (c / 64 = (b1 - 240) * 4096 + (b2 - 128) * 64 + (b3 - 128))%N).
  { symmetry. apply (N.div_unique c 64 _ (b4 - 128)); subst c; lia. }
  assert (Hr2 : (((b1 - 240) * 64 + (b2 - 128)) mod 64 = b2 - 128)%N).
  { symmetry. apply (N.mod_unique _ 64 (b1 - 240) (b2 - 128)); lia. }
  assert (Hr3 : (((b1 - 240) * 4096 + (b2 - 128) * 64 + (b3 - 128)) mod 64 = b3 - 128)%N).
  { symmetry. apply (N.mod_unique _ 64 ((b1 - 240) * 64 + (b2 - 128)) (b3 - 128)); lia. }
  assert (Hr : (c mod 64 = b4 - 128)%N).
  { symmetry. apply (N.mod_unique c 64 ((b1 - 240) * 4096 + (b2 - 128) * 64 + (b3 - 128))
                       (b4 - 128)); subst c; lia. }
  destruct (N.ltb_spec c 128); [subst c; lia|].
  destruct (N.ltb_spec c 2048); [subst c; lia|].
  destruct (N.ltb_spec c 65536); [subst c; lia|].
  rewrite Hq1, Hq2, Hq3, Hr2, Hr3, Hr. repeat (f_equal; try lia).
Qed.

Lemma decode_from_encode (n : nat) :
  forall bs s, length bs <= n -> Utf8.decode_from false bs = Some s ->
    flat_map Utf8.encode_cp s = bs.
Proof.
  induction n as [|n IH]; intros bs s Hlen H.
  { destruct bs; [injection H as <-; reflexivity | simpl in Hlen; lia]. }
  destruct bs as [|b1 r1]; [injection H as <-; reflexivity|].
  cbn [Utf8.decode_from] in H. simpl in Hlen.
  destruct (N.ltb_spec b1 128) as [H1|H1].
  { destruct (Utf8.decode_from false r1) as [s1|] eqn:Hr; [|discriminate].
    injection H as <-. cbn [flat_map]. rewrite (IH r1 s1) by (lia || done).
    unfold Utf8.encode_cp. destruct (N.ltb_spec b1 128); [reflexivity | lia]. }
  destruct (N.ltb_spec b1 194) as [H2|H2]; [discriminate|].
  destruct (N.leb_spec 245 b1) as [H3|H3]; [discriminate|].
  cbn [orb] in H. destruct r1 as [|b2 r2]; [discriminate|].
  destruct (Utf8.second_ok b1 b2) eqn:Hs; cbn [negb] in H; [|discriminate].
  simpl in Hlen.
  destruct (N.ltb_spec b1 224) as [H4|H4].
  { destruct (Utf8.decode_from false r2) as [s2|] eqn:Hr; [|discriminate].
    injection H as <-. cbn [flat_map]. rewrite (IH r2 s2) by (lia || done).
    rewrite encode_cp2; [reflexivity | lia |].
    unfold Utf8.second_ok in Hs. by rewrite !andb_true_iff in Hs; destruct Hs as [[[[? ?] ?] ?] ?]. }
  destruct r2 as [|b3 r3]; [discriminate|].
  destruct (Utf8.cont b3) eqn:Hc3; cbn [negb] in H; [|discriminate].
  simpl in Hlen.
  destruct (N.ltb_spec b1 240) as [H5|H5].
  { destruct (Utf8.decode_from false r3) as [s3|] eqn:Hr; [|discriminate].
    injection H as <-. cbn [flat_map]. rewrite (IH r3 s3) by (lia || done).
    rewrite encode_cp3; [reflexivity | lia | done | done]. }
  destruct r3 as [|b4 r4]; [discriminate|].
  destruct (Utf8.cont b4) eqn:Hc4; cbn [negb] in H; [|discriminate].
  simpl in Hlen.
  destruct (Utf8.decode_from false r4) as [s4|] eqn:Hr; [|discriminate].
  injection H as <-. cbn [flat_map]. rewrite (IH r4 s4) by (lia || done).
  rewrite encode_cp4; [reflexivity | lia | done | done | done].
Qed.

Lemma byte_of_to_N (b : Byte.byte) : Utf8.byte_of (Byte.to_N b) = b.
Proof. unfold Utf8.byte_of. by rewrite Byte.of_to_N. Qed.

Lemma decode_encode (b : bytes) (s : str) : Utf8.decode b = Some s -> Utf8.encode s = b.
Proof.
  unfold Utf8.decode, Utf8.encode. intros H.
  rewrite (decode_from_encode _ _ _ (le_n _) H).
  rewrite map_map. rewrite <- (map_id b) at 2. apply map_ext. apply byte_of_to_N.
Qed.

(** A substitution that finds no match returns the text. *)
Lemma sub_from_no_match (r : list Re.atom) (repl s : str) :
  (forall t, t `suffix_of` s -> Re.exec r [] None t = None) ->
  Re.sub_from r repl 0 s = s.
Proof.
  induction s as [|x s IH]; intros Hno; cbn [Re.sub_from]; [reflexivity|].
  rewrite (Hno (x :: s)) by done. f_equal. apply IH.
  intros t Ht. apply Hno. by apply suffix_cons_r.
Qed.

(** ** Fixed-layout page repair *)

Lemma css_dimensions_undecodable (css : bytes) :
  Utf8.decode css = None -> css_dimensions rt (Some css) = (None, None).
Proof.
  intros H. unfold css_dimensions. destruct css; [reflexivity|]. by rewrite H.
Qed.

(** C9.  The repair returns the page bytes unchanged when the page is
    not valid UTF-8, and when the stylesheet gives no pixel width or no
    pixel height for [body]; a stylesheet that is not valid UTF-8 gives
    neither. *)
Theorem fix_fixed_layout_page_fail_soft (html_content : bytes)
    (css_content : option bytes) :
  Utf8.decode html_content = None
  \/ (css_dimensions rt css_content).1 = None
  \/ (css_dimensions rt css_content).2 = None
  \/ (exists css, css_content = Some css /\ Utf8.decode css = None) ->
  _fix_fixed_layout_page rt html_content css_content = html_content.
Proof.
  intros H. unfold _fix_fixed_layout_page.
  destruct (Utf8.decode html_content) as [html_str|] eqn:Hhtml; [|reflexivity].
  destruct H as [H | H]; [discriminate|].
  assert (Hdim : (css_dimensions rt css_content).1 = None
                 \/ (css_dimensions rt css_content).2 = None).
  { destruct H as [H | [H | (css & -> & Hcss)]]; auto.
    left. by rewrite css_dimensions_undecodable. }
  destruct (css_dimensions rt css_content) as [width height]; simpl in Hdim.
  destruct Hdim as [-> | ->]; simpl; [reflexivity|].
  by rewrite orb_true_r.
Qed.

(** *** The group of a dimension pattern is never empty *)

Lemma greedy_inv {A : Type} (p : N -> bool) (k : str -> option A) (s : str) (m : A) :
  Re.greedy p k s = Some m -> exists t, length t <= length s /\ k t = Some m.
Proof.
  induction s as [|x s IH]; simpl; intros H.
  - exists []. auto.
  - destruct (p x).
    + destruct (Re.greedy p k s) as [m'|] eqn:Hg.
      * destruct (IH H) as (t & Hlen & Hk). exists t. split; [lia|congruence].
      * exists (x :: s). auto.
    + exists (x :: s). auto.
Qed.

(** An atom that is not a parenthesis hands the same group state to the
    rest of the pattern. *)
Lemma exec_skip (a : Re.atom) (r : list Re.atom) (gs : str) (g : option str)
    (s : str) (m : option str * str) :
  match a with Re.Open | Re.Close => False | _ => True end ->
  Re.exec (a :: r) gs g s = Some m ->
  exists s', Re.exec r gs g s' = Some m.
Proof.
  intros Ha H. destruct a as [l|c|c|c| |]; try contradiction; cbn [Re.exec] in H.
  - destruct (Str.startswith s l); [eauto | discriminate].
  - apply greedy_inv in H as (t & _ & Ht). eauto.
  - destruct s as [|x s']; [discriminate|].
    destruct (c x); [|discriminate].
    apply greedy_inv in H as (t & _ & Ht). eauto.
  - destruct s as [|x s']; [eauto|].
    destruct (c x); [|eauto].
    destruct (Re.exec r gs g s') eqn:Hs'; [|eauto].
    exists s'. congruence.
Qed.

Lemma exec_group_plus (c : N -> bool) (l gs : str) (g : option str) (s : str)
    (m : option str * str) :
  Re.exec [Re.Open; Re.Plus c; Re.Close; Re.Lit l] gs g s = Some m ->
  exists x, m.1 = Some x /\ x <> [].
Proof.
  cbn [Re.exec]. destruct s as [|x s']; [discriminate|].
  destruct (c x); [|discriminate].
  intros (t & Hlen & Ht)%greedy_inv.
  destruct (Str.startswith t l); [|discriminate].
  injection Ht as <-. cbn [fst length].
  replace (S (length s') - length t) with (S (length s' - length t)) by lia.
  eexists. split; [reflexivity | discriminate].
Qed.

Lemma body_dimension_group_nonempty (name s g : str) :
  Re.search_group (body_dimension_re rt name) s = Some g -> g <> [].
Proof.
  unfold Re.search_group.
  destruct (Re.search (body_dimension_re rt name) s) as [[[g'|] rest]|] eqn:Hs;
    try discriminate.
  intros [= ->]. revert Hs. induction s as [|x s IH]; cbn [Re.search].
  all: destruct (Re.exec (body_dimension_re rt name) [] None _) as [m|] eqn:He;
    [intros [= ->] | try discriminate; try exact IH].
  all: unfold body_dimension_re in He.
  all: do 6 (apply exec_skip in He as (? & He); [|exact I]).
  all: apply exec_group_plus in He as (y & Hy & Hne); simpl in Hy; congruence.
Qed.

Lemma css_dimensions_nonempty (css_content : option bytes) (width height : str) :
  css_dimensions rt css_content = (Some width, Some height) ->
  Str.truthy (Some width) = true /\ Str.truthy (Some height) = true.
Proof.
  unfold css_dimensions. destruct css_content as [[|b css]|]; try discriminate.
  destruct (Utf8.decode (b :: css)) as [css_str|]; [|discriminate].
  intros [= Hw Hh].
  apply body_dimension_group_nonempty in Hw, Hh.
  destruct width, height; done.
Qed.

(** C10.  With both dimensions recovered, the viewport tag is inserted
    only into a page whose text contains [<head>] and does not contain
    [name="viewport"]; any other page comes back as its own text with
    the broken inline styles replaced and nothing else changed, hence
    byte for byte when it has no broken inline style. *)
Theorem viewport_needs_plain_head (html_content : bytes) (css_content : option bytes)
    (html_str width height : str) :
  Utf8.decode html_content = Some html_str ->
  css_dimensions rt css_content = (Some width, Some height) ->
  Utf8.encode html_str = html_content
  /\ (Str.contains (pystr "<head>") html_str = false
      \/ Str.contains (pystr "name=" ++ dq ++ pystr "viewport" ++ dq) html_str = true ->
      _fix_fixed_layout_page rt html_content css_content
      = Utf8.encode (fix_styles width height html_str)
      /\ ((forall t, t `suffix_of` html_str -> Re.exec broken_style_re [] None t = None) ->
          _fix_fixed_layout_page rt html_content css_content = html_content))
  /\ (Str.contains (pystr "<head>") html_str = true ->
      Str.contains (pystr "name=" ++ dq ++ pystr "viewport" ++ dq) html_str = false ->
      _fix_fixed_layout_page rt html_content css_content
      = Utf8.encode
          (fix_styles width height
             (Str.replace_count (pystr "<head>")
                (pystr "<head>" ++ nl ++ pystr "    " ++ viewport_tag width height)
                1 html_str))).
Proof.
  intros Hhtml Hdim. destruct (css_dimensions_nonempty _ _ _ Hdim) as [Hw Hh].
  pose proof (decode_encode _ _ Hhtml) as Hround.
  unfold _fix_fixed_layout_page.
  rewrite Hhtml, Hdim, Hw, Hh. cbn [negb orb default from_option].
  unfold add_viewport. split; [exact Hround|]. split.
  - intros Hcase.
    assert (Hresult : forall text, text = html_str ->
               Utf8.encode (fix_styles width height text)
               = Utf8.encode (fix_styles width height html_str)
               /\ ((forall t, t `suffix_of` html_str ->
                        Re.exec broken_style_re [] None t = None) ->
                   Utf8.encode (fix_styles width height text) = html_content)).
    { intros text ->. split; [reflexivity|].
      intros Hno. unfold fix_styles, Re.sub. by rewrite sub_from_no_match. }
    apply Hresult. destruct Hcase as [-> | ->]; [by rewrite andb_false_r | reflexivity].
  - by intros -> ->.
Qed.

(** ** Package metadata *)


(** ** The merge of the parts *)

(** C1.  With no part at all, computing the progress of one part
    divides by zero: the method raises before any book exists. *)
Theorem download_no_parts_raises (files_in_toc : list (str * str)) (md : Metadata)
    (update : bool) :
  _download_epub_in_parts rt [] files_in_toc md update = Raise ZeroDivisionError.
Proof. reflexivity. Qed.


(** ** The cover reference *)

Lemma scan_meta_cover_href (r : OpfMetadata) (meta : ET.Element) :
  opf_cover_href (scan_meta r meta) = opf_cover_href r.
Proof.
  unfold scan_meta, set_rendition.
  repeat (case_match; simpl; try reflexivity).
Qed.

Lemma scan_metas_cover_href (l : list ET.Element) (r : OpfMetadata) :
  opf_cover_href (fold_left scan_meta l r) = opf_cover_href r.
Proof.
  revert r. induction l as [|meta l IH]; intros r; simpl; [reflexivity|].
  by rewrite IH, scan_meta_cover_href.
Qed.

Lemma scan_itemrefs_cover_href (idh : list (str * str)) (l : list ET.Element)
    (r : OpfMetadata) :
  opf_cover_href (fold_left (scan_itemref idh) l r) = opf_cover_href r.
Proof.
  revert r. induction l as [|e l IH]; intros r; simpl; [reflexivity|].
  rewrite IH. unfold scan_itemref.
  repeat (case_match; simpl; try reflexivity).
Qed.

(** An element that is no candidate leaves the result as it is. *)
Lemma scan_item_no_match (r : OpfMetadata) (idh : list (str * str))
    (item : ET.Element) :
  matches_cover (opf_cover_id r) item = false ->
  (scan_item (r, idh) item).1 = r.
Proof.
  unfold matches_cover. intros [Hid Hprop]%orb_false_elim.
  unfold scan_item. cbv zeta. rewrite Hid, Hprop. reflexivity.
Qed.

(** Once the cover href is set, no element changes the result. *)
Lemma scan_item_href_set (r : OpfMetadata) (idh : list (str * str))
    (item : ET.Element) :
  Str.truthy (opf_cover_href r) = true ->
  (scan_item (r, idh) item).1 = r.
Proof.
  intros Hset. unfold scan_item. cbv zeta.
  rewrite Hset. cbn [negb]. rewrite !andb_false_r.
  rewrite Hset. cbn [negb]. by rewrite andb_false_r.
Qed.

(** The first candidate gives its href. *)
Lemma scan_item_match (r : OpfMetadata) (idh : list (str * str))
    (item : ET.Element) :
  Str.truthy (opf_cover_href r) = false ->
  matches_cover (opf_cover_id r) item = true ->
  opf_cover_href (scan_item (r, idh) item).1 = ET.get item (pystr "href").
Proof.
  unfold matches_cover. intros Hunset Hmatch. unfold scan_item. cbv zeta.
  rewrite Hunset. cbn [negb]. rewrite !andb_true_r.
  destruct (Str.truthy (opf_cover_id r)
            && bool_decide (ET.get item (pystr "id") = opf_cover_id r)) eqn:Hid;
    simpl in *.
  - destruct (Str.contains _ _ && _); reflexivity.
  - rewrite Hmatch, Hunset. reflexivity.
Qed.

Lemma scan_items_no_match (l : list ET.Element) (r : OpfMetadata)
    (idh : list (str * str)) :
  (forall i, i ∈ l -> matches_cover (opf_cover_id r) i = false) ->
  (fold_left scan_item l (r, idh)).1 = r.
Proof.
  revert idh. induction l as [|item l IH]; intros idh Hl; cbn [fold_left];
    [reflexivity|].
  pose proof (scan_item_no_match r idh item (Hl item ltac:(left))) as Hstep.
  destruct (scan_item (r, idh) item) as [r' idh'] eqn:Hscan. simpl in Hstep. subst r'.
  apply IH. intros i Hi. apply Hl. by right.
Qed.

Lemma scan_items_href_set (l : list ET.Element) (r : OpfMetadata)
    (idh : list (str * str)) :
  Str.truthy (opf_cover_href r) = true ->
  (fold_left scan_item l (r, idh)).1 = r.
Proof.
  intros Hset. revert idh.
  induction l as [|item l IH]; intros idh; cbn [fold_left]; [reflexivity|].
  pose proof (scan_item_href_set r idh item Hset) as Hstep.
  destruct (scan_item (r, idh) item) as [r' idh'] eqn:Hscan. simpl in Hstep. subst r'.
  apply IH.
Qed.

(** C4, amended.  The cover href is that of the first element of the
    manifest, in document order, that has the declared cover id or
    whose properties contain [cover-image], whichever comes first; once
    set to a non-empty href it is not overwritten. *)
Theorem cover_href_first_candidate (root metadata manifest item : ET.Element)
    (before after : list ET.Element) :
  find_opf root "metadata" = Some metadata ->
  find_opf root "manifest" = Some manifest ->
  ET.iter manifest = before ++ item :: after ->
  (forall i, i ∈ before -> matches_cover (declared_cover_id metadata) i = false) ->
  matches_cover (declared_cover_id metadata) item = true ->
  Str.truthy (ET.get item (pystr "href")) = true ->
  opf_cover_href (opf_metadata_of_root root) = ET.get item (pystr "href").
Proof.
  intros Hmeta Hmanifest Hiter Hbefore Hitem Hhref.
  unfold opf_metadata_of_root. rewrite Hmeta, Hmanifest, Hiter.
  set (r0 := fold_left scan_meta (ET.iter metadata) unset_result) in *.
  assert (Hr0 : opf_cover_href r0 = None) by apply scan_metas_cover_href.
  rewrite fold_left_app. cbn [fold_left].
  destruct (fold_left scan_item before (r0, [])) as [r1 idh1] eqn:Hfold1.
  assert (r1 = r0) as ->.
  { change r1 with (r1, idh1).1. rewrite <- Hfold1. by apply scan_items_no_match. }
  destruct (scan_item (r0, idh1) item) as [r2 idh2] eqn:Hscan.
  assert (Hr2 : opf_cover_href r2 = ET.get item (pystr "href")).
  { change r2 with (r2, idh2).1. rewrite <- Hscan. apply scan_item_match; [|done].
    by rewrite Hr0. }
  destruct (fold_left scan_item after (r2, idh2)) as [r3 idh3] eqn:Hfold3.
  assert (r3 = r2) as ->.
  { change r3 with (r3, idh3).1. rewrite <- Hfold3. apply scan_items_href_set.
    by rewrite Hr2. }
  destruct (find_opf root "spine"); [|done].
  by rewrite scan_itemrefs_cover_href.
Qed.


(** ** Strings and dictionaries *)

Lemma eqb_refl (s : str) : Str.eqb s s = true.
Proof. unfold Str.eqb. by rewrite bool_decide_eq_true. Qed.

Lemma eqb_neq (s t : str) : s <> t -> Str.eqb s t = false.
Proof. intros H. unfold Str.eqb. by rewrite bool_decide_eq_false. Qed.

Lemma split_app_sep (c : N) (s t : str) :
  Str.contains [c] s = false ->
  Str.split c (s ++ c :: t) = s :: Str.split c t.
Proof.
  induction s as [|x s IH]; cbn [Str.contains Str.startswith app Str.split].
  - intros _. by rewrite N.eqb_refl.
  - assert (Hnil : Str.startswith s [] = true) by (by destruct s).
    rewrite Hnil, andb_true_r. intros [Hx Hs]%orb_false_elim.
    rewrite N.eqb_sym, Hx. by rewrite IH.
Qed.

Lemma split_one_rule (rule : str) :
  Str.contains (pystr "}") rule = false ->
  Str.split 125%N (rule ++ pystr "}") = [rule; []].
Proof. intros H. exact (split_app_sep 125%N rule [] H). Qed.

Lemma dict_get_set {V : Type} (k k' : str) (v : V) (d : list (str * V)) :
  Dict.get k' (Dict.set k v d) = if decide (k = k') then Some v else Dict.get k' d.
Proof.
  induction d as [|[k0 v0] d IH]; cbn [Dict.set Dict.get].
  - destruct (decide (k = k')) as [->|Hne]; [by rewrite eqb_refl|].
    rewrite eqb_neq; [reflexivity | congruence].
  - destruct (decide (k = k0)) as [->|Hk0].
    + rewrite eqb_refl. cbn [Dict.get].
      destruct (decide (k0 = k')) as [->|Hne]; [by rewrite eqb_refl|].
      rewrite eqb_neq; [reflexivity | congruence].
    + rewrite (eqb_neq k k0 Hk0). cbn [Dict.get]. rewrite IH.
      destruct (decide (k = k')) as [->|Hne]; [|reflexivity].
      rewrite eqb_neq; [reflexivity | congruence].
Qed.

(** ** Stylesheet rules *)

Lemma add_existing_rule_entry (d : list (str * str)) (rule : str) :
  add_existing_rule d rule
  = match rule_entry rule with
    | Some (k, t) => Dict.set k t d
    | None => d
    end.
Proof.
  unfold add_existing_rule, rule_entry.
  destruct (Str.contains _ rule); [|reflexivity].
  destruct (_get_css_rule_key rule) as [[|c k]|]; reflexivity.
Qed.

Lemma add_new_rule_entry (d : list (str * str)) (rule : str) :
  add_new_rule d rule
  = match rule_entry rule with
    | Some (k, t) =>
        match Dict.get k d with
        | None => Dict.set k t d
        | Some old => if length old <? length t then Dict.set k t d else d
        end
    | None => d
    end.
Proof.
  unfold add_new_rule, rule_entry.
  destruct (Str.contains _ rule); [|reflexivity].
  destruct (_get_css_rule_key rule) as [[|c k]|]; reflexivity.
Qed.

Lemma key_font_face (rule family : str) :
  selector_of rule = pystr "@font-face" ->
  font_family_of rule = Some family ->
  _get_css_rule_key rule = Some (pystr "@font-face:" ++ family).
Proof.
  unfold _get_css_rule_key, font_family_of. intros -> Hf.
  rewrite eqb_refl.
  destruct (Re.search_group font_family_re rule); [|discriminate].
  by injection Hf as <-.
Qed.

Lemma key_font_face_none (rule : str) :
  selector_of rule = pystr "@font-face" ->
  font_family_of rule = None ->
  _get_css_rule_key rule = None.
Proof.
  unfold _get_css_rule_key, font_family_of. intros -> Hf.
  rewrite eqb_refl.
  destruct (Re.search_group font_family_re rule); [discriminate | reflexivity].
Qed.

(** What a loop over rules leaves in the dictionary, for either loop. *)
Section RuleLoop.
Context (f : list (str * str) -> str -> list (str * str)).
Hypothesis f_keeps : forall d rule k,
  is_Some (Dict.get k d) -> is_Some (Dict.get k (f d rule)).
Hypothesis f_adds : forall d rule k t,
  rule_entry rule = Some (k, t) -> is_Some (Dict.get k (f d rule)).
Hypothesis f_source : forall d rule k t,
  Dict.get k (f d rule) = Some t ->
  Dict.get k d = Some t \/ rule_entry rule = Some (k, t).

Lemma loop_keeps (l : list str) (d : list (str * str)) (k : str) :
  is_Some (Dict.get k d) -> is_Some (Dict.get k (fold_left f l d)).
Proof. revert d. induction l as [|rule l IH]; intros d H; cbn [fold_left]; auto. Qed.

Lemma loop_adds (l : list str) (d : list (str * str)) (rule k t : str) :
  rule ∈ l -> rule_entry rule = Some (k, t) ->
  is_Some (Dict.get k (fold_left f l d)).
Proof.
  revert d. induction l as [|rule' l IH]; intros d Hin He; cbn [fold_left].
  - by apply elem_of_nil in Hin.
  - apply elem_of_cons in Hin as [<- | Hin]; [|by apply IH].
    apply loop_keeps. by eapply f_adds.
Qed.

Lemma loop_source (l : list str) (d : list (str * str)) (k t : str) :
  Dict.get k (fold_left f l d) = Some t ->
  Dict.get k d = Some t \/ exists rule, rule ∈ l /\ rule_entry rule = Some (k, t).
Proof.
  revert d. induction l as [|rule l IH]; intros d H; cbn [fold_left] in H; [by left|].
  apply IH in H as [H | (rule' & Hin & He)].
  - apply f_source in H as [H | H]; [by left|].
    right. exists rule. split; [by left | done].
  - right. exists rule'. split; [by right | done].
Qed.
End RuleLoop.

Lemma existing_keeps d rule k :
  is_Some (Dict.get k d) -> is_Some (Dict.get k (add_existing_rule d rule)).
Proof.
  rewrite add_existing_rule_entry. destruct (rule_entry rule) as [[k' t']|]; [|done].
  rewrite dict_get_set. by case_decide.
Qed.

Lemma existing_adds d rule k t :
  rule_entry rule = Some (k, t) -> is_Some (Dict.get k (add_existing_rule d rule)).
Proof.
  intros He. rewrite add_existing_rule_entry, He, dict_get_set.
  by rewrite decide_True.
Qed.

Lemma existing_source d rule k t :
  Dict.get k (add_existing_rule d rule) = Some t ->
  Dict.get k d = Some t \/ rule_entry rule = Some (k, t).
Proof.
  rewrite add_existing_rule_entry. destruct (rule_entry rule) as [[k' t']|]; [|by left].
  rewrite dict_get_set. case_decide; [|by left]. intros [= <-]. subst. by right.
Qed.

Lemma new_keeps d rule k :
  is_Some (Dict.get k d) -> is_Some (Dict.get k (add_new_rule d rule)).
Proof.
  rewrite add_new_rule_entry. destruct (rule_entry rule) as [[k' t']|]; [|done].
  intros H. destruct (Dict.get k' d) as [old|].
  - destruct (length old <? length t'); [|done].
    rewrite dict_get_set. by case_decide.
  - rewrite dict_get_set. by case_decide.
Qed.

Lemma new_adds d rule k t :
  rule_entry rule = Some (k, t) -> is_Some (Dict.get k (add_new_rule d rule)).
Proof.
  intros He. rewrite add_new_rule_entry, He.
  destruct (Dict.get k d) as [old|] eqn:Hold.
  - destruct (length old <? length t).
    + rewrite dict_get_set. by rewrite decide_True.
    + by rewrite Hold.
  - rewrite dict_get_set. by rewrite decide_True.
Qed.

Lemma new_source d rule k t :
  Dict.get k (add_new_rule d rule) = Some t ->
  Dict.get k d = Some t \/ rule_entry rule = Some (k, t).
Proof.
  rewrite add_new_rule_entry. destruct (rule_entry rule) as [[k' t']|]; [|by left].
  assert (Hset : Dict.get k (Dict.set k' t' d) = Some t ->
                 Dict.get k d = Some t \/ Some (k', t') = Some (k, t)).
  { rewrite dict_get_set. case_decide; [|by left]. intros [= <-]. subst. by right. }
  destruct (Dict.get k' d) as [old|]; [|done].
  destruct (length old <? length t'); [done | by left].
Qed.

Lemma rules_of_split (css rule : str) :
  rule ∈ rules_of css -> rule ∈ Str.split 125%N css.
Proof. unfold rules_of. by intros [_ H]%list_elem_of_filter. Qed.

(** Every keyed rule of either stylesheet has an entry under its key in
    the merged rules. *)
Lemma merged_rules_has_key (existing_str new_str rule k t : str) :
  rule ∈ rules_of existing_str ++ rules_of new_str ->
  rule_entry rule = Some (k, t) ->
  is_Some (Dict.get k (merged_rules existing_str new_str)).
Proof.
  intros Hin He. unfold merged_rules.
  apply elem_of_app in Hin as [Hin | Hin]; apply rules_of_split in Hin.
  - apply (loop_keeps _ new_keeps).
    by apply (loop_adds _ existing_keeps existing_adds _ _ rule k t).
  - by apply (loop_adds _ new_keeps new_adds _ _ rule k t).
Qed.

(** Every entry of the merged rules is the stripped text of a rule of
    one of the stylesheets that has the key of the entry. *)
Lemma merged_rules_source (existing_str new_str k t : str) :
  Dict.get k (merged_rules existing_str new_str) = Some t ->
  exists rule,
    rule ∈ Str.split 125%N existing_str ++ Str.split 125%N new_str
    /\ rule_entry rule = Some (k, t).
Proof.
  unfold merged_rules. intros H.
  apply (loop_source _ new_source) in H as [H | (rule & Hin & He)].
  - apply (loop_source _ existing_source) in H as [H | (rule & Hin & He)];
      [discriminate|].
    exists rule. split; [apply elem_of_app; by left | done].
  - exists rule. split; [apply elem_of_app; by right | done].
Qed.


Lemma key_nonempty (rule k : str) : _get_css_rule_key rule = Some k -> k <> [].
Proof.
  unfold _get_css_rule_key.
  destruct (Str.eqb (selector_of rule) (pystr "@font-face")).
  - destruct (Re.search_group font_family_re rule); [|discriminate].
    intros [= <-]. discriminate.
  - destruct (selector_of rule); [discriminate|]. intros [= <-]. discriminate.
Qed.

Lemma rule_entry_keyed (rule k : str) :
  Str.contains (pystr "{") rule = true ->
  _get_css_rule_key rule = Some k ->
  rule_entry rule = Some (k, Str.strip rule ++ pystr "}").
Proof.
  intros Hbrace Hkey. unfold rule_entry. rewrite Hbrace, Hkey.
  apply key_nonempty in Hkey. by destruct k.
Qed.

Lemma rule_entry_inv (rule k t : str) :
  rule_entry rule = Some (k, t) ->
  _get_css_rule_key rule = Some k /\ t = Str.strip rule ++ pystr "}".
Proof.
  unfold rule_entry. destruct (Str.contains _ rule); [|discriminate].
  destruct (_get_css_rule_key rule) as [[|c k']|]; try discriminate.
  by intros [= <- <-].
Qed.

(** ** Font faces *)

Lemma dict_get_lookup {V : Type} (k : str) (v : V) (d : list (str * V)) :
  Dict.get k d = Some v -> exists i, d !! i = Some (k, v).
Proof.
  induction d as [|[k' v'] d IH]; cbn [Dict.get]; [discriminate|].
  destruct (decide (k = k')) as [->|Hne].
  - rewrite eqb_refl. intros [= ->]. by exists 0.
  - rewrite eqb_neq by done. intros (i & Hi)%IH. by exists (S i).
Qed.

Lemma split_nonempty (c : N) (s : str) : Str.split c s <> [].
Proof.
  destruct s as [|x s]; cbn [Str.split]; [done|].
  destruct (x =? c)%N; [done|]. by destruct (Str.split c s).
Qed.

Lemma split_app (c : N) (s t : str) :
  Str.split c (s ++ c :: t) = Str.split c s ++ Str.split c t.
Proof.
  induction s as [|x s IH]; cbn [app Str.split].
  - by rewrite N.eqb_refl.
  - destruct (x =? c)%N; [by rewrite IH|]. rewrite IH.
    pose proof (split_nonempty c s). by destruct (Str.split c s).
Qed.

(** A rule without a key leaves no trace in either loop. *)
Lemma loop_skips (step : list (str * str) -> str -> list (str * str))
    (rule : str) (l1 l2 : list str) (d : list (str * str)) :
  (forall d, step d rule = d) ->
  fold_left step (l1 ++ rule :: l2) d = fold_left step (l1 ++ l2) d.
Proof. intros Hskip. by rewrite !fold_left_app; cbn [fold_left]; rewrite Hskip. Qed.

Lemma keyless_rule_skipped (rule : str) :
  _get_css_rule_key rule = None ->
  (forall d, add_existing_rule d rule = d) /\ (forall d, add_new_rule d rule = d).
Proof.
  intros Hkey. split; intros d.
  - rewrite add_existing_rule_entry. unfold rule_entry. rewrite Hkey.
    by destruct (Str.contains _ rule).
  - rewrite add_new_rule_entry. unfold rule_entry. rewrite Hkey.
    by destruct (Str.contains _ rule).
Qed.

(** The chunks of a stylesheet text with and without one of its rules. *)
Lemma split_without_rule (before rule after : str) :
  Str.contains (pystr "}") rule = false ->
  before = [] \/ (exists b, before = b ++ pystr "}") ->
  exists l1,
    Str.split 125%N (before ++ rule ++ pystr "}" ++ after)
    = l1 ++ rule :: Str.split 125%N after
    /\ Str.split 125%N (before ++ after) = l1 ++ Str.split 125%N after.
Proof.
  intros Hrule [-> | [b ->]].
  - exists []. cbn [app]. split; [|reflexivity].
    exact (split_app_sep 125%N rule after Hrule).
  - exists (Str.split 125%N b). rewrite <- !app_assoc.
    change (pystr "}" ++ ?x) with (125%N :: x). rewrite !split_app.
    split; [|reflexivity]. f_equal. exact (split_app_sep 125%N rule after Hrule).
Qed.

Lemma merged_rules_without_rule (css css' other rule : str) (l1 l2 : list str) :
  _get_css_rule_key rule = None ->
  Str.split 125%N css = l1 ++ rule :: l2 ->
  Str.split 125%N css' = l1 ++ l2 ->
  merged_rules css other = merged_rules css' other
  /\ merged_rules other css = merged_rules other css'.
Proof.
  intros [Hex Hnew]%keyless_rule_skipped Hcss Hcss'. unfold merged_rules.
  rewrite Hcss, Hcss'. split.
  - by rewrite (loop_skips add_existing_rule rule l1 l2 [] Hex).
  - by rewrite (loop_skips add_new_rule rule l1 l2 _ Hnew).
Qed.

(** Two stylesheets of one rule each, the rules under different keys. *)
Lemma two_rules_two_keys (rule1 rule2 key1 key2 : str) :
  Str.contains (pystr "}") rule1 = false ->
  Str.contains (pystr "}") rule2 = false ->
  Str.contains (pystr "{") rule1 = true ->
  Str.contains (pystr "{") rule2 = true ->
  _get_css_rule_key rule1 = Some key1 ->
  _get_css_rule_key rule2 = Some key2 ->
  key1 <> key2 ->
  merge_css_text (rule1 ++ pystr "}") (rule2 ++ pystr "}")
  = (Str.strip rule1 ++ pystr "}") ++ nl ++ (Str.strip rule2 ++ pystr "}").
Proof.
  intros Hc1 Hc2 Ho1 Ho2 Hk1 Hk2 Hne.
  pose proof (rule_entry_keyed _ _ Ho1 Hk1) as He1.
  pose proof (rule_entry_keyed _ _ Ho2 Hk2) as He2.
  unfold merge_css_text, merged_rules.
  rewrite (split_one_rule rule1 Hc1), (split_one_rule rule2 Hc2). cbn [fold_left].
  rewrite !add_existing_rule_entry, !add_new_rule_entry, He1, He2.
  change (rule_entry []) with (@None (str * str)).
  cbn [Dict.set Dict.get]. rewrite (eqb_neq key2 key1) by congruence.
  cbn [Dict.set]. rewrite ?(eqb_neq key2 key1) by congruence.
  reflexivity.
Qed.

(** C7.  Two [@font-face] rules that declare different font families
    have different keys, made of the selector and the family, and both
    survive the merge as two entries: a stylesheet that holds the one,
    merged with a stylesheet that holds the other, gives the two rule
    texts, one after the other; and in any two stylesheets, as long as
    no other rule competes for these keys with another text, the
    merged stylesheet holds both rules at two places.  A [@font-face]
    rule without a font family is dropped: the merge gives what it
    gives without that rule, wherever the rule stands. *)
Theorem font_faces_keyed_by_family :
  (forall (existing new : bytes) (rule1 rule2 family1 family2 : str),
      selector_of rule1 = pystr "@font-face" ->
      selector_of rule2 = pystr "@font-face" ->
      font_family_of rule1 = Some family1 ->
      font_family_of rule2 = Some family2 ->
      family1 <> family2 ->
      Str.contains (pystr "}") rule1 = false ->
      Str.contains (pystr "}") rule2 = false ->
      Str.contains (pystr "{") rule1 = true ->
      Str.contains (pystr "{") rule2 = true ->
      Utf8.decode_ignore existing = rule1 ++ pystr "}" ->
      Utf8.decode_ignore new = rule2 ++ pystr "}" ->
      _get_css_rule_key rule1 = Some (pystr "@font-face:" ++ family1)
      /\ _get_css_rule_key rule2 = Some (pystr "@font-face:" ++ family2)
      /\ _get_css_rule_key rule1 <> _get_css_rule_key rule2
      /\ merge_css existing new
         = Utf8.encode ((Str.strip rule1 ++ pystr "}") ++ nl
                        ++ (Str.strip rule2 ++ pystr "}")))
  /\ (forall (existing new : bytes) (rule1 rule2 family1 family2 : str),
      let existing_str := Utf8.decode_ignore existing in
      let new_str := Utf8.decode_ignore new in
      selector_of rule1 = pystr "@font-face" ->
      selector_of rule2 = pystr "@font-face" ->
      font_family_of rule1 = Some family1 ->
      font_family_of rule2 = Some family2 ->
      family1 <> family2 ->
      rule1 ∈ rules_of existing_str ++ rules_of new_str ->
      rule2 ∈ rules_of existing_str ++ rules_of new_str ->
      (forall rule, rule ∈ rules_of existing_str ++ rules_of new_str ->
         _get_css_rule_key rule = _get_css_rule_key rule1 ->
         Str.strip rule = Str.strip rule1) ->
      (forall rule, rule ∈ rules_of existing_str ++ rules_of new_str ->
         _get_css_rule_key rule = _get_css_rule_key rule2 ->
         Str.strip rule = Str.strip rule2) ->
      _get_css_rule_key rule1 = Some (pystr "@font-face:" ++ family1)
      /\ _get_css_rule_key rule2 = Some (pystr "@font-face:" ++ family2)
      /\ _get_css_rule_key rule1 <> _get_css_rule_key rule2
      /\ exists texts i j,
           merge_css existing new = Utf8.encode (Str.join nl texts)
           /\ i <> j
           /\ texts !! i = Some (Str.strip rule1 ++ pystr "}")
           /\ texts !! j = Some (Str.strip rule2 ++ pystr "}"))
  /\ (forall (css css' other : bytes) (before rule after : str),
         selector_of rule = pystr "@font-face" ->
         font_family_of rule = None ->
         Str.contains (pystr "}") rule = false ->
         before = [] \/ (exists b, before = b ++ pystr "}") ->
         Utf8.decode_ignore css = before ++ rule ++ pystr "}" ++ after ->
         Utf8.decode_ignore css' = before ++ after ->
         _get_css_rule_key rule = None
         /\ merge_css css other = merge_css css' other
         /\ merge_css other css = merge_css other css').
Proof.
  split; [|split].
  - intros existing new rule1 rule2 family1 family2
      Hsel1 Hsel2 Hfam1 Hfam2 Hne Hc1 Hc2 Ho1 Ho2 Hex Hnew.
    pose proof (key_font_face _ _ Hsel1 Hfam1) as Hkey1.
    pose proof (key_font_face _ _ Hsel2 Hfam2) as Hkey2.
    assert (Hkeys : pystr "@font-face:" ++ family1 <> pystr "@font-face:" ++ family2).
    { intros [= H]. done. }
    split; [exact Hkey1|]. split; [exact Hkey2|]. split; [congruence|].
    unfold merge_css. rewrite Hex, Hnew. f_equal.
    by apply (two_rules_two_keys rule1 rule2 _ _ Hc1 Hc2 Ho1 Ho2 Hkey1 Hkey2).
  - intros existing new rule1 rule2 family1 family2 existing_str new_str
      Hsel1 Hsel2 Hfam1 Hfam2 Hne Hin1 Hin2 Honly1 Honly2.
    pose proof (key_font_face _ _ Hsel1 Hfam1) as Hkey1.
    pose proof (key_font_face _ _ Hsel2 Hfam2) as Hkey2.
    assert (Hkeys : _get_css_rule_key rule1 <> _get_css_rule_key rule2).
    { rewrite Hkey1, Hkey2. intros [= H]. done. }
    split; [exact Hkey1|]. split; [exact Hkey2|]. split; [exact Hkeys|].
    assert (Hentry : forall rule0 k,
               rule0 ∈ rules_of existing_str ++ rules_of new_str ->
               _get_css_rule_key rule0 = Some k ->
               (forall rule, rule ∈ rules_of existing_str ++ rules_of new_str ->
                  _get_css_rule_key rule = _get_css_rule_key rule0 ->
                  Str.strip rule = Str.strip rule0) ->
               Dict.get k (merged_rules existing_str new_str)
               = Some (Str.strip rule0 ++ pystr "}")).
    { intros rule0 k Hin Hkey Honly.
      assert (Hbrace : Str.contains (pystr "{") rule0 = true).
      { apply elem_of_app in Hin as [Hin | Hin];
          unfold rules_of in Hin; by apply list_elem_of_filter in Hin as [H _]. }
      destruct (merged_rules_has_key existing_str new_str rule0 k _ Hin
                  (rule_entry_keyed _ _ Hbrace Hkey)) as [t Ht].
      rewrite Ht. f_equal.
      destruct (merged_rules_source _ _ _ _ Ht) as (rule & Hrule & He).
      destruct (rule_entry_inv _ _ _ He) as [Hk ->].
      rewrite (Honly rule); [reflexivity| |congruence].
      unfold rule_entry in He.
      destruct (Str.contains (pystr "{") rule) eqn:Hb; [|discriminate].
      unfold rules_of. apply elem_of_app in Hrule as [Hrule | Hrule];
        apply elem_of_app; [left | right]; by apply list_elem_of_filter. }
    pose proof (Hentry rule1 _ Hin1 Hkey1 Honly1) as Hget1.
    pose proof (Hentry rule2 _ Hin2 Hkey2 Honly2) as Hget2.
    destruct (dict_get_lookup _ _ _ Hget1) as [i Hi].
    destruct (dict_get_lookup _ _ _ Hget2) as [j Hj].
    exists (Dict.values (merged_rules existing_str new_str)), i, j.
    split; [reflexivity|]. split.
    + intros ->. rewrite Hi in Hj. injection Hj as Hk _.
      apply Hkeys. by rewrite Hkey1, Hkey2, Hk.
    + unfold Dict.values. rewrite !list_lookup_fmap, Hi, Hj. done.
  - intros css css' other before rule after Hsel Hfam Hrule Hbefore Hcss Hcss'.
    pose proof (key_font_face_none _ Hsel Hfam) as Hkey.
    split; [exact Hkey|].
    destruct (split_without_rule before rule after Hrule Hbefore) as (l1 & Hs & Hs').
    rewrite <- Hcss in Hs. rewrite <- Hcss' in Hs'.
    destruct (merged_rules_without_rule _ _ (Utf8.decode_ignore other) _ _ _ Hkey Hs Hs')
      as [H1 H2].
    unfold merge_css, merge_css_text. by rewrite H1, H2.
Qed.

(** Two stylesheets of one rule each, the rules under the same key. *)
Lemma one_rule_each (rule1 rule2 key : str) :
  Str.contains (pystr "}") rule1 = false ->
  Str.contains (pystr "}") rule2 = false ->
  Str.contains (pystr "{") rule1 = true ->
  Str.contains (pystr "{") rule2 = true ->
  _get_css_rule_key rule1 = Some key ->
  _get_css_rule_key rule2 = Some key ->
  (length (Str.strip rule1) < length (Str.strip rule2) ->
   merge_css_text (rule1 ++ pystr "}") (rule2 ++ pystr "}")
   = Str.strip rule2 ++ pystr "}"
   /\ merge_css_text (rule2 ++ pystr "}") (rule1 ++ pystr "}")
      = Str.strip rule2 ++ pystr "}")
  /\ (length (Str.strip rule1) = length (Str.strip rule2) ->
      merge_css_text (rule1 ++ pystr "}") (rule2 ++ pystr "}")
      = Str.strip rule1 ++ pystr "}").
Proof.
  intros Hc1 Hc2 Ho1 Ho2 Hk1 Hk2.
  pose proof (rule_entry_keyed _ _ Ho1 Hk1) as He1.
  pose proof (rule_entry_keyed _ _ Ho2 Hk2) as He2.
  assert (Hmerge : forall a b ta tb,
             Str.contains (pystr "}") a = false ->
             Str.contains (pystr "}") b = false ->
             rule_entry a = Some (key, ta) -> rule_entry b = Some (key, tb) ->
             merge_css_text (a ++ pystr "}") (b ++ pystr "}")
             = if length ta <? length tb then tb else ta).
  { intros a b ta tb Ha Hb Hea Heb. unfold merge_css_text, merged_rules.
    rewrite (split_one_rule a Ha), (split_one_rule b Hb). cbn [fold_left].
    rewrite !add_existing_rule_entry, !add_new_rule_entry, Hea, Heb.
    change (rule_entry []) with (@None (str * str)).
    cbn [Dict.set Dict.get]. rewrite eqb_refl.
    destruct (length ta <? length tb); cbn [Dict.set]; rewrite ?eqb_refl;
      cbn [Dict.values map snd Str.join]; reflexivity. }
  split.
  - intros Hlt. rewrite (Hmerge _ _ _ _ Hc1 Hc2 He1 He2), (Hmerge _ _ _ _ Hc2 Hc1 He2 He1).
    rewrite !length_app. cbn [length pystr].
    split.
    + destruct (Nat.ltb_spec (length (Str.strip rule1) + length (pystr "}"))
                  (length (Str.strip rule2) + length (pystr "}"))); [done | lia].
    + destruct (Nat.ltb_spec (length (Str.strip rule2) + length (pystr "}"))
                  (length (Str.strip rule1) + length (pystr "}"))); [lia | done].
  - intros Heq. rewrite (Hmerge _ _ _ _ Hc1 Hc2 He1 He2).
    rewrite !length_app, Heq, Nat.ltb_irrefl. reflexivity.
Qed.


Lemma dict_get_absent {V : Type} (k : str) (d : list (str * V)) :
  k ∉ map fst d -> Dict.get k d = None.
Proof.
  induction d as [|[k' v] d IH]; cbn [Dict.get map fst]; [done|].
  intros Hk. apply not_elem_of_cons in Hk as [Hne Hk].
  rewrite eqb_neq by done. by apply IH.
Qed.

Lemma get_add_existing (k : str) (d : list (str * str)) (rule : str) :
  Dict.get k (add_existing_rule d rule)
  = match rule_entry rule with
    | Some (k', t) => if decide (k' = k) then Some t else Dict.get k d
    | None => Dict.get k d
    end.
Proof.
  rewrite add_existing_rule_entry. destruct (rule_entry rule) as [[k' t]|]; [|done].
  apply dict_get_set.
Qed.

Lemma get_add_new (k : str) (d : list (str * str)) (rule : str) :
  Dict.get k (add_new_rule d rule)
  = match rule_entry rule with
    | Some (k', t) =>
        if decide (k' = k) then Some (longer_of (Dict.get k d) t) else Dict.get k d
    | None => Dict.get k d
    end.
Proof.
  rewrite add_new_rule_entry. destruct (rule_entry rule) as [[k' t]|]; [|done].
  destruct (decide (k' = k)) as [->|Hne].
  - unfold longer_of. destruct (Dict.get k d) as [old|] eqn:Hold.
    + destruct (length old <? length t); [|done].
      by rewrite dict_get_set, decide_True.
    + by rewrite dict_get_set, decide_True.
  - destruct (Dict.get k' d) as [old|].
    + destruct (length old <? length t); [|done].
      by rewrite dict_get_set, decide_False.
    + by rewrite dict_get_set, decide_False.
Qed.

Lemma entries_cons (rule : str) (l : list str) :
  omap rule_entry (rule :: l)
  = match rule_entry rule with
    | Some e => e :: omap rule_entry l
    | None => omap rule_entry l
    end.
Proof. reflexivity. Qed.

Lemma get_existing_loop (k : str) (l : list str) (d : list (str * str)) :
  NoDup (map fst (omap rule_entry l)) ->
  Dict.get k (fold_left add_existing_rule l d)
  = match Dict.get k (omap rule_entry l) with
    | Some t => Some t
    | None => Dict.get k d
    end.
Proof.
  revert d. induction l as [|rule l IH]; intros d Hnd; [reflexivity|].
  cbn [fold_left]. rewrite entries_cons in *.
  destruct (rule_entry rule) as [[k' t]|] eqn:He.
  - cbn [map fst] in Hnd. apply NoDup_cons in Hnd as [Hk' Hnd].
    rewrite IH by done. rewrite get_add_existing, He. cbn [Dict.get].
    destruct (decide (k' = k)) as [->|Hne].
    + rewrite eqb_refl. by rewrite dict_get_absent.
    + rewrite eqb_neq by congruence. reflexivity.
  - rewrite IH by done. by rewrite get_add_existing, He.
Qed.

Lemma get_new_loop (k : str) (l : list str) (d : list (str * str)) :
  NoDup (map fst (omap rule_entry l)) ->
  Dict.get k (fold_left add_new_rule l d)
  = match Dict.get k (omap rule_entry l) with
    | Some t => Some (longer_of (Dict.get k d) t)
    | None => Dict.get k d
    end.
Proof.
  revert d. induction l as [|rule l IH]; intros d Hnd; [reflexivity|].
  cbn [fold_left]. rewrite entries_cons in *.
  destruct (rule_entry rule) as [[k' t]|] eqn:He.
  - cbn [map fst] in Hnd. apply NoDup_cons in Hnd as [Hk' Hnd].
    rewrite IH by done. rewrite get_add_new, He. cbn [Dict.get].
    destruct (decide (k' = k)) as [->|Hne].
    + rewrite eqb_refl. by rewrite dict_get_absent.
    + rewrite eqb_neq by congruence. reflexivity.
  - rewrite IH by done. by rewrite get_add_new, He.
Qed.

Lemma get_merged_rules (k existing_str new_str : str) :
  NoDup (map fst (entries_of existing_str)) ->
  NoDup (map fst (entries_of new_str)) ->
  Dict.get k (merged_rules existing_str new_str)
  = match Dict.get k (entries_of new_str) with
    | Some t => Some (longer_of (Dict.get k (entries_of existing_str)) t)
    | None => Dict.get k (entries_of existing_str)
    end.
Proof.
  intros He Hn. unfold merged_rules. rewrite get_new_loop by done.
  rewrite get_existing_loop by done. fold (entries_of existing_str) (entries_of new_str).
  cbn [Dict.get]. by destruct (Dict.get k (entries_of existing_str)).
Qed.

(** When no key occurs twice in a stylesheet and competing texts differ
    in length, the merged rules hold the same text under every key in
    both orders of arrival. *)
Lemma merged_rules_commute (existing_str new_str : str) :
  NoDup (map fst (entries_of existing_str)) ->
  NoDup (map fst (entries_of new_str)) ->
  (forall k t1 t2, Dict.get k (entries_of existing_str) = Some t1 ->
                   Dict.get k (entries_of new_str) = Some t2 ->
                   length t1 <> length t2) ->
  forall k, Dict.get k (merged_rules existing_str new_str)
            = Dict.get k (merged_rules new_str existing_str).
Proof.
  intros He Hn Hlen k. rewrite !get_merged_rules by done.
  destruct (Dict.get k (entries_of existing_str)) as [t1|] eqn:H1,
           (Dict.get k (entries_of new_str)) as [t2|] eqn:H2; try reflexivity.
  pose proof (Hlen k t1 t2 H1 H2) as Hne. unfold longer_of.
  destruct (Nat.ltb_spec (length t1) (length t2)), (Nat.ltb_spec (length t2) (length t1));
    try reflexivity; lia.
Qed.

(** ** The order of the merged rules *)

Lemma dict_get_keys {V : Type} (k : str) (d : list (str * V)) :
  is_Some (Dict.get k d) <-> k ∈ map fst d.
Proof.
  induction d as [|[k' v] d IH]; cbn [Dict.get map fst].
  - split; [by intros [? ?] | by intros ?%elem_of_nil].
  - destruct (decide (k = k')) as [->|Hne].
    + rewrite eqb_refl. split; [intros _; by left | by eauto].
    + rewrite eqb_neq by done. rewrite IH. split; [by right|].
      by intros [? | ?]%elem_of_cons.
Qed.

Lemma dict_set_keys_list {V : Type} (k : str) (v : V) (d : list (str * V)) :
  map fst (Dict.set k v d)
  = if decide (k ∈ map fst d) then map fst d else map fst d ++ [k].
Proof.
  induction d as [|[k0 v0] d IH]; cbn [Dict.set map fst].
  - rewrite decide_False; [done | by intros ?%elem_of_nil].
  - destruct (decide (k = k0)) as [->|Hne].
    + rewrite eqb_refl. cbn [map fst]. rewrite decide_True; [done | by left].
    + rewrite eqb_neq by done. cbn [map fst]. rewrite IH.
      destruct (decide (k ∈ map fst d)) as [Hin|Hout].
      * rewrite decide_True; [done | by right].
      * rewrite decide_False; [done|]. by intros [? | ?]%elem_of_cons.
Qed.

Lemma filter_agree {A : Type} (P Q : A -> Prop) `{!forall x, Decision (P x)}
    `{!forall x, Decision (Q x)} (l : list A) :
  (forall x, x ∈ l -> P x <-> Q x) -> filter P l = filter Q l.
Proof.
  induction l as [|x l IH]; intros Hall; [reflexivity|].
  rewrite !filter_cons.
  assert (Hx : P x <-> Q x) by (apply Hall; by left).
  assert (Hl : filter P l = filter Q l) by (apply IH; intros y Hy; apply Hall; by right).
  destruct (decide (P x)), (decide (Q x)); try tauto; by rewrite Hl.
Qed.

Lemma filter_not_in_nil (l : list str) : filter (fun k : str => k ∉ @nil str) l = l.
Proof.
  induction l as [|x l IH]; [reflexivity|].
  rewrite filter_cons, decide_True by (by intros ?%elem_of_nil). by rewrite IH.
Qed.

(** A loop that files every keyed rule under its key leaves the keys of
    the dictionary in place and appends the keys that are new to it, in
    the order of the rules. *)
Lemma rule_loop_keys (step : list (str * str) -> str -> list (str * str))
    (l : list str) (d : list (str * str)) :
  (forall d rule,
      map fst (step d rule)
      = match rule_entry rule with
        | Some (k, _) => if decide (k ∈ map fst d) then map fst d else map fst d ++ [k]
        | None => map fst d
        end) ->
  NoDup (map fst (omap rule_entry l)) ->
  map fst (fold_left step l d)
  = map fst d ++ filter (fun k => k ∉ map fst d) (map fst (omap rule_entry l)).
Proof.
  intros Hstep. revert d. induction l as [|rule l IH]; intros d Hnd.
  - cbn. by rewrite app_nil_r.
  - cbn [fold_left]. rewrite entries_cons in *. specialize (Hstep d rule) as Hd.
    destruct (rule_entry rule) as [[k t]|] eqn:He.
    + cbn [map fst] in Hnd. apply NoDup_cons in Hnd as [Hk Hnd].
      rewrite IH by done. rewrite Hd. cbn [map fst]. rewrite filter_cons.
      destruct (decide (k ∈ map fst d)) as [Hin|Hout].
      * rewrite decide_False by (intros H; by apply H). reflexivity.
      * rewrite decide_True by done. rewrite <- app_assoc. cbn [app]. do 2 f_equal.
        apply filter_agree. intros x Hx. rewrite not_elem_of_app.
        split; [tauto|]. intros Hxd. split; [done|].
        intros ->%list_elem_of_singleton. done.
    + rewrite IH by done. by rewrite Hd.
Qed.

Lemma add_existing_rule_keys_at (d : list (str * str)) (rule : str) :
  map fst (add_existing_rule d rule)
  = match rule_entry rule with
    | Some (k, _) => if decide (k ∈ map fst d) then map fst d else map fst d ++ [k]
    | None => map fst d
    end.
Proof.
  rewrite add_existing_rule_entry. destruct (rule_entry rule) as [[k t]|]; [|done].
  apply dict_set_keys_list.
Qed.

Lemma add_new_rule_keys_at (d : list (str * str)) (rule : str) :
  map fst (add_new_rule d rule)
  = match rule_entry rule with
    | Some (k, _) => if decide (k ∈ map fst d) then map fst d else map fst d ++ [k]
    | None => map fst d
    end.
Proof.
  rewrite add_new_rule_entry. destruct (rule_entry rule) as [[k t]|]; [|done].
  destruct (Dict.get k d) as [old|] eqn:Hget.
  - assert (Hin : k ∈ map fst d) by (apply dict_get_keys; eauto).
    destruct (length old <? length t).
    + apply dict_set_keys_list.
    + by rewrite decide_True.
  - apply dict_set_keys_list.
Qed.

(** The keys of the merged rules: those of the stylesheet already
    cached, in its order, then those that only the new one has, in its
    order. *)
Lemma merged_rules_keys (existing_str new_str : str) :
  NoDup (map fst (entries_of existing_str)) ->
  NoDup (map fst (entries_of new_str)) ->
  map fst (merged_rules existing_str new_str)
  = map fst (entries_of existing_str)
    ++ filter (fun k => k ∉ map fst (entries_of existing_str))
         (map fst (entries_of new_str)).
Proof.
  intros He Hn. unfold merged_rules.
  rewrite (rule_loop_keys add_new_rule _ _ add_new_rule_keys_at Hn).
  rewrite (rule_loop_keys add_existing_rule _ _ add_existing_rule_keys_at He).
  cbn [map fst app]. fold (entries_of existing_str) (entries_of new_str).
  pose proof (filter_not_in_nil (map fst (entries_of existing_str))) as Hall.
  by rewrite Hall.
Qed.

(** C3, amended.  For two stylesheets in neither of which a key occurs
    twice: the merged rules hold under each key the longer of the two
    candidate texts, the one that arrived first when both have the same
    length, and the only candidate otherwise; the keys come in the
    order of the stylesheet that arrived first, followed by the keys
    that only the other one has, in its order; and when competing
    texts differ in length, both orders of arrival give the same text
    under every key.  In particular two stylesheets of one rule each,
    the rules under the same key, merge to exactly the longer rule
    text whichever arrived first, and to the first when the lengths
    are equal. *)
Theorem longer_rule_wins :
  (forall existing_str new_str : str,
      NoDup (map fst (entries_of existing_str)) ->
      NoDup (map fst (entries_of new_str)) ->
      (forall k,
          Dict.get k (merged_rules existing_str new_str)
          = match Dict.get k (entries_of existing_str),
                  Dict.get k (entries_of new_str) with
            | Some t1, Some t2 => Some (if length t1 <? length t2 then t2 else t1)
            | Some t1, None => Some t1
            | None, Some t2 => Some t2
            | None, None => None
            end)
      /\ map fst (merged_rules existing_str new_str)
         = map fst (entries_of existing_str)
           ++ filter (fun k => k ∉ map fst (entries_of existing_str))
                (map fst (entries_of new_str))
      /\ ((forall k t1 t2, Dict.get k (entries_of existing_str) = Some t1 ->
                           Dict.get k (entries_of new_str) = Some t2 ->
                           length t1 <> length t2) ->
          forall k, Dict.get k (merged_rules existing_str new_str)
                    = Dict.get k (merged_rules new_str existing_str)))
  /\ (forall rule1 rule2 key : str,
         Str.contains (pystr "}") rule1 = false ->
         Str.contains (pystr "}") rule2 = false ->
         Str.contains (pystr "{") rule1 = true ->
         Str.contains (pystr "{") rule2 = true ->
         _get_css_rule_key rule1 = Some key ->
         _get_css_rule_key rule2 = Some key ->
         (length (Str.strip rule1) < length (Str.strip rule2) ->
          merge_css_text (rule1 ++ pystr "}") (rule2 ++ pystr "}")
          = Str.strip rule2 ++ pystr "}"
          /\ merge_css_text (rule2 ++ pystr "}") (rule1 ++ pystr "}")
             = Str.strip rule2 ++ pystr "}")
         /\ (length (Str.strip rule1) = length (Str.strip rule2) ->
             merge_css_text (rule1 ++ pystr "}") (rule2 ++ pystr "}")
             = Str.strip rule1 ++ pystr "}")).
Proof.
  split.
  - intros existing_str new_str He Hn. split; [|split].
    + intros k. rewrite get_merged_rules by done. unfold longer_of.
      by destruct (Dict.get k (entries_of existing_str)),
                  (Dict.get k (entries_of new_str)).
    + by apply merged_rules_keys.
    + by apply merged_rules_commute.
  - intros rule1 rule2 key. apply one_rule_each.
Qed.

(** ** The files kept *)

Lemma add_file_cases (files_in_toc : list (str * str)) (zipfile : list (str * bytes))
    (st : State) (filepath : str) :
  add_file rt files_in_toc zipfile st filepath
  = if excluded filepath then st
    else
      match added_files st !! filepath with
      | None => keep_file rt files_in_toc st filepath (Zip.read zipfile filepath)
      | Some old =>
          if old <? length (Zip.read zipfile filepath)
          then keep_file rt files_in_toc st filepath (Zip.read zipfile filepath)
          else st
      end.
Proof.
  unfold add_file, should_add_file, excluded, Zip.file_size.
  destruct (Str.endswith filepath (pystr ".css")); [reflexivity|].
  destruct (Str.endswith filepath (pystr "/")); [reflexivity|].
  destruct (Str.eqb filepath (pystr "mimetype")); [reflexivity|].
  destruct (Str.startswith filepath (pystr "META-INF/")); [reflexivity|].
  destruct (Str.endswith filepath (pystr ".opf")); [reflexivity|].
  destruct (Str.endswith filepath (pystr ".ncx")); [reflexivity|].
  cbn [orb negb].
  destruct (added_files st !! filepath) as [old|]; [|reflexivity].
  by destruct (old <? _).
Qed.

Lemma add_to_book_items (files_in_toc : list (str * str)) (st : State)
    (filepath : str) (body : bytes) :
  exists mt,
    items (add_to_book rt files_in_toc st filepath body)
    = items (output st)
      ++ [{| file_name := filepath; content := kept_content rt st filepath body;
             media_type := mt |}].
Proof.
  unfold add_to_book, kept_content.
  destruct (Str.endswith filepath (pystr "html")); eexists; reflexivity.
Qed.

Lemma latest_body_keep_file (files_in_toc : list (str * str)) (st : State)
    (filepath : str) (body : bytes) :
  latest_body (output (keep_file rt files_in_toc st filepath body)) filepath
  = Some (kept_content rt st filepath body).
Proof.
  unfold latest_body, keep_file. cbn [output].
  destruct (add_to_book_items files_in_toc st filepath body) as [mt ->].
  rewrite rev_unit. cbn [List.find file_name]. by rewrite eqb_refl.
Qed.

(** The decision on one file, as [added_files] records it.  For a
    path that is not excluded: a path absent from [added_files] is
    kept; a path present is kept again only when the new body is
    strictly longer than the recorded size, and is left alone
    otherwise, so that candidates of equal length keep the first
    seen.  Of an empty and a non-empty body for a new path, the
    non-empty one is the body added last and its length is the size
    recorded, in either order of arrival.  What a kept body does not
    do is take the place of the one kept before. *)
Lemma size_decides_what_is_kept (files_in_toc : list (str * str))
    (zipfile : list (str * bytes)) (st : State) (filepath : str) :
  excluded filepath = false ->
  let body := Zip.read zipfile filepath in
  let kept := keep_file rt files_in_toc st filepath body in
  (added_files st !! filepath = None ->
   add_file rt files_in_toc zipfile st filepath = kept)
  /\ (forall old, added_files st !! filepath = Some old -> old < length body ->
      add_file rt files_in_toc zipfile st filepath = kept)
  /\ (forall old, added_files st !! filepath = Some old -> length body <= old ->
      add_file rt files_in_toc zipfile st filepath = st)
  /\ added_files kept !! filepath = Some (length body)
  /\ latest_body (output kept) filepath = Some (kept_content rt st filepath body)
  /\ (forall other : list (str * bytes),
         added_files st !! filepath = None ->
         Zip.read other filepath = [] -> body <> [] ->
         let empty_first :=
           add_file rt files_in_toc zipfile
             (add_file rt files_in_toc other st filepath) filepath in
         let empty_last :=
           add_file rt files_in_toc other
             (add_file rt files_in_toc zipfile st filepath) filepath in
         added_files empty_first !! filepath = Some (length body)
         /\ latest_body (output empty_first) filepath
            = Some (kept_content rt st filepath body)
         /\ added_files empty_last !! filepath = Some (length body)
         /\ latest_body (output empty_last) filepath
            = Some (kept_content rt st filepath body)).
Proof.
  intros Hex body kept.
  assert (Hsize : forall s b, added_files (keep_file rt files_in_toc s filepath b)
                              !! filepath = Some (length b)).
  { intros s b. unfold keep_file. cbn [added_files]. apply lookup_insert_eq. }
  split; [|split; [|split; [|split; [|split]]]].
  - intros Hnew. by rewrite add_file_cases, Hex, Hnew.
  - intros old Hold Hlt. rewrite add_file_cases, Hex, Hold. fold body.
    by destruct (Nat.ltb_spec old (length body)); [|lia].
  - intros old Hold Hle. rewrite add_file_cases, Hex, Hold. fold body.
    by destruct (Nat.ltb_spec old (length body)); [lia|].
  - apply Hsize.
  - apply latest_body_keep_file.
  - intros other Hnew Hempty Hbody empty_first empty_last.
    assert (Hpos : (0 <? length body) = true).
    { apply Nat.ltb_lt. destruct body; [done | simpl; lia]. }
    assert (Hfirst : empty_first
                     = keep_file rt files_in_toc
                         (keep_file rt files_in_toc st filepath []) filepath body).
    { subst empty_first. rewrite (add_file_cases _ other), Hex, Hnew, Hempty.
      rewrite add_file_cases, Hex, Hsize. cbn [length]. fold body.
      by rewrite Hpos. }
    assert (Hlast : empty_last = kept).
    { subst empty_last. rewrite (add_file_cases _ zipfile), Hex, Hnew.
      fold body. fold kept. rewrite add_file_cases, Hex. subst kept.
      rewrite Hsize, Hempty. reflexivity. }
    rewrite Hfirst, Hlast. repeat split.
    + apply Hsize.
    + rewrite latest_body_keep_file. reflexivity.
    + apply Hsize.
    + apply latest_body_keep_file.
Qed.

(** C2.  A body that a longer one supersedes stays in the book: when
    the empty version of a file arrives first, the book holds both
    bodies under the path, and the search for the item of that path
    finds the empty one; when it arrives last, the book holds the
    other body only.  The recorded size is the same in both orders. *)
Theorem superseded_body_stays_in_book :
  exists empty_first empty_last,
    _download_epub_in_parts rt
      [single_file "cover.jpg" ""; single_file "cover.jpg" "JFIF"]
      [] no_rendition false = Ok empty_first
    /\ _download_epub_in_parts rt
         [single_file "cover.jpg" "JFIF"; single_file "cover.jpg" ""]
         [] no_rendition false = Ok empty_last
    /\ added_files empty_first !! pystr "cover.jpg" = Some 4
    /\ added_files empty_last !! pystr "cover.jpg" = Some 4
    /\ map (fun i => (file_name i, content i)) (items (output empty_first))
       = [(pystr "cover.jpg", pybytes ""); (pystr "cover.jpg", pybytes "JFIF")]
    /\ map (fun i => (file_name i, content i)) (items (output empty_last))
       = [(pystr "cover.jpg", pybytes "JFIF")]
    /\ content <$> cover_item (output empty_first) (Some (pystr "cover.jpg"))
       = Some (pybytes "")
    /\ content <$> cover_item (output empty_last) (Some (pystr "cover.jpg"))
       = Some (pybytes "JFIF").
Proof.
  do 2 eexists. split; [vm_compute; reflexivity|]. split; [vm_compute; reflexivity|].
  repeat split; vm_compute; reflexivity.
Qed.


(** ** Merging a part again *)

Lemma add_file_grows (files_in_toc : list (str * str)) (zipfile : list (str * bytes))
    (st : State) (q p : str) (old : nat) :
  added_files st !! p = Some old ->
  exists old', added_files (add_file rt files_in_toc zipfile st q) !! p = Some old'
               /\ old <= old'.
Proof.
  intros Hold. rewrite add_file_cases.
  assert (Hkeep : exists old',
             added_files (keep_file rt files_in_toc st q (Zip.read zipfile q)) !! p
             = Some old' /\ (old <= old' \/ (q = p /\ old' = length (Zip.read zipfile q)))).
  { unfold keep_file. cbn [added_files]. destruct (decide (q = p)) as [->|Hne].
    - rewrite lookup_insert_eq. eauto.
    - rewrite lookup_insert_ne by done. eauto. }
  destruct (excluded q); [eauto|].
  destruct (added_files st !! q) as [oldq|] eqn:Hq.
  - destruct (Nat.ltb_spec oldq (length (Zip.read zipfile q))); [|eauto].
    destruct Hkeep as (old' & Hl & [Hle | [-> ->]]); [eauto|].
    exists (length (Zip.read zipfile p)). split; [done|].
    rewrite Hold in Hq. injection Hq as ->. lia.
  - destruct Hkeep as (old' & Hl & [Hle | [-> ->]]); [eauto|]. congruence.
Qed.

Lemma add_files_grow (files_in_toc : list (str * str)) (zipfile : list (str * bytes))
    (names : list str) (st : State) (p : str) (old : nat) :
  added_files st !! p = Some old ->
  exists old', added_files (fold_left (add_file rt files_in_toc zipfile) names st) !! p
               = Some old' /\ old <= old'.
Proof.
  revert st old. induction names as [|q names IH]; intros st old Hold; cbn [fold_left].
  - eauto.
  - destruct (add_file_grows files_in_toc zipfile st q p old Hold) as (old1 & H1 & Hle1).
    destruct (IH _ _ H1) as (old2 & H2 & Hle2). exists old2. split; [done | lia].
Qed.

Lemma add_file_covers (files_in_toc : list (str * str)) (zipfile : list (str * bytes))
    (st : State) (p : str) :
  excluded p = false ->
  exists old, added_files (add_file rt files_in_toc zipfile st p) !! p = Some old
              /\ length (Zip.read zipfile p) <= old.
Proof.
  intros Hex. rewrite add_file_cases, Hex.
  assert (Hkeep : added_files (keep_file rt files_in_toc st p (Zip.read zipfile p)) !! p
                  = Some (length (Zip.read zipfile p))).
  { unfold keep_file. cbn [added_files]. apply lookup_insert_eq. }
  destruct (added_files st !! p) as [old|] eqn:Hp; [|eauto].
  destruct (Nat.ltb_spec old (length (Zip.read zipfile p))); eauto.
Qed.

(** After the loop over the files, the names of the archive are
    covered. *)
Lemma add_files_cover (files_in_toc : list (str * str)) (zipfile : list (str * bytes))
    (names : list str) (st : State) :
  covered (added_files (fold_left (add_file rt files_in_toc zipfile) names st))
    zipfile names.
Proof.
  revert st. induction names as [|q names IH]; intros st p Hin Hex.
  - by apply elem_of_nil in Hin.
  - cbn [fold_left]. apply elem_of_cons in Hin as [-> | Hin]; [|by apply IH].
    destruct (add_file_covers files_in_toc zipfile st q Hex) as (old & Hold & Hle).
    destruct (add_files_grow files_in_toc zipfile names _ q old Hold)
      as (old' & Hold' & Hle').
    exists old'. split; [done | lia].
Qed.

(** On covered names the loop over the files changes nothing. *)
Lemma add_files_covered (files_in_toc : list (str * str)) (zipfile : list (str * bytes))
    (names : list str) (st : State) :
  covered (added_files st) zipfile names ->
  fold_left (add_file rt files_in_toc zipfile) names st = st.
Proof.
  induction names as [|q names IH]; intros Hcov; cbn [fold_left]; [reflexivity|].
  assert (Hq : add_file rt files_in_toc zipfile st q = st).
  { rewrite add_file_cases. destruct (excluded q) eqn:Hex; [reflexivity|].
    destruct (Hcov q ltac:(left) Hex) as (old & -> & Hle).
    by destruct (Nat.ltb_spec old (length (Zip.read zipfile q))); [lia|]. }
  rewrite Hq. apply IH. intros p Hin. apply Hcov. by right.
Qed.

Lemma add_files_opf_extracted (files_in_toc : list (str * str))
    (zipfile : list (str * bytes)) (names : list str) (st : State) :
  opf_extracted (fold_left (add_file rt files_in_toc zipfile) names st)
  = opf_extracted st.
Proof.
  revert st. induction names as [|q names IH]; intros st; cbn [fold_left];
    [reflexivity|].
  rewrite IH, add_file_cases. repeat case_match; reflexivity.
Qed.

(** A part whose OPF search went through leaves a state on which the
    search does nothing. *)
Lemma extract_opf_again (zipfile : list (str * bytes)) (st st1 st' : State) :
  extract_opf rt zipfile st = Ok st1 ->
  opf_extracted st' = opf_extracted st1 ->
  extract_opf rt zipfile st' = Ok st'.
Proof.
  unfold extract_opf. intros H Hsame.
  destruct (opf_extracted st') eqn:Hst'; [reflexivity|].
  destruct (opf_extracted st) eqn:Hst.
  - injection H as <-. congruence.
  - destruct (List.find _ (Zip.namelist zipfile)); [|reflexivity].
    destruct (_extract_opf_metadata rt _); [|discriminate].
    cbn in H. injection H as <-. cbn in Hsame. discriminate.
Qed.

(** C6.  Merging a part a second time, right after the first, leaves
    [added_files] and the book as the first merge left them. *)
Theorem merge_part_twice (files_in_toc : list (str * str)) (update : bool)
    (progress : nat) (st st1 : State) (zipfile : list (str * bytes)) :
  merge_part rt files_in_toc update progress st zipfile = Ok st1 ->
  exists st2,
    merge_part rt files_in_toc update progress st1 zipfile = Ok st2
    /\ added_files st2 = added_files st1
    /\ output st2 = output st1.
Proof.
  unfold merge_part. intros H.
  destruct (extract_opf rt zipfile st) as [sa|] eqn:Hopf; [|discriminate].
  cbn in H. injection H as <-.
  set (names := Zip.namelist zipfile) in *.
  set (sb := set_css_cache _ sa).
  set (sc := fold_left (add_file rt files_in_toc zipfile) names sb).
  rewrite (extract_opf_again zipfile st sa (report update progress sc) Hopf)
    by (subst sc; cbn [report opf_extracted]; by rewrite add_files_opf_extracted).
  cbn. eexists. split; [reflexivity|].
  set (sb' := set_css_cache _ (report update progress sc)).
  assert (Hid : fold_left (add_file rt files_in_toc zipfile) names sb' = sb').
  { apply add_files_covered. subst sb'. cbn [set_css_cache report added_files].
    apply add_files_cover. }
  rewrite Hid. split; reflexivity.
Qed.

(** ** The spine *)

(** C5.  A page that a later part replaces by a longer body enters the
    spine a second time: the path is in the spine once per body
    kept. *)
Theorem replaced_page_enters_spine_twice :
  exists st,
    _download_epub_in_parts rt
      [single_file "page1.xhtml" ""; single_file "page1.xhtml" "<html/>"]
      [] no_rendition false = Ok st
    /\ spine_paths (output st) = [pystr "page1.xhtml"; pystr "page1.xhtml"]
    /\ map file_name (items (output st)) = [pystr "page1.xhtml"; pystr "page1.xhtml"].
Proof. eexists. split; [vm_compute; reflexivity|]. split; vm_compute; reflexivity. Qed.

End Properties.

(** * Further properties *)

Section Merge.

Context (rt : Runtime).

(** ** The stages of the merge of one part *)

Lemma extract_opf_keeps (zipfile : list (str * bytes)) (st st' : State) :
  extract_opf rt zipfile st = Ok st' ->
  added_files st' = added_files st /\ output st' = output st
  /\ css_cache st' = css_cache st /\ progress_made st' = progress_made st.
Proof.
  unfold extract_opf. destruct (opf_extracted st); [by intros [= <-]|].
  destruct (List.find _ _); [|by intros [= <-]].
  destruct (_extract_opf_metadata rt _); [|discriminate].
  by intros [= <-].
Qed.

Lemma merge_part_stages (files_in_toc : list (str * str)) (update : bool)
    (progress : nat) (st st' : State) (zipfile : list (str * bytes)) :
  merge_part rt files_in_toc update progress st zipfile = Ok st' ->
  exists sa,
    extract_opf rt zipfile st = Ok sa
    /\ st' = report update progress
               (fold_left (add_file rt files_in_toc zipfile) (Zip.namelist zipfile)
                  (set_css_cache
                     (fold_left (collect_css zipfile) (Zip.namelist zipfile)
                        (css_cache sa)) sa)).
Proof.
  unfold merge_part. destruct (extract_opf rt zipfile st) as [sa|]; [|discriminate].
  cbn. intros [= <-]. eauto.
Qed.

Lemma merge_parts_cons (files_in_toc : list (str * str)) (update : bool)
    (progress : nat) (st st' : State) (zipfile : list (str * bytes))
    (rest : list (list (str * bytes))) :
  merge_parts rt files_in_toc update progress st (zipfile :: rest) = Ok st' ->
  exists st1,
    merge_part rt files_in_toc update progress st zipfile = Ok st1
    /\ merge_parts rt files_in_toc update progress st1 rest = Ok st'.
Proof.
  cbn [merge_parts].
  destruct (merge_part rt files_in_toc update progress st zipfile) as [st1|];
    [|discriminate].
  cbn. eauto.
Qed.

Lemma add_files_keeps (P : gmap str nat -> EpubBook -> Prop)
    (files_in_toc : list (str * str)) :
  (forall zipfile st p,
      P (added_files st) (output st) ->
      P (added_files (add_file rt files_in_toc zipfile st p))
        (output (add_file rt files_in_toc zipfile st p))) ->
  forall zipfile names st,
    P (added_files st) (output st) ->
    P (added_files (fold_left (add_file rt files_in_toc zipfile) names st))
      (output (fold_left (add_file rt files_in_toc zipfile) names st)).
Proof.
  intros Hstep zipfile names. induction names as [|q names IH]; intros st HP;
    cbn [fold_left]; [done|].
  apply IH. by apply Hstep.
Qed.

(** What the loop over the files keeps true of [added_files] and the
    book, the whole merge keeps true. *)
Lemma merge_parts_keeps (P : gmap str nat -> EpubBook -> Prop)
    (files_in_toc : list (str * str)) (update : bool) (progress : nat) :
  (forall zipfile st p,
      P (added_files st) (output st) ->
      P (added_files (add_file rt files_in_toc zipfile st p))
        (output (add_file rt files_in_toc zipfile st p))) ->
  forall files st st',
    merge_parts rt files_in_toc update progress st files = Ok st' ->
    P (added_files st) (output st) -> P (added_files st') (output st').
Proof.
  intros Hstep files. induction files as [|zipfile rest IH]; intros st st' Hrun HP.
  - by injection Hrun as <-.
  - apply merge_parts_cons in Hrun as (st1 & Hpart & Hrest).
    apply (IH _ _ Hrest).
    apply merge_part_stages in Hpart as (sa & Hopf & ->).
    apply extract_opf_keeps in Hopf as (Ha & Ho & _).
    cbn [report added_files output].
    apply (add_files_keeps P files_in_toc Hstep).
    cbn [set_css_cache added_files output]. by rewrite Ha, Ho.
Qed.

Lemma download_merge (files : list (list (str * bytes)))
    (files_in_toc : list (str * str)) (md : Metadata) (update : bool) (st : State) :
  _download_epub_in_parts rt files files_in_toc md update = Ok st ->
  files <> []
  /\ exists sm,
       merge_parts rt files_in_toc update (length files) (initial_state md) files = Ok sm
       /\ st = add_css_items sm.
Proof.
  unfold _download_epub_in_parts. destruct files as [|z rest]; [discriminate|].
  cbn [length one_over]. cbn [mbind result_bind].
  destruct (merge_parts rt files_in_toc update _ _ _) as [sm|]; [|discriminate].
  intros [= <-]. split; [done | eauto].
Qed.

Lemma add_files_rest (files_in_toc : list (str * str)) (zipfile : list (str * bytes))
    (names : list str) (st : State) :
  let st' := fold_left (add_file rt files_in_toc zipfile) names st in
  css_cache st' = css_cache st /\ cover_href st' = cover_href st
  /\ spine_properties st' = spine_properties st /\ metadata st' = metadata st
  /\ progress_made st' = progress_made st.
Proof.
  revert st. induction names as [|q names IH]; intros st; cbn [fold_left]; [done|].
  destruct (IH (add_file rt files_in_toc zipfile st q)) as (-> & -> & -> & -> & ->).
  rewrite add_file_cases. repeat case_match; done.
Qed.

(** The book once a file is kept: one more item, which may also be the
    last entry of the spine and of the table of contents when it is a
    page. *)
Lemma keep_file_book (files_in_toc : list (str * str)) (st : State) (p : str)
    (body : bytes) :
  let book := output st in
  let book' := output (keep_file rt files_in_toc st p body) in
  exists it,
    file_name it = p /\ content it = kept_content rt st p body
    /\ items book' = items book ++ [it]
    /\ (spine book' = spine book
        \/ Str.endswith p (pystr "html") = true
           /\ exists e, spine_item e = it /\ spine book' = spine book ++ [e])
    /\ (toc book' = toc book
        \/ Str.endswith p (pystr "html") = true /\ toc book' = toc book ++ [it]).
Proof.
  unfold keep_file. cbn [output]. unfold add_to_book, kept_content.
  destruct (Str.endswith p (pystr "html")) eqn:Hhtml; cbn [items spine toc].
  - exists {| file_name := p; content := page_content rt st p body;
              media_type := Some (pystr "application/xhtml+xml") |}.
    split; [reflexivity|]. split; [reflexivity|]. split; [reflexivity|]. split.
    + destruct (negb _); [|by left]. right. split; [done|].
      unfold spine_entry. cbn [file_name].
      destruct (spine_props _ _) as [[|c props]|];
        [eexists (SpineItem _) | eexists (SpineItemProps _ _) | eexists (SpineItem _)];
        split; reflexivity.
    + destruct (is_in_toc _ _); [right | left]; done.
  - exists {| file_name := p; content := body; media_type := None |}.
    split; [reflexivity|]. split; [reflexivity|]. split; [reflexivity|].
    split; by left.
Qed.

(** [added_files] and the items of the book name the same paths. *)
Lemma add_file_names (files_in_toc : list (str * str)) (zipfile : list (str * bytes))
    (st : State) (q : str) :
  (forall p, is_Some (added_files st !! p) <-> p ∈ map file_name (items (output st))) ->
  forall p,
    is_Some (added_files (add_file rt files_in_toc zipfile st q) !! p)
    <-> p ∈ map file_name (items (output (add_file rt files_in_toc zipfile st q))).
Proof.
  intros Hst p. rewrite add_file_cases.
  assert (Hkeep : forall body,
             is_Some (added_files (keep_file rt files_in_toc st q body) !! p)
             <-> p ∈ map file_name (items (output (keep_file rt files_in_toc st q body)))).
  { intros body.
    destruct (keep_file_book files_in_toc st q body) as (it & Hname & _ & -> & _).
    unfold keep_file. cbn [added_files]. rewrite map_app, elem_of_app. cbn [map].
    rewrite list_elem_of_singleton, Hname, <- Hst.
    destruct (decide (q = p)) as [->|Hne].
    - rewrite lookup_insert_eq. split; [by right | done].
    - rewrite lookup_insert_ne by done. split; [by left | by intros [? | ?]]. }
  destruct (excluded q); [apply Hst|].
  destruct (added_files st !! q) as [old|]; [|apply Hkeep].
  destruct (old <? _); [apply Hkeep | apply Hst].
Qed.

Lemma add_file_clean (files_in_toc : list (str * str)) (zipfile : list (str * bytes))
    (st : State) (q : str) :
  (forall p, is_Some (added_files st !! p) -> excluded p = false) ->
  forall p, is_Some (added_files (add_file rt files_in_toc zipfile st q) !! p) ->
            excluded p = false.
Proof.
  intros Hst p. rewrite add_file_cases.
  destruct (excluded q) eqn:Hq; [apply Hst|].
  assert (Hkeep : forall body,
             is_Some (added_files (keep_file rt files_in_toc st q body) !! p) ->
             excluded p = false).
  { intros body. unfold keep_file. cbn [added_files].
    destruct (decide (q = p)) as [->|Hne]; [done|].
    rewrite lookup_insert_ne by done. apply Hst. }
  destruct (added_files st !! q) as [old|]; [|apply Hkeep].
  destruct (old <? _); [apply Hkeep | apply Hst].
Qed.

Lemma add_file_pages (files_in_toc : list (str * str)) (zipfile : list (str * bytes))
    (st : State) (q : str) :
  pages_of_book (output st) ->
  pages_of_book (output (add_file rt files_in_toc zipfile st q)).
Proof.
  intros Hst. rewrite add_file_cases.
  assert (Hkeep : forall body,
             pages_of_book (output (keep_file rt files_in_toc st q body))).
  { intros body.
    destruct (keep_file_book files_in_toc st q body)
      as (it & Hname & _ & Hitems & Hspine & Htoc).
    destruct Hst as [Hs Ht]. split.
    - intros e He. rewrite Hitems, elem_of_app.
      destruct Hspine as [Hsame | (Hhtml & e' & He' & Hmore)].
      + rewrite Hsame in He. destruct (Hs e He). split; [by left | done].
      + rewrite Hmore in He. apply elem_of_app in He as [He | He].
        * destruct (Hs e He). split; [by left | done].
        * apply list_elem_of_singleton in He as ->. rewrite He'.
          split; [right; by apply list_elem_of_singleton | by rewrite Hname].
    - intros i Hi. rewrite Hitems, elem_of_app.
      destruct Htoc as [Hsame | (Hhtml & Hmore)].
      + rewrite Hsame in Hi. destruct (Ht i Hi). split; [by left | done].
      + rewrite Hmore in Hi. apply elem_of_app in Hi as [Hi | Hi].
        * destruct (Ht i Hi). split; [by left | done].
        * apply list_elem_of_singleton in Hi as ->.
          split; [right; by apply list_elem_of_singleton | by rewrite Hname]. }
  destruct (excluded q); [done|].
  destruct (added_files st !! q) as [old|]; [|apply Hkeep].
  destruct (old <? _); [apply Hkeep | done].
Qed.

(** ** The stylesheet cache *)

Lemma dict_set_keys {V : Type} (k k' : str) (v : V) (d : list (str * V)) :
  k' ∈ map fst (Dict.set k v d) <-> k' = k \/ k' ∈ map fst d.
Proof.
  induction d as [|[k0 v0] d IH]; cbn [Dict.set map fst].
  - rewrite list_elem_of_singleton. split; [by left | intros [? | H]; [done|]].
    by apply elem_of_nil in H.
  - destruct (decide (k = k0)) as [->|Hne].
    + rewrite eqb_refl. cbn [map fst]. rewrite !elem_of_cons. tauto.
    + rewrite eqb_neq by done. cbn [map fst]. rewrite !elem_of_cons, IH. tauto.
Qed.

Lemma collect_css_names (zipfile : list (str * bytes)) (names : list str)
    (cache : list (str * bytes)) (k : str) :
  k ∈ map fst (fold_left (collect_css zipfile) names cache) ->
  k ∈ map fst cache \/ Str.endswith k (pystr ".css") = true /\ k ∈ names.
Proof.
  revert cache. induction names as [|q names IH]; intros cache; cbn [fold_left];
    [by left|].
  intros [Hk | [Hcss Hk]]%IH; [|right; split; [done | by right]].
  unfold collect_css in Hk. destruct (Str.endswith q (pystr ".css")) eqn:Hq; [|by left].
  destruct (Zip.read zipfile q); [by left|].
  destruct (Dict.get q cache); apply dict_set_keys in Hk as [-> | Hk];
    try (by left); right; (split; [done | by left]).
Qed.

Lemma merge_part_css_cache (files_in_toc : list (str * str)) (update : bool)
    (progress : nat) (st st' : State) (zipfile : list (str * bytes)) :
  merge_part rt files_in_toc update progress st zipfile = Ok st' ->
  css_cache st'
  = fold_left (collect_css zipfile) (Zip.namelist zipfile) (css_cache st).
Proof.
  intros (sa & Hopf & ->)%merge_part_stages.
  apply extract_opf_keeps in Hopf as (_ & _ & <- & _).
  cbn [report css_cache].
  by destruct (add_files_rest files_in_toc zipfile (Zip.namelist zipfile)
                 (set_css_cache (fold_left (collect_css zipfile) (Zip.namelist zipfile)
                                   (css_cache sa)) sa)) as (-> & _).
Qed.

Lemma merge_parts_css_names (files_in_toc : list (str * str)) (update : bool)
    (progress : nat) (files : list (list (str * bytes))) (st st' : State) (k : str) :
  merge_parts rt files_in_toc update progress st files = Ok st' ->
  k ∈ map fst (css_cache st') ->
  k ∈ map fst (css_cache st)
  \/ Str.endswith k (pystr ".css") = true
     /\ exists zipfile, zipfile ∈ files /\ k ∈ Zip.namelist zipfile.
Proof.
  revert st. induction files as [|zipfile rest IH]; intros st Hrun Hk.
  - injection Hrun as <-. by left.
  - apply merge_parts_cons in Hrun as (st1 & Hpart & Hrest).
    destruct (IH _ Hrest Hk) as [Hk1 | (Hcss & z & Hz & Hin)].
    + rewrite (merge_part_css_cache _ _ _ _ _ _ Hpart) in Hk1.
      apply collect_css_names in Hk1 as [? | [Hcss Hin]]; [by left|].
      right. split; [done|]. exists zipfile. split; [by left | done].
    + right. split; [done|]. exists z. split; [by right | done].
Qed.

(** ** What the book holds *)

Lemma excluded_not_css (p : str) :
  excluded p = false -> Str.endswith p (pystr ".css") = false.
Proof. unfold excluded. by destruct (Str.endswith p (pystr ".css")). Qed.

Lemma initial_book (md : Metadata) :
  (forall p, is_Some (added_files (initial_state md) !! p)
             <-> p ∈ map file_name (items (output (initial_state md))))
  /\ (forall p, is_Some (added_files (initial_state md) !! p) -> excluded p = false)
  /\ pages_of_book (output (initial_state md)).
Proof.
  cbn. split; [|split; [|split]].
  - intros p. rewrite lookup_empty. split; [by intros [? ?] | by intros ?%elem_of_nil].
  - intros p. rewrite lookup_empty. by intros [? ?].
  - by intros e ?%elem_of_nil.
  - by intros e ?%elem_of_nil.
Qed.

(** X1.  After a merge that went through, no path recorded in
    [added_files] is a stylesheet, a directory entry, [mimetype], a file
    under [META-INF/], an OPF or an NCX document; and the only items of
    the book with such a path are the merged stylesheets, added with
    the media type [text/css]. *)
Theorem excluded_paths_stay_out (files : list (list (str * bytes)))
    (files_in_toc : list (str * str)) (md : Metadata) (update : bool) (st : State) :
  _download_epub_in_parts rt files files_in_toc md update = Ok st ->
  (forall p, is_Some (added_files st !! p) -> excluded p = false)
  /\ (forall it, it ∈ items (output st) -> excluded (file_name it) = true ->
        Str.endswith (file_name it) (pystr ".css") = true
        /\ media_type it = Some (pystr "text/css")).
Proof.
  intros (_ & sm & Hrun & ->)%download_merge.
  destruct (initial_book md) as (Hnames0 & Hclean0 & _).
  pose proof (merge_parts_keeps
                (fun added book => forall p, is_Some (added !! p) -> excluded p = false)
                files_in_toc update (length files)
                (fun z s q => add_file_clean files_in_toc z s q) _ _ _ Hrun Hclean0)
    as Hclean.
  pose proof (merge_parts_keeps
                (fun added book =>
                   forall p, is_Some (added !! p) <-> p ∈ map file_name (items book))
                files_in_toc update (length files)
                (fun z s q => add_file_names files_in_toc z s q) _ _ _ Hrun Hnames0)
    as Hnames.
  split; [exact Hclean|].
  intros it Hit Hex. cbn [add_css_items output items] in Hit.
  apply elem_of_app in Hit as [Hit | Hit].
  - assert (excluded (file_name it) = false); [|congruence].
    apply Hclean, Hnames. by apply list_elem_of_fmap_2.
  - apply list_elem_of_fmap in Hit as ([k v] & -> & Hkv). cbn [file_name media_type fst].
    split; [|reflexivity].
    assert (Hk : k ∈ map fst (css_cache sm))
      by (change k with (fst (k, v)); by apply list_elem_of_fmap_2).
    destruct (merge_parts_css_names _ _ _ _ _ _ _ Hrun Hk) as [Hk0 | [Hcss _]];
      [by apply elem_of_nil in Hk0 | done].
Qed.

(** X2.  After a merge that went through, the paths recorded in
    [added_files] are exactly the paths of the items of the book that
    are not stylesheets. *)
Theorem recorded_paths_are_the_items (files : list (list (str * bytes)))
    (files_in_toc : list (str * str)) (md : Metadata) (update : bool) (st : State)
    (p : str) :
  _download_epub_in_parts rt files files_in_toc md update = Ok st ->
  is_Some (added_files st !! p)
  <-> p ∈ map file_name (items (output st))
      /\ Str.endswith p (pystr ".css") = false.
Proof.
  intros (_ & sm & Hrun & ->)%download_merge.
  destruct (initial_book md) as (Hnames0 & Hclean0 & _).
  pose proof (merge_parts_keeps
                (fun added book => forall p, is_Some (added !! p) -> excluded p = false)
                files_in_toc update (length files)
                (fun z s q => add_file_clean files_in_toc z s q) _ _ _ Hrun Hclean0)
    as Hclean.
  pose proof (merge_parts_keeps
                (fun added book =>
                   forall p, is_Some (added !! p) <-> p ∈ map file_name (items book))
                files_in_toc update (length files)
                (fun z s q => add_file_names files_in_toc z s q) _ _ _ Hrun Hnames0)
    as Hnames.
  cbn [add_css_items added_files output items]. rewrite map_app, elem_of_app. split.
  - intros Hp. split; [left; by apply Hnames|]. by apply excluded_not_css, Hclean.
  - intros [[Hp | Hp] Hcss]; [by apply Hnames|].
    rewrite map_map in Hp. cbn [file_name] in Hp.
    destruct (merge_parts_css_names _ _ _ _ _ _ _ Hrun Hp) as [Hk0 | [Hcss' _]];
      [by apply elem_of_nil in Hk0 | congruence].
Qed.

(** X3.  After a merge that went through, every entry of the spine and
    of the table of contents is an item of the book whose path ends in
    [html]. *)
Theorem spine_and_toc_hold_pages (files : list (list (str * bytes)))
    (files_in_toc : list (str * str)) (md : Metadata) (update : bool) (st : State) :
  _download_epub_in_parts rt files files_in_toc md update = Ok st ->
  (forall e, e ∈ spine (output st) ->
     spine_item e ∈ items (output st)
     /\ Str.endswith (file_name (spine_item e)) (pystr "html") = true)
  /\ (forall it, it ∈ toc (output st) ->
        it ∈ items (output st) /\ Str.endswith (file_name it) (pystr "html") = true).
Proof.
  intros (_ & sm & Hrun & ->)%download_merge.
  destruct (initial_book md) as (_ & _ & Hpages0).
  pose proof (merge_parts_keeps (fun added book => pages_of_book book)
                files_in_toc update (length files)
                (fun z s q => add_file_pages files_in_toc z s q) _ _ _ Hrun Hpages0)
    as [Hs Ht].
  cbn [add_css_items output items spine toc]. split.
  - intros e He. destruct (Hs e He). split; [apply elem_of_app; by left | done].
  - intros it Hit. destruct (Ht it Hit). split; [apply elem_of_app; by left | done].
Qed.

(** ** Sizes across the parts *)

Lemma add_files_source (files_in_toc : list (str * str)) (zipfile : list (str * bytes))
    (names : list str) (st : State) (p : str) (n : nat) :
  added_files (fold_left (add_file rt files_in_toc zipfile) names st) !! p = Some n ->
  added_files st !! p = Some n \/ p ∈ names /\ n = length (Zip.read zipfile p).
Proof.
  revert st. induction names as [|q names IH]; intros st; cbn [fold_left]; [by left|].
  intros [H | [Hin ->]]%IH; [|right; split; [by right | done]].
  rewrite add_file_cases in H.
  assert (Hkeep : added_files (keep_file rt files_in_toc st q (Zip.read zipfile q)) !! p
                  = Some n ->
                  added_files st !! p = Some n
                  \/ p ∈ q :: names /\ n = length (Zip.read zipfile p)).
  { unfold keep_file. cbn [added_files]. destruct (decide (q = p)) as [->|Hne].
    - rewrite lookup_insert_eq. intros [= <-]. right. split; [by left | done].
    - rewrite lookup_insert_ne by done. by left. }
  destruct (excluded q); [by left|].
  destruct (added_files st !! q) as [old|]; [|by apply Hkeep].
  destruct (old <? _); [by apply Hkeep | by left].
Qed.

Lemma merge_part_sizes (files_in_toc : list (str * str)) (update : bool)
    (progress : nat) (st st' : State) (zipfile : list (str * bytes)) :
  merge_part rt files_in_toc update progress st zipfile = Ok st' ->
  covered (added_files st') zipfile (Zip.namelist zipfile)
  /\ (forall p n, added_files st' !! p = Some n ->
        added_files st !! p = Some n
        \/ p ∈ Zip.namelist zipfile /\ n = length (Zip.read zipfile p))
  /\ (forall p old, added_files st !! p = Some old ->
        exists n, added_files st' !! p = Some n /\ old <= n).
Proof.
  intros (sa & Hopf & ->)%merge_part_stages.
  apply extract_opf_keeps in Hopf as (Ha & _). cbn [report added_files].
  split; [apply add_files_cover|]. split.
  - intros p n [H | H]%add_files_source; [left | by right].
    by rewrite <- Ha.
  - intros p old Hold. apply add_files_grow. cbn [set_css_cache added_files].
    by rewrite Ha.
Qed.

Lemma merge_parts_sizes (files_in_toc : list (str * str)) (update : bool)
    (progress : nat) (files : list (list (str * bytes))) (st st' : State) :
  merge_parts rt files_in_toc update progress st files = Ok st' ->
  (forall part p, part ∈ files -> p ∈ Zip.namelist part -> excluded p = false ->
     exists n, added_files st' !! p = Some n /\ length (Zip.read part p) <= n)
  /\ (forall p n, added_files st' !! p = Some n ->
        added_files st !! p = Some n
        \/ exists part, part ∈ files /\ p ∈ Zip.namelist part
                        /\ n = length (Zip.read part p))
  /\ (forall p old, added_files st !! p = Some old ->
        exists n, added_files st' !! p = Some n /\ old <= n).
Proof.
  revert st. induction files as [|zipfile rest IH]; intros st Hrun.
  - injection Hrun as <-. split; [by intros part p ?%elem_of_nil|].
    split; [by left | eauto].
  - apply merge_parts_cons in Hrun as (st1 & Hpart & Hrest).
    destruct (IH _ Hrest) as (Hcov & Hsrc & Hgrow).
    destruct (merge_part_sizes _ _ _ _ _ _ Hpart) as (Hcov1 & Hsrc1 & Hgrow1).
    split; [|split].
    + intros part p [-> | Hpart']%elem_of_cons Hp Hex; [|by apply Hcov].
      destruct (Hcov1 p Hp Hex) as (n1 & Hn1 & Hle1).
      destruct (Hgrow p n1 Hn1) as (n & Hn & Hle). exists n. split; [done | lia].
    + intros p n [H | (part & Hin & Hp & ->)]%Hsrc.
      * apply Hsrc1 in H as [H | [Hp ->]]; [by left|].
        right. exists zipfile. split; [by left | done].
      * right. exists part. split; [by right | done].
    + intros p old Hold. destruct (Hgrow1 p old Hold) as (n1 & Hn1 & Hle1).
      destruct (Hgrow p n1 Hn1) as (n & Hn & Hle). exists n. split; [done | lia].
Qed.

(** X4.  After a merge that went through, the size recorded for a path
    is the size the path has in one of the parts, and no part gives the
    path a larger size: the recorded size is the largest. *)
Theorem recorded_size_is_the_largest (files : list (list (str * bytes)))
    (files_in_toc : list (str * str)) (md : Metadata) (update : bool) (st : State) :
  _download_epub_in_parts rt files files_in_toc md update = Ok st ->
  (forall part p, part ∈ files -> p ∈ Zip.namelist part -> excluded p = false ->
     exists n, added_files st !! p = Some n /\ length (Zip.read part p) <= n)
  /\ (forall p n, added_files st !! p = Some n ->
        exists part, part ∈ files /\ p ∈ Zip.namelist part
                     /\ n = length (Zip.read part p)).
Proof.
  intros (_ & sm & Hrun & ->)%download_merge.
  destruct (merge_parts_sizes _ _ _ _ _ _ Hrun) as (Hcov & Hsrc & _).
  cbn [add_css_items added_files]. split; [exact Hcov|].
  intros p n [H | H]%Hsrc; [|done]. cbn in H. by rewrite lookup_empty in H.
Qed.

(** ** What a part adds *)




(** X6.  Merging a further part never drops a recorded path and never
    lowers its recorded size. *)
Theorem recorded_sizes_only_grow (files_in_toc : list (str * str)) (update : bool)
    (progress : nat) (st st' : State) (zipfile : list (str * bytes)) (p : str)
    (old : nat) :
  merge_part rt files_in_toc update progress st zipfile = Ok st' ->
  added_files st !! p = Some old ->
  exists n, added_files st' !! p = Some n /\ old <= n.
Proof.
  intros Hpart Hold. by apply (merge_part_sizes _ _ _ _ _ _ Hpart).
Qed.

(** ** Progress *)

Lemma merge_part_progress (files_in_toc : list (str * str)) (update : bool)
    (progress : nat) (st st' : State) (zipfile : list (str * bytes)) :
  merge_part rt files_in_toc update progress st zipfile = Ok st' ->
  progress_made st'
  = progress_made st ++ (if update then [progress] else []).
Proof.
  intros (sa & Hopf & ->)%merge_part_stages.
  apply extract_opf_keeps in Hopf as (_ & _ & _ & Hp).
  cbn [report progress_made].
  destruct (add_files_rest files_in_toc zipfile (Zip.namelist zipfile)
              (set_css_cache (fold_left (collect_css zipfile) (Zip.namelist zipfile)
                                (css_cache sa)) sa)) as (_ & _ & _ & _ & ->).
  cbn [set_css_cache progress_made]. rewrite Hp.
  destruct update; [done | by rewrite app_nil_r].
Qed.

Lemma merge_parts_progress (files_in_toc : list (str * str)) (update : bool)
    (progress : nat) (files : list (list (str * bytes))) (st st' : State) :
  merge_parts rt files_in_toc update progress st files = Ok st' ->
  progress_made st'
  = progress_made st ++ (if update then repeat progress (length files) else []).
Proof.
  revert st. induction files as [|zipfile rest IH]; intros st Hrun.
  - injection Hrun as <-. destruct update; by rewrite app_nil_r.
  - apply merge_parts_cons in Hrun as (st1 & Hpart & Hrest).
    rewrite (IH _ Hrest), (merge_part_progress _ _ _ _ _ _ Hpart).
    destruct update; [|by rewrite !app_nil_r]. by rewrite <- app_assoc.
Qed.

(** X7.  A merge that went through called the progress callback, when
    one was given, once per part and each time with one over the number
    of parts; without a callback nothing is reported. *)
Theorem progress_once_per_part (files : list (list (str * bytes)))
    (files_in_toc : list (str * str)) (md : Metadata) (update : bool) (st : State) :
  _download_epub_in_parts rt files files_in_toc md update = Ok st ->
  progress_made st
  = if update then repeat (length files) (length files) else [].
Proof.
  intros (_ & sm & Hrun & ->)%download_merge.
  cbn [add_css_items progress_made].
  by rewrite (merge_parts_progress _ _ _ _ _ _ Hrun).
Qed.

(** ** The package metadata are read once *)

Lemma merge_part_extracted (files_in_toc : list (str * str)) (update : bool)
    (progress : nat) (st st' : State) (zipfile : list (str * bytes)) :
  merge_part rt files_in_toc update progress st zipfile = Ok st' ->
  opf_extracted st = true ->
  opf_extracted st' = true /\ metadata st' = metadata st
  /\ cover_href st' = cover_href st /\ spine_properties st' = spine_properties st.
Proof.
  intros (sa & Hopf & ->)%merge_part_stages Hdone.
  unfold extract_opf in Hopf. rewrite Hdone in Hopf. injection Hopf as <-.
  cbn [report opf_extracted metadata cover_href spine_properties].
  rewrite (add_files_opf_extracted rt).
  by destruct (add_files_rest files_in_toc zipfile (Zip.namelist zipfile)
                 (set_css_cache (fold_left (collect_css zipfile) (Zip.namelist zipfile)
                                   (css_cache st)) st)) as (_ & -> & -> & -> & _).
Qed.

Lemma merge_parts_extracted (files_in_toc : list (str * str)) (update : bool)
    (progress : nat) (files : list (list (str * bytes))) (st st' : State) :
  merge_parts rt files_in_toc update progress st files = Ok st' ->
  opf_extracted st = true ->
  metadata st' = metadata st /\ cover_href st' = cover_href st
  /\ spine_properties st' = spine_properties st.
Proof.
  revert st. induction files as [|zipfile rest IH]; intros st Hrun Hdone.
  - by injection Hrun as <-.
  - apply merge_parts_cons in Hrun as (st1 & Hpart & Hrest).
    destruct (merge_part_extracted _ _ _ _ _ _ Hpart Hdone) as (Hdone1 & <- & <- & <-).
    by apply IH.
Qed.

Lemma merge_part_finds_opf (files_in_toc : list (str * str)) (update : bool)
    (progress : nat) (st st' : State) (zipfile : list (str * bytes)) (name : str) :
  merge_part rt files_in_toc update progress st zipfile = Ok st' ->
  name ∈ Zip.namelist zipfile -> Str.endswith name (pystr ".opf") = true ->
  opf_extracted st' = true.
Proof.
  intros (sa & Hopf & ->)%merge_part_stages Hin Hname.
  cbn [report opf_extracted]. rewrite (add_files_opf_extracted rt).
  cbn [set_css_cache opf_extracted].
  unfold extract_opf in Hopf. destruct (opf_extracted st) eqn:Hst.
  - by injection Hopf as <-.
  - destruct (List.find _ (Zip.namelist zipfile)) as [found|] eqn:Hfind.
    + destruct (_extract_opf_metadata rt _); [|discriminate].
      by injection Hopf as <-.
    + apply list_elem_of_In in Hin.
      pose proof (List.find_none _ _ Hfind name Hin) as Hnone. cbv beta in Hnone.
      rewrite Hname in Hnone. discriminate.
Qed.

(** X8.  Once a part that lists an OPF document has been merged, the
    parts that follow change neither the rendition metadata, nor the
    cover href, nor the spine properties, whatever OPF documents they
    hold. *)
Theorem first_opf_decides (files_in_toc : list (str * str)) (update : bool)
    (progress : nat) (st st1 st2 : State) (zipfile : list (str * bytes))
    (rest : list (list (str * bytes))) (name : str) :
  merge_part rt files_in_toc update progress st zipfile = Ok st1 ->
  name ∈ Zip.namelist zipfile -> Str.endswith name (pystr ".opf") = true ->
  merge_parts rt files_in_toc update progress st1 rest = Ok st2 ->
  metadata st2 = metadata st1 /\ cover_href st2 = cover_href st1
  /\ spine_properties st2 = spine_properties st1.
Proof.
  intros Hpart Hin Hname Hrest.
  apply (merge_parts_extracted _ _ _ _ _ _ Hrest).
  by apply (merge_part_finds_opf _ _ _ _ _ _ name Hpart).
Qed.

(** ** More on the package metadata *)

Lemma scan_meta_spine (r : OpfMetadata) (meta : ET.Element) :
  opf_spine_properties (scan_meta r meta) = opf_spine_properties r.
Proof.
  unfold scan_meta, set_rendition. repeat (case_match; cbn; try reflexivity).
Qed.

Lemma scan_metas_spine (l : list ET.Element) (r : OpfMetadata) :
  opf_spine_properties (fold_left scan_meta l r) = opf_spine_properties r.
Proof.
  revert r. induction l as [|meta l IH]; intros r; cbn [fold_left]; [reflexivity|].
  by rewrite IH, scan_meta_spine.
Qed.

(** The scan of one element of the manifest changes the cover only. *)
Lemma scan_item_rest (r : OpfMetadata) (idh : list (str * str)) (item : ET.Element) :
  let r' := (scan_item (r, idh) item).1 in
  opf_spine_properties r' = opf_spine_properties r
  /\ opf_rendition_layout r' = opf_rendition_layout r
  /\ opf_rendition_spread r' = opf_rendition_spread r
  /\ opf_rendition_orientation r' = opf_rendition_orientation r.
Proof. unfold scan_item. cbv zeta. repeat (case_match; cbn; try done). Qed.

Lemma scan_items_rest (l : list ET.Element) (r : OpfMetadata) (idh : list (str * str)) :
  let r' := (fold_left scan_item l (r, idh)).1 in
  opf_spine_properties r' = opf_spine_properties r
  /\ opf_rendition_layout r' = opf_rendition_layout r
  /\ opf_rendition_spread r' = opf_rendition_spread r
  /\ opf_rendition_orientation r' = opf_rendition_orientation r.
Proof.
  revert r idh. induction l as [|item l IH]; intros r idh; cbn [fold_left]; [done|].
  pose proof (scan_item_rest r idh item) as Hstep.
  destruct (scan_item (r, idh) item) as [r1 idh1]. cbn [fst] in Hstep.
  destruct Hstep as (<- & <- & <- & <-). apply IH.
Qed.

(** The scan of the spine changes the spine properties only. *)
Lemma scan_itemrefs_rest (idh : list (str * str)) (l : list ET.Element)
    (r : OpfMetadata) :
  let r' := fold_left (scan_itemref idh) l r in
  opf_cover_id r' = opf_cover_id r
  /\ opf_rendition_layout r' = opf_rendition_layout r
  /\ opf_rendition_spread r' = opf_rendition_spread r
  /\ opf_rendition_orientation r' = opf_rendition_orientation r.
Proof.
  revert r. induction l as [|e l IH]; intros r; cbn [fold_left]; [done|].
  destruct (IH (scan_itemref idh r e)) as (-> & -> & -> & ->).
  unfold scan_itemref. repeat (case_match; cbn; try done).
Qed.

(** When the scan of an element sets the cover href, the cover id and
    the cover href are the id and the href of that element. *)
Lemma scan_item_sets_cover (r : OpfMetadata) (idh : list (str * str))
    (item : ET.Element) :
  let r' := (scan_item (r, idh) item).1 in
  Str.truthy (opf_cover_href r) = false ->
  Str.truthy (opf_cover_href r') = true ->
  ET.get item (pystr "id") = opf_cover_id r'
  /\ ET.get item (pystr "href") = opf_cover_href r'.
Proof.
  unfold scan_item. cbv zeta. intros Hunset. rewrite Hunset. cbn [negb fst].
  rewrite !andb_true_r.
  destruct (Str.truthy (opf_cover_id r)
            && bool_decide (ET.get item (pystr "id") = opf_cover_id r)) eqn:Hid.
  - apply andb_true_iff in Hid as [_ Hid%bool_decide_eq_true].
    cbn [set_cover opf_cover_href opf_cover_id].
    destruct (Str.contains _ _ && _); cbn; intros _; done.
  - rewrite Hunset. cbn [negb]. rewrite andb_true_r.
    destruct (Str.contains _ _); cbn; [done|]. intros H. congruence.
Qed.

Lemma scan_items_cover (l : list ET.Element) (r : OpfMetadata) (idh : list (str * str)) :
  let r' := (fold_left scan_item l (r, idh)).1 in
  Str.truthy (opf_cover_href r) = false ->
  Str.truthy (opf_cover_href r') = true ->
  exists item, item ∈ l
               /\ ET.get item (pystr "id") = opf_cover_id r'
               /\ ET.get item (pystr "href") = opf_cover_href r'.
Proof.
  revert r idh. induction l as [|item l IH]; intros r idh; cbn [fold_left].
  - cbn. intros -> ?. discriminate.
  - intros Hunset Hset.
    pose proof (scan_item_sets_cover r idh item Hunset) as Hstep.
    destruct (scan_item (r, idh) item) as [r1 idh1] eqn:Hscan. cbn [fst] in Hstep.
    destruct (Str.truthy (opf_cover_href r1)) eqn:H1.
    + rewrite (scan_items_href_set l r1 idh1 H1) in *.
      exists item. split; [by left | by apply Hstep].
    + destruct (IH r1 idh1 H1 Hset) as (it & Hin & Hit).
      exists it. split; [by right | done].
Qed.

(** X10.  When the extraction answers with a cover href, the cover id
    and the cover href of the answer are the id and the href of one and
    the same element of the manifest. *)
Theorem cover_id_and_href_agree (root : ET.Element) :
  Str.truthy (opf_cover_href (opf_metadata_of_root root)) = true ->
  exists manifest item,
    find_opf root "manifest" = Some manifest
    /\ item ∈ ET.iter manifest
    /\ ET.get item (pystr "id") = opf_cover_id (opf_metadata_of_root root)
    /\ ET.get item (pystr "href") = opf_cover_href (opf_metadata_of_root root).
Proof.
  unfold opf_metadata_of_root.
  destruct (find_opf root "metadata") as [metadata|]; [|discriminate].
  set (r0 := fold_left scan_meta (ET.iter metadata) unset_result).
  assert (Hr0 : Str.truthy (opf_cover_href r0) = false)
    by (subst r0; by rewrite scan_metas_cover_href).
  destruct (find_opf root "manifest") as [manifest|].
  - pose proof (scan_items_cover (ET.iter manifest) r0 [] Hr0) as Hscan.
    destruct (fold_left scan_item (ET.iter manifest) (r0, [])) as [r1 idh]. cbn [fst] in Hscan.
    assert (Hsame : forall r2,
               opf_cover_href r2 = opf_cover_href r1 -> opf_cover_id r2 = opf_cover_id r1 ->
               Str.truthy (opf_cover_href r2) = true ->
               exists manifest0 item,
                 Some manifest = Some manifest0 /\ item ∈ ET.iter manifest0
                 /\ ET.get item (pystr "id") = opf_cover_id r2
                 /\ ET.get item (pystr "href") = opf_cover_href r2).
    { intros r2 -> -> Hset. destruct (Hscan Hset) as (item & Hin & Hit).
      exists manifest, item. done. }
    destruct (find_opf root "spine") as [spine|]; [|by apply Hsame].
    apply Hsame; [apply scan_itemrefs_cover_href|].
    by destruct (scan_itemrefs_rest idh (ET.iter spine) r1) as (-> & _).
  - assert (Hnone : forall r2, opf_cover_href r2 = opf_cover_href r0 ->
               Str.truthy (opf_cover_href r2) = true -> False) by (intros r2 ->; congruence).
    destruct (find_opf root "spine") as [spine|]; intros Hset; exfalso.
    + by apply (Hnone _ (scan_itemrefs_cover_href [] (ET.iter spine) r0)).
    + by apply (Hnone r0).
Qed.

(** ** The spine properties *)

Lemma dict_set_in {V : Type} (k : str) (v : V) (d : list (str * V)) (kv : str * V) :
  kv ∈ Dict.set k v d -> kv = (k, v) \/ kv ∈ d.
Proof.
  induction d as [|[k0 v0] d IH]; cbn [Dict.set].
  - intros ->%list_elem_of_singleton. by left.
  - destruct (Str.eqb k k0).
    + intros [-> | H]%elem_of_cons; [by left | right; by right].
    + intros [-> | H]%elem_of_cons; [right; by left|].
      apply IH in H as [-> | H]; [by left | right; by right].
Qed.

Lemma scan_items_ids (l : list ET.Element) (r : OpfMetadata) (idh : list (str * str))
    (id href : str) :
  Dict.get id (fold_left scan_item l (r, idh)).2 = Some href ->
  Dict.get id idh = Some href
  \/ exists item, item ∈ l /\ ET.get item (pystr "id") = Some id
                  /\ ET.get item (pystr "href") = Some href.
Proof.
  revert r idh. induction l as [|item l IH]; intros r idh; cbn [fold_left]; [by left|].
  destruct (scan_item (r, idh) item) as [r1 idh1] eqn:Hscan.
  intros [H | (it & Hin & Hit)]%IH; [|right; exists it; split; [by right | done]].
  assert (Hidh : idh1
                 = if Str.truthy (ET.get item (pystr "id"))
                      && Str.truthy (ET.get item (pystr "href"))
                   then Dict.set (default [] (ET.get item (pystr "id")))
                          (default [] (ET.get item (pystr "href"))) idh
                   else idh).
  { unfold scan_item in Hscan. cbv zeta in Hscan. by injection Hscan as _ <-. }
  rewrite Hidh in H.
  destruct (ET.get item (pystr "id")) as [[|c i]|] eqn:Hi;
    cbn [Str.truthy andb] in H; try by left.
  destruct (ET.get item (pystr "href")) as [[|c' h]|] eqn:Hh;
    cbn [Str.truthy andb default from_option] in H; try by left.
  rewrite dict_get_set in H. case_decide as Heq; [|by left].
  injection H as <-. subst id. right. exists item. split; [by left | done].
Qed.

Lemma scan_itemrefs_source (idh : list (str * str)) (l : list ET.Element)
    (r : OpfMetadata) (href props : str) :
  (href, props) ∈ opf_spine_properties (fold_left (scan_itemref idh) l r) ->
  (href, props) ∈ opf_spine_properties r
  \/ props <> []
     /\ exists itemref idref,
          itemref ∈ l /\ has_tag itemref "itemref" = true
          /\ ET.get itemref (pystr "idref") = Some idref
          /\ ET.get itemref (pystr "properties") = Some props
          /\ Dict.get idref idh = Some href.
Proof.
  revert r. induction l as [|e l IH]; intros r; cbn [fold_left]; [by left|].
  intros [H | (Hne & itemref & idref & Hin & Hrest)]%IH;
    [|right; split; [done|]; exists itemref, idref; split; [by right | done]].
  unfold scan_itemref in H. destruct (has_tag e "itemref") eqn:Htag; [|by left].
  destruct (ET.get e (pystr "idref")) as [[|c idref]|] eqn:Hid; try by left.
  destruct (ET.get e (pystr "properties")) as [[|c' pr]|] eqn:Hpr; try by left.
  destruct (Dict.get (c :: idref) idh) as [h|] eqn:Hget; [|by left].
  cbn [set_spine_property opf_spine_properties] in H.
  apply dict_set_in in H as [[= -> ->] | H]; [|by left].
  right. split; [done|]. exists e, (c :: idref). split; [by left | done].
Qed.

(** X11.  Every entry of the spine properties of the answer comes from
    the document: the properties are the non-empty [properties]
    attribute of an [itemref] of the spine, and the href is the href of
    an element of the manifest whose id is the [idref] of that
    [itemref]. *)
Theorem spine_properties_come_from_the_document (root : ET.Element) (href props : str) :
  (href, props) ∈ opf_spine_properties (opf_metadata_of_root root) ->
  props <> []
  /\ exists manifest spine item itemref idref,
       find_opf root "manifest" = Some manifest
       /\ find_opf root "spine" = Some spine
       /\ item ∈ ET.iter manifest /\ itemref ∈ ET.iter spine
       /\ has_tag itemref "itemref" = true
       /\ ET.get item (pystr "id") = Some idref
       /\ ET.get item (pystr "href") = Some href
       /\ ET.get itemref (pystr "idref") = Some idref
       /\ ET.get itemref (pystr "properties") = Some props.
Proof.
  unfold opf_metadata_of_root.
  destruct (find_opf root "metadata") as [metadata|]; [|by intros ?%elem_of_nil].
  set (r0 := fold_left scan_meta (ET.iter metadata) unset_result).
  assert (Hr0 : opf_spine_properties r0 = []) by (subst r0; by rewrite scan_metas_spine).
  destruct (find_opf root "manifest") as [manifest|].
  - pose proof (scan_items_rest (ET.iter manifest) r0 []) as (Hsp & _).
    pose proof (scan_items_ids (ET.iter manifest) r0 []) as Hids.
    destruct (fold_left scan_item (ET.iter manifest) (r0, [])) as [r1 idh].
    cbn [fst snd] in Hsp, Hids. rewrite Hr0 in Hsp.
    destruct (find_opf root "spine") as [spine|];
      [|rewrite Hsp; by intros ?%elem_of_nil].
    intros [H | (Hne & itemref & idref & Hin & Htag & Hid & Hpr & Hget)]%scan_itemrefs_source;
      [rewrite Hsp in H; by apply elem_of_nil in H|].
    split; [done|].
    apply Hids in Hget as [Hget | (item & Hitem & Hi & Hh)]; [discriminate|].
    exists manifest, spine, item, itemref, idref. done.
  - destruct (find_opf root "spine") as [spine|];
      [|rewrite Hr0; by intros ?%elem_of_nil].
    intros [H | (_ & itemref & idref & _ & _ & _ & _ & Hget)]%scan_itemrefs_source;
      [rewrite Hr0 in H; by apply elem_of_nil in H | discriminate].
Qed.

(** X12.  When no element of the manifest has the declared cover id or
    carries [cover-image], the answer has no cover href and keeps the
    declared cover id. *)
Theorem no_candidate_no_cover_href (root metadata manifest : ET.Element) :
  find_opf root "metadata" = Some metadata ->
  find_opf root "manifest" = Some manifest ->
  (forall i, i ∈ ET.iter manifest -> matches_cover (declared_cover_id metadata) i = false) ->
  opf_cover_href (opf_metadata_of_root root) = None
  /\ opf_cover_id (opf_metadata_of_root root) = declared_cover_id metadata.
Proof.
  intros Hmeta Hmanifest Hnone. unfold opf_metadata_of_root. rewrite Hmeta, Hmanifest.
  set (r0 := fold_left scan_meta (ET.iter metadata) unset_result) in *.
  pose proof (scan_items_no_match (ET.iter manifest) r0 [] Hnone) as Hscan.
  destruct (fold_left scan_item (ET.iter manifest) (r0, [])) as [r1 idh].
  cbn [fst] in Hscan. subst r1.
  assert (Hr0 : opf_cover_href r0 = None) by (subst r0; by rewrite scan_metas_cover_href).
  destruct (find_opf root "spine") as [spine|]; [|done].
  rewrite scan_itemrefs_cover_href.
  by destruct (scan_itemrefs_rest idh (ET.iter spine) r0) as (-> & _).
Qed.

(** ** The rendition layout *)

Lemma scan_meta_layout (r : OpfMetadata) (meta : ET.Element) :
  opf_rendition_layout (scan_meta r meta)
  = if declares_layout meta then ET.text meta else opf_rendition_layout r.
Proof.
  unfold scan_meta, declares_layout, set_rendition.
  destruct (has_tag meta "meta"); cbn [andb]; [|reflexivity].
  destruct (Str.eqb (ET.get_or_empty meta (pystr "property")) (pystr "rendition:layout"))
    eqn:Hl.
  - by destruct (Str.eqb (ET.get_or_empty meta (pystr "name")) (pystr "cover")).
  - repeat (case_match; cbn; try reflexivity).
Qed.

Lemma scan_metas_no_layout (l : list ET.Element) (r : OpfMetadata) :
  (forall m, m ∈ l -> declares_layout m = false) ->
  opf_rendition_layout (fold_left scan_meta l r) = opf_rendition_layout r.
Proof.
  revert r. induction l as [|m l IH]; intros r Hl; cbn [fold_left]; [reflexivity|].
  rewrite IH by (intros m' Hm'; apply Hl; by right).
  rewrite scan_meta_layout, (Hl m); [reflexivity | by left].
Qed.

Lemma root_layout (root metadata : ET.Element) :
  find_opf root "metadata" = Some metadata ->
  opf_rendition_layout (opf_metadata_of_root root)
  = opf_rendition_layout (fold_left scan_meta (ET.iter metadata) unset_result).
Proof.
  intros Hmeta. unfold opf_metadata_of_root. rewrite Hmeta.
  set (r0 := fold_left scan_meta (ET.iter metadata) unset_result).
  destruct (find_opf root "manifest") as [manifest|].
  - pose proof (scan_items_rest (ET.iter manifest) r0 []) as (_ & Hl & _).
    destruct (fold_left scan_item (ET.iter manifest) (r0, [])) as [r1 idh].
    cbn [fst] in Hl. rewrite <- Hl.
    destruct (find_opf root "spine") as [spine|]; [|done].
    by destruct (scan_itemrefs_rest idh (ET.iter spine) r1) as (_ & -> & _).
  - destruct (find_opf root "spine") as [spine|]; [|done].
    by destruct (scan_itemrefs_rest [] (ET.iter spine) r0) as (_ & -> & _).
Qed.

(** X13.  The rendition layout of the answer is the text of the last
    [meta] element, in document order, whose property is
    [rendition:layout]; it is unset when the metadata hold none. *)
Theorem last_layout_meta_wins (root metadata : ET.Element) :
  find_opf root "metadata" = Some metadata ->
  (forall before meta after,
      ET.iter metadata = before ++ meta :: after ->
      declares_layout meta = true ->
      (forall m, m ∈ after -> declares_layout m = false) ->
      opf_rendition_layout (opf_metadata_of_root root) = ET.text meta)
  /\ ((forall m, m ∈ ET.iter metadata -> declares_layout m = false) ->
      opf_rendition_layout (opf_metadata_of_root root) = None).
Proof.
  intros Hmeta. rewrite (root_layout _ _ Hmeta). split.
  - intros before meta after -> Hdecl Hafter.
    rewrite fold_left_app. cbn [fold_left].
    rewrite scan_metas_no_layout by done. by rewrite scan_meta_layout, Hdecl.
  - intros Hnone. by rewrite scan_metas_no_layout.
Qed.

(** ** More on the merge of stylesheets *)

Lemma dict_set_nodup {V : Type} (k : str) (v : V) (d : list (str * V)) :
  NoDup (map fst d) -> NoDup (map fst (Dict.set k v d)).
Proof.
  intros Hd. rewrite dict_set_keys_list. case_decide; [done|].
  apply NoDup_app. split; [done|]. split; [|apply NoDup_singleton].
  intros x Hx ->%list_elem_of_singleton. done.
Qed.

Lemma dict_set_prefix {V : Type} (k : str) (v : V) (d : list (str * V)) :
  map fst d `prefix_of` map fst (Dict.set k v d).
Proof.
  rewrite dict_set_keys_list. case_decide; [done|]. by apply prefix_app_r.
Qed.

Lemma add_new_rule_keys (d : list (str * str)) (rule : str) :
  (NoDup (map fst d) -> NoDup (map fst (add_new_rule d rule)))
  /\ map fst d `prefix_of` map fst (add_new_rule d rule).
Proof.
  rewrite add_new_rule_entry. destruct (rule_entry rule) as [[k t]|]; [|done].
  destruct (Dict.get k d) as [old|].
  - destruct (length old <? length t); [|done].
    split; [apply dict_set_nodup | apply dict_set_prefix].
  - split; [apply dict_set_nodup | apply dict_set_prefix].
Qed.

Lemma add_existing_rule_keys (d : list (str * str)) (rule : str) :
  NoDup (map fst d) -> NoDup (map fst (add_existing_rule d rule)).
Proof.
  rewrite add_existing_rule_entry. destruct (rule_entry rule) as [[k t]|]; [|done].
  apply dict_set_nodup.
Qed.

(** X14.  In the merged rules every key occurs once, the keys of the
    stylesheet already cached keep their order, and the keys that the
    new stylesheet brings come after them. *)
Theorem merged_keys_keep_their_place (existing_str new_str : str) :
  NoDup (map fst (merged_rules existing_str new_str))
  /\ map fst (parsed_rules existing_str)
     `prefix_of` map fst (merged_rules existing_str new_str).
Proof.
  unfold merged_rules. fold (parsed_rules existing_str).
  assert (Hparsed : NoDup (map fst (parsed_rules existing_str))).
  { unfold parsed_rules. generalize (Str.split 125%N existing_str).
    assert (Hnil : NoDup (map fst (@nil (str * str)))) by apply NoDup_nil_2.
    revert Hnil. generalize (@nil (str * str)). intros d Hd l. revert d Hd.
    induction l as [|rule l IH]; intros d Hd; cbn [fold_left]; [done|].
    by apply IH, add_existing_rule_keys. }
  revert Hparsed. generalize (parsed_rules existing_str). intros d.
  generalize (Str.split 125%N new_str). intros l. revert d.
  induction l as [|rule l IH]; intros d Hd; cbn [fold_left]; [done|].
  destruct (add_new_rule_keys d rule) as [Hnd Hpre].
  destruct (IH (add_new_rule d rule) (Hnd Hd)) as [Hnd' Hpre'].
  split; [done|]. by etrans.
Qed.

Lemma add_new_rule_longer (d : list (str * str)) (rule k old : str) :
  Dict.get k d = Some old ->
  exists t, Dict.get k (add_new_rule d rule) = Some t /\ length old <= length t.
Proof.
  intros Hold. rewrite get_add_new.
  destruct (rule_entry rule) as [[k' t]|]; [|eauto].
  case_decide; [|eauto]. rewrite Hold. unfold longer_of.
  destruct (Nat.ltb_spec (length old) (length t)); eexists; split; try reflexivity; lia.
Qed.

Lemma dict_get_app {V : Type} (k : str) (d1 d2 : list (str * V)) :
  Dict.get k (d1 ++ d2)
  = match Dict.get k d1 with
    | Some v => Some v
    | None => Dict.get k d2
    end.
Proof.
  induction d1 as [|[k' v] d1 IH]; cbn [app Dict.get]; [reflexivity|].
  by destruct (Str.eqb k k').
Qed.

(** The first loop keeps, under each key, the rule that comes last. *)
Lemma parsed_rules_last (k : str) (l : list str) (d : list (str * str)) :
  Dict.get k (fold_left add_existing_rule l d)
  = match Dict.get k (rev (omap rule_entry l)) with
    | Some t => Some t
    | None => Dict.get k d
    end.
Proof.
  revert d. induction l as [|rule l IH]; intros d; [reflexivity|].
  cbn [fold_left]. rewrite IH, entries_cons, get_add_existing.
  destruct (rule_entry rule) as [[k' t]|]; [|reflexivity].
  cbn [rev]. rewrite dict_get_app. cbn [Dict.get].
  destruct (Dict.get k (rev (omap rule_entry l))); [reflexivity|].
  destruct (decide (k' = k)) as [->|Hne].
  - by rewrite eqb_refl.
  - by rewrite eqb_neq by congruence.
Qed.

(** X15.  Merging a new stylesheet never drops a key of the cached one:
    under every key of a rule of the cached stylesheet the merged
    rules hold a text, and it is at least as long as the last rule of
    the cached stylesheet with that key.  (Of the cached rules that
    share a key only the last one is read.) *)
Theorem merged_rule_never_shorter (existing_str new_str k old : str) :
  Dict.get k (rev (entries_of existing_str)) = Some old ->
  exists t, Dict.get k (merged_rules existing_str new_str) = Some t
            /\ length old <= length t.
Proof.
  intros Hlast.
  assert (Hold : Dict.get k (parsed_rules existing_str) = Some old).
  { unfold parsed_rules. rewrite parsed_rules_last.
    fold (entries_of existing_str). by rewrite Hlast. }
  clear Hlast. revert Hold. unfold merged_rules. fold (parsed_rules existing_str).
  generalize (parsed_rules existing_str). intros d.
  generalize (Str.split 125%N new_str). intros l. revert d old.
  induction l as [|rule l IH]; intros d old Hold; cbn [fold_left]; [eauto|].
  destruct (add_new_rule_longer d rule k old Hold) as (t1 & H1 & Hle1).
  destruct (IH _ _ H1) as (t & Ht & Hle). exists t. split; [done | lia].
Qed.

(** X16.  Every rule of the merged stylesheet is a rule of one of the
    two stylesheets, stripped and closed again, under the key of that
    rule: the merge writes no text of its own. *)
Theorem merged_rules_are_source_rules (existing_str new_str k t : str) :
  Dict.get k (merged_rules existing_str new_str) = Some t ->
  exists rule,
    rule ∈ Str.split 125%N existing_str ++ Str.split 125%N new_str
    /\ Str.contains (pystr "{") rule = true
    /\ _get_css_rule_key rule = Some k
    /\ t = Str.strip rule ++ pystr "}".
Proof.
  intros (rule & Hin & He)%merged_rules_source.
  exists rule. split; [done|].
  destruct (rule_entry_inv _ _ _ He) as [Hk Ht].
  split; [|done]. unfold rule_entry in He. by destruct (Str.contains _ rule).
Qed.

(** ** Files that are not pages *)

Lemma latest_body_other (book book' : EpubBook) (it : EpubItem) (p : str) :
  items book' = items book ++ [it] -> file_name it <> p ->
  latest_body book' p = latest_body book p.
Proof.
  intros Hitems Hne. unfold latest_body. rewrite Hitems, rev_unit.
  cbn [List.find]. by rewrite eqb_neq.
Qed.

Lemma add_file_bodies (files : list (list (str * bytes))) (files_in_toc : list (str * str))
    (zipfile : list (str * bytes)) (st : State) (q : str) :
  zipfile ∈ files -> q ∈ Zip.namelist zipfile ->
  bodies_from files st -> bodies_from files (add_file rt files_in_toc zipfile st q).
Proof.
  intros Hz Hq Hst. rewrite add_file_cases.
  assert (Hkeep : bodies_from files
                    (keep_file rt files_in_toc st q (Zip.read zipfile q))).
  { intros p n Hp Hpage. destruct (decide (q = p)) as [->|Hne].
    - unfold keep_file in Hp. cbn [added_files] in Hp. rewrite lookup_insert_eq in Hp.
      injection Hp as <-. exists zipfile. split; [done|]. split; [done|].
      rewrite latest_body_keep_file. unfold kept_content. by rewrite Hpage.
    - unfold keep_file in Hp. cbn [added_files] in Hp.
      rewrite lookup_insert_ne in Hp by done.
      destruct (Hst p n Hp Hpage) as (part & Hin & Hname & Hbody & Hlen).
      exists part. split; [done|]. split; [done|]. split; [|done].
      rewrite <- Hbody.
      destruct (keep_file_book files_in_toc st q (Zip.read zipfile q))
        as (it & Hit & _ & Hitems & _).
      apply (latest_body_other _ _ it); [done | congruence]. }
  destruct (excluded q); [done|].
  destruct (added_files st !! q) as [old|]; [|done].
  by destruct (old <? _).
Qed.

Lemma merge_parts_bodies (all : list (list (str * bytes))) (files_in_toc : list (str * str))
    (update : bool) (progress : nat) (files : list (list (str * bytes)))
    (st st' : State) :
  merge_parts rt files_in_toc update progress st files = Ok st' ->
  (forall part, part ∈ files -> part ∈ all) ->
  bodies_from all st -> bodies_from all st'.
Proof.
  revert st. induction files as [|zipfile rest IH]; intros st Hrun Hsub Hst.
  - by injection Hrun as <-.
  - apply merge_parts_cons in Hrun as (st1 & Hpart & Hrest).
    apply (IH _ Hrest); [intros part Hin; apply Hsub; by right|].
    apply merge_part_stages in Hpart as (sa & Hopf & ->).
    apply extract_opf_keeps in Hopf as (Ha & Ho & _).
    set (sb := set_css_cache _ sa).
    assert (Hsb : bodies_from all sb).
    { intros p n. subst sb. cbn [set_css_cache added_files output]. rewrite Ha, Ho.
      apply Hst. }
    assert (Hfold : forall names s,
               (forall q, q ∈ names -> q ∈ Zip.namelist zipfile) ->
               bodies_from all s ->
               bodies_from all (fold_left (add_file rt files_in_toc zipfile) names s)).
    { induction names as [|q names IHn]; intros s Hnames Hs; cbn [fold_left]; [done|].
      apply IHn; [intros q' Hq'; apply Hnames; by right|].
      apply add_file_bodies; [apply Hsub; by left | apply Hnames; by left | done]. }
    intros p n. cbn [report added_files output]. by apply Hfold.
Qed.

(** X17.  After a merge that went through, a recorded path that is not
    a page has for the body kept last the body, unchanged, that it has
    in one of the parts, and the recorded size is the length of that
    body. *)
Theorem other_files_are_kept_verbatim (files : list (list (str * bytes)))
    (files_in_toc : list (str * str)) (md : Metadata) (update : bool) (st : State)
    (p : str) (n : nat) :
  _download_epub_in_parts rt files files_in_toc md update = Ok st ->
  added_files st !! p = Some n ->
  Str.endswith p (pystr "html") = false ->
  exists part,
    part ∈ files /\ p ∈ Zip.namelist part
    /\ latest_body (output st) p = Some (Zip.read part p)
    /\ length (Zip.read part p) = n.
Proof.
  intros (_ & sm & Hrun & ->)%download_merge Hp Hpage.
  assert (Hinit : bodies_from files (initial_state md)).
  { intros q m Hq. cbn in Hq. by rewrite lookup_empty in Hq. }
  pose proof (merge_parts_bodies files _ _ _ _ _ _ Hrun (fun _ H => H) Hinit) as Hsm.
  cbn [add_css_items added_files] in Hp.
  destruct (Hsm p n Hp Hpage) as (part & Hin & Hname & Hbody & Hlen).
  exists part. split; [done|]. split; [done|]. split; [|done].
  rewrite <- Hbody. unfold latest_body. cbn [add_css_items output items].
  rewrite rev_app_distr.
  assert (Hcss : forall cache : list (str * bytes),
             (forall k, k ∈ map fst cache -> k <> p) ->
             List.find (fun i => Str.eqb (file_name i) p)
               (rev (map (fun kv => {| file_name := kv.1; content := kv.2;
                                       media_type := Some (pystr "text/css") |}) cache)
                ++ rev (items (output sm)))
             = List.find (fun i => Str.eqb (file_name i) p) (rev (items (output sm)))).
  { intros cache Hcache. induction cache as [|[k v] cache IH]; [done|].
    cbn [map rev]. rewrite <- app_assoc. cbn [app].
    assert (Hk : k <> p) by (apply Hcache; by left).
    assert (Hrest : forall k', k' ∈ map fst cache -> k' <> p)
      by (intros k' Hk'; apply Hcache; by right).
    specialize (IH Hrest). revert IH.
    generalize (rev (map (fun kv : str * bytes =>
                            {| file_name := kv.1; content := kv.2;
                               media_type := Some (pystr "text/css") |}) cache)).
    intros l. induction l as [|i l IHl]; cbn [app List.find file_name fst].
    - intros _. by rewrite eqb_neq.
    - intros Hl. destruct (Str.eqb (file_name i) p); [done|]. by apply IHl. }
  rewrite Hcss; [done|].
  intros k Hk ->.
  destruct (merge_parts_css_names _ _ _ _ _ _ _ Hrun Hk) as [Hk0 | [Hcss' _]];
    [by apply elem_of_nil in Hk0|].
  destruct (initial_book md) as (_ & Hclean0 & _).
  pose proof (merge_parts_keeps
                (fun added book => forall p, is_Some (added !! p) -> excluded p = false)
                files_in_toc update (length files)
                (fun z s q => add_file_clean files_in_toc z s q) _ _ _ Hrun Hclean0 p)
    as Hclean.
  rewrite (excluded_not_css p) in Hcss'; [discriminate|]. apply Hclean. eauto.
Qed.

(** ** The stylesheets of a part *)

Lemma collect_css_get (zipfile : list (str * bytes)) (cache : list (str * bytes))
    (q p : str) :
  Dict.get p (collect_css zipfile cache q)
  = if decide (q = p) then
      if Str.endswith p (pystr ".css") then
        match Zip.read zipfile p with
        | [] => Dict.get p cache
        | content =>
            Some (match Dict.get p cache with
                  | None => content
                  | Some existing => merge_css existing content
                  end)
        end
      else Dict.get p cache
    else Dict.get p cache.
Proof.
  unfold collect_css. destruct (decide (q = p)) as [->|Hne].
  - destruct (Str.endswith p (pystr ".css")); [|done].
    destruct (Zip.read zipfile p) as [|b content]; [done|].
    destruct (Dict.get p cache); by rewrite dict_get_set, decide_True.
  - destruct (Str.endswith q (pystr ".css")); [|done].
    destruct (Zip.read zipfile q) as [|b content]; [done|].
    destruct (Dict.get q cache); by rewrite dict_get_set, decide_False.
Qed.

Lemma collect_css_untouched (zipfile : list (str * bytes)) (names : list str)
    (cache : list (str * bytes)) (p : str) :
  Str.endswith p (pystr ".css") = false \/ p ∉ names \/ Zip.read zipfile p = [] ->
  Dict.get p (fold_left (collect_css zipfile) names cache) = Dict.get p cache.
Proof.
  intros Hp. revert cache. induction names as [|q names IH]; intros cache;
    cbn [fold_left]; [done|].
  rewrite IH.
  - rewrite collect_css_get. case_decide as Hq; [subst q|done].
    destruct Hp as [-> | [Hout | ->]]; [done | | by destruct (Str.endswith _ _)].
    exfalso. apply Hout. by left.
  - destruct Hp as [? | [Hout | ?]]; auto. right. left. intros Hin. apply Hout. by right.
Qed.

(** X18.  Merging a part leaves the cached stylesheet of a path as it
    was when the part does not list the path or holds it empty.  When
    the part lists the path once with some content, the cache then
    holds that content as it is if the path was not cached, and the
    merge of the cached and the new content if it was. *)
Theorem part_updates_stylesheet (files_in_toc : list (str * str)) (update : bool)
    (progress : nat) (st st' : State) (zipfile : list (str * bytes)) (p : str) :
  merge_part rt files_in_toc update progress st zipfile = Ok st' ->
  Str.endswith p (pystr ".css") = true ->
  (p ∉ Zip.namelist zipfile \/ Zip.read zipfile p = [] ->
   Dict.get p (css_cache st') = Dict.get p (css_cache st))
  /\ (forall before after,
         Zip.namelist zipfile = before ++ p :: after ->
         p ∉ before -> p ∉ after -> Zip.read zipfile p <> [] ->
         Dict.get p (css_cache st')
         = Some (match Dict.get p (css_cache st) with
                 | None => Zip.read zipfile p
                 | Some existing => merge_css existing (Zip.read zipfile p)
                 end)).
Proof.
  intros Hpart Hcss. rewrite (merge_part_css_cache _ _ _ _ _ _ Hpart). split.
  - intros Hp. apply collect_css_untouched. by right.
  - intros before after -> Hb Ha Hread.
    rewrite fold_left_app. cbn [fold_left].
    rewrite collect_css_untouched by (right; by left).
    rewrite collect_css_get, decide_True, Hcss by done.
    rewrite collect_css_untouched by (right; by left).
    by destruct (Zip.read zipfile p).
Qed.

(** ** The dimensions hold digits only *)

Lemma greedy_split {A : Type} (p : N -> bool) (k : str -> option A) (s : str) (m : A) :
  Re.greedy p k s = Some m ->
  exists pre t, s = pre ++ t /\ Forall (fun c => p c = true) pre /\ k t = Some m.
Proof.
  induction s as [|x s IH]; cbn [Re.greedy]; intros H.
  - exists [], []. done.
  - destruct (p x) eqn:Hx; [|exists [], (x :: s); done].
    destruct (Re.greedy p k s) as [m'|] eqn:Hg; [|exists [], (x :: s); done].
    destruct (IH H) as (pre & t & -> & Hpre & Hk).
    exists (x :: pre), t. split; [done|]. split; [by constructor | done].
Qed.

Lemma exec_group_class (c : N -> bool) (l gs : str) (g : option str) (s : str)
    (m : option str * str) :
  Re.exec [Re.Open; Re.Plus c; Re.Close; Re.Lit l] gs g s = Some m ->
  exists x, m.1 = Some x /\ Forall (fun ch => c ch = true) x.
Proof.
  cbn [Re.exec]. destruct s as [|x s']; [discriminate|].
  destruct (c x) eqn:Hx; [|discriminate].
  intros (pre & t & -> & Hpre & Ht)%greedy_split.
  destruct (Str.startswith t l); [|discriminate].
  injection Ht as <-. cbn [fst]. eexists. split; [reflexivity|].
  cbn [length]. rewrite length_app.
  replace (S (length pre + length t) - length t) with (S (length pre)) by lia.
  cbn [take]. rewrite take_app_length. by constructor.
Qed.

Lemma body_dimension_digits (name s g : str) :
  Re.search_group (body_dimension_re rt name) s = Some g ->
  Forall (fun c => isdecimal rt c = true) g.
Proof.
  unfold Re.search_group.
  destruct (Re.search (body_dimension_re rt name) s) as [[[g'|] rest]|] eqn:Hs;
    try discriminate.
  intros [= ->]. revert Hs. induction s as [|x s IH]; cbn [Re.search].
  all: destruct (Re.exec (body_dimension_re rt name) [] None _) as [m|] eqn:He;
    [intros [= ->] | try discriminate; try exact IH].
  all: unfold body_dimension_re in He.
  all: do 6 (apply exec_skip in He as (? & He); [|exact I]).
  all: apply exec_group_class in He as (y & Hy & Hd); cbn in Hy; congruence.
Qed.

(** X19.  The width and the height read from a stylesheet consist of
    decimal digits only: no other text of the stylesheet can reach the
    viewport tag or the inline styles of the page. *)
Theorem dimensions_are_digits (css_content : option bytes) (width height : str) :
  css_dimensions rt css_content = (Some width, Some height) ->
  Forall (fun c => isdecimal rt c = true) width
  /\ Forall (fun c => isdecimal rt c = true) height.
Proof.
  unfold css_dimensions. destruct css_content as [[|b css]|]; try discriminate.
  destruct (Utf8.decode (b :: css)) as [css_str|]; [|discriminate].
  intros [= Hw Hh]. split; by eapply body_dimension_digits.
Qed.

End Merge.

Section Cover.
Context (rt : Runtime).

(** ** The cover found in the first page *)

Lemma nonempty_true {A : Type} (l : list A) : nonempty l = true -> l <> [].
Proof. by destruct l. Qed.

Lemma item_sizes_in (book : EpubBook) (name : str) (size : nat) :
  (name, size) ∈ item_sizes book ->
  exists it, it ∈ items book /\ file_name it = name /\ name <> []
             /\ size = length (content it) /\ 0 < size.
Proof.
  unfold item_sizes.
  assert (Hgen : forall l acc,
    (name, size) ∈ fold_left
      (fun sizes it =>
         if nonempty (file_name it) && nonempty (content it)
         then Dict.set (file_name it) (length (content it)) sizes
         else sizes) l acc ->
    (name, size) ∈ acc
    \/ exists it, it ∈ l /\ file_name it = name /\ name <> []
                  /\ size = length (content it) /\ 0 < size).
  { induction l as [|it l IH]; intros acc; cbn [fold_left]; [by left|].
    intros [Hacc | (it' & Hin & H)]%IH.
    - destruct (nonempty (file_name it)) eqn:Hn; cbn [andb] in Hacc;
        [|by left].
      destruct (nonempty (content it)) eqn:Hc; [|by left].
      apply dict_set_in in Hacc as [Heq | Hacc]; [|by left].
      injection Heq as -> ->. right. exists it.
      split; [by left|]. split; [reflexivity|].
      split; [by apply nonempty_true|]. split; [reflexivity|].
      destruct (content it); [discriminate | cbn; lia].
    - right. exists it'. split; [by right | exact H]. }
  intros [H%elem_of_nil | H]%Hgen; [done | exact H].
Qed.

Lemma stored_size_some (sizes : list (str * nat)) (p : str) (n : nat) :
  stored_size sizes p = Some n ->
  exists name, (name, n) ∈ sizes /\ Str.endswith name p = true.
Proof.
  unfold stored_size.
  destruct (List.find _ sizes) as [[name n']|] eqn:Hfind; [|discriminate].
  intros [= <-]. apply List.find_some in Hfind as [Hin Hend].
  exists name. split; [by apply list_elem_of_In | exact Hend].
Qed.

(** The loop over the images keeps the first of the largest images
    that are stored, or nothing when none is stored with a content. *)
Lemma pick_image_fold (page_dir : str) (sizes : list (str * nat)) (l : list str) :
  let target src := Path.normpath (Path.join page_dir src) in
  let best := fold_left (pick_image page_dir sizes) l (None, 0) in
  (best = (None, 0)
   /\ forall src n, src ∈ l -> stored_size sizes (target src) = Some n -> n = 0)
  \/ exists l1 src l2,
       l = l1 ++ src :: l2 /\ best.1 = Some (target src)
       /\ stored_size sizes (target src) = Some best.2 /\ 0 < best.2
       /\ (forall src' n, src' ∈ l1 ->
             stored_size sizes (target src') = Some n -> n < best.2)
       /\ (forall src' n, src' ∈ l2 ->
             stored_size sizes (target src') = Some n -> n <= best.2).
Proof.
  intros target. induction l as [|x l IH] using rev_ind; cbn zeta.
  - left. split; [reflexivity|]. by intros src n H%elem_of_nil.
  - rewrite fold_left_app. cbn [fold_left]. cbn zeta in IH.
    set (best := fold_left (pick_image page_dir sizes) l (None, 0)) in *.
    assert (Hstep : pick_image page_dir sizes best x
                    = match stored_size sizes (target x) with
                      | Some size => if best.2 <? size then (Some (target x), size) else best
                      | None => best
                      end) by reflexivity.
    rewrite Hstep. clear Hstep.
    destruct (stored_size sizes (target x)) as [size|] eqn:Hx.
    + destruct (best.2 <? size) eqn:Hlt.
      * apply Nat.ltb_lt in Hlt. right. exists l, x, []. cbn [fst snd].
        split; [reflexivity|]. split; [reflexivity|]. split; [exact Hx|].
        split; [lia|]. split; [|by intros src' n H%elem_of_nil].
        intros src' n Hin Hs.
        destruct IH as [[Hb Hall] | (l1 & src & l2 & -> & _ & Hs0 & _ & H1 & H2)].
        -- rewrite (Hall _ _ Hin Hs). lia.
        -- apply elem_of_app in Hin as [Hin | Hin].
           ++ specialize (H1 _ _ Hin Hs). lia.
           ++ apply elem_of_cons in Hin as [-> | Hin].
              ** rewrite Hs0 in Hs. injection Hs as <-. exact Hlt.
              ** specialize (H2 _ _ Hin Hs). lia.
      * apply Nat.ltb_ge in Hlt.
        destruct IH as [[Hb Hall] | (l1 & src & l2 & -> & Hb & Hs & Hpos & H1 & H2)].
        -- left. split; [exact Hb|].
           intros src n [Hin | ->%list_elem_of_singleton]%elem_of_app Hsrc.
           ++ by apply (Hall src).
           ++ rewrite Hx in Hsrc. injection Hsrc as <-.
              rewrite Hb in Hlt. cbn in Hlt. lia.
        -- right. exists l1, src, (l2 ++ [x]).
           split; [by rewrite <- app_assoc|]. split; [exact Hb|].
           split; [exact Hs|]. split; [exact Hpos|]. split; [exact H1|].
           intros src' n [Hin | ->%list_elem_of_singleton]%elem_of_app Hsrc.
           ++ by apply (H2 src').
           ++ rewrite Hx in Hsrc. injection Hsrc as <-. exact Hlt.
    + destruct IH as [[Hb Hall] | (l1 & src & l2 & -> & Hb & Hs & Hpos & H1 & H2)].
      * left. split; [exact Hb|].
        intros src n [Hin | ->%list_elem_of_singleton]%elem_of_app Hsrc.
        -- by apply (Hall src).
        -- rewrite Hx in Hsrc. discriminate.
      * right. exists l1, src, (l2 ++ [x]).
        split; [by rewrite <- app_assoc|]. split; [exact Hb|].
        split; [exact Hs|]. split; [exact Hpos|]. split; [exact H1|].
        intros src' n [Hin | ->%list_elem_of_singleton]%elem_of_app Hsrc.
        -- by apply (H2 src').
        -- rewrite Hx in Hsrc. discriminate.
Qed.

Lemma infer_cover_inv (book : EpubBook) (p : str) :
  infer_cover rt book = Some p ->
  exists e text,
    List.find (is_content_page rt) (spine book) = Some e
    /\ Utf8.decode (content (spine_item e)) = Some text
    /\ (fold_left (pick_image (Path.dirname (file_name (spine_item e))) (item_sizes book))
          (findall_img 0 text) (None, 0)).1 = Some p
    /\ p <> [].
Proof.
  unfold infer_cover.
  destruct (List.find _ (spine book)) as [e|] eqn:Hfind; [|discriminate].
  cbv zeta. destruct (nonempty (content (spine_item e))); [|discriminate].
  destruct (Utf8.decode (content (spine_item e))) as [text|] eqn:Hdec; [|discriminate].
  destruct (nonempty (findall_img 0 text)); [|discriminate].
  destruct (Str.truthy _) eqn:Htruthy; [|discriminate].
  intros H. exists e, text. split; [reflexivity|]. split; [exact Hdec|].
  split; [exact H|]. rewrite H in Htruthy. by destruct p.
Qed.

Lemma startswith_split (s p : str) :
  Str.startswith s p = true -> s = p ++ drop (length p) s.
Proof.
  revert s. induction p as [|a p IH]; intros s; cbn [Str.startswith].
  - by rewrite drop_0.
  - destruct s as [|c s]; [discriminate|].
    intros [->%N.eqb_eq H]%andb_prop. cbn. f_equal. by apply IH.
Qed.

(** A match of the pattern at the start of a text is an [img] tag with
    a quoted [src] attribute, and the group is what the quotes hold. *)
Lemma img_at_inv (s g rest : str) :
  img_at s = Some (g, rest) ->
  exists mid q q',
    s = pystr "<img" ++ mid ++ pystr "src=" ++ q :: g ++ q' :: rest
    /\ mid <> [] /\ Forall (fun c => Re.none_of (pystr ">") c = true) mid
    /\ quote q = true /\ quote q' = true
    /\ g <> [] /\ Forall (fun c => quote c = false) g.
Proof.
  unfold img_at.
  destruct (Str.startswith s (pystr "<img")) eqn:Himg; [|discriminate].
  apply startswith_split in Himg. change (length (pystr "<img")) with 4 in Himg.
  destruct (drop 4 s) as [|x s'] eqn:Hdrop; [discriminate|].
  destruct (Re.none_of (pystr ">") x) eqn:Hx; [|discriminate].
  intros (pre & t & -> & Hpre & Ht)%greedy_split.
  unfold img_src in Ht.
  destruct (Str.startswith t (pystr "src=")) eqn:Hsrc; [|discriminate].
  apply startswith_split in Hsrc. change (length (pystr "src=")) with 4 in Hsrc.
  destruct (drop 4 t) as [|q gs] eqn:Hdrop'; [discriminate|].
  destruct (quote q) eqn:Hq; [|discriminate].
  destruct gs as [|y gs']; [discriminate|].
  destruct (quote y) eqn:Hy; [discriminate|]. cbn [negb] in Ht.
  apply greedy_split in Ht as (grp & u & -> & Hgrp & Hu).
  unfold img_close in Hu. destruct u as [|q' rest']; [discriminate|].
  destruct (quote q') eqn:Hq'; [|discriminate].
  injection Hu as Hg' <-.
  assert (Hg : g = y :: grp).
  { rewrite <- Hg'.
    replace (length (grp ++ q' :: rest') - length rest')
      with (length (y :: grp)) by (rewrite length_app; cbn [length]; lia).
    apply (take_app_length (y :: grp)). }
  clear Hg'. exists (x :: pre), q, q'.
  rewrite Hg. split.
  - rewrite Himg, Hsrc. reflexivity.
  - split; [done|]. split; [by constructor|]. split; [done|]. split; [done|].
    split; [done|]. constructor; [done|].
    eapply Forall_impl; [exact Hgrp|]. intros c Hc. by apply negb_true_iff.
Qed.

(** X20.  The cover found in the first content page is the target of
    one of its images, resolved against the directory of the page; that
    target is stored with a content, every image before it in the page
    is stored with a smaller content, and no image after it with a
    larger one: the search returns the first of the largest images. *)
Theorem inferred_cover_is_first_largest_image (book : EpubBook) (e : SpineEntry)
    (text p : str) :
  List.find (is_content_page rt) (spine book) = Some e ->
  Utf8.decode (content (spine_item e)) = Some text ->
  infer_cover rt book = Some p ->
  let target src :=
    Path.normpath (Path.join (Path.dirname (file_name (spine_item e))) src) in
  exists before src after size,
    findall_img 0 text = before ++ src :: after
    /\ p = target src
    /\ stored_size (item_sizes book) p = Some size /\ 0 < size
    /\ (forall src' n, src' ∈ before ->
          stored_size (item_sizes book) (target src') = Some n -> n < size)
    /\ (forall src' n, src' ∈ after ->
          stored_size (item_sizes book) (target src') = Some n -> n <= size).
Proof.
  intros Hfind Hdec (e' & text' & Hfind' & Hdec' & Hbest & _)%infer_cover_inv target.
  rewrite Hfind in Hfind'. injection Hfind' as <-.
  rewrite Hdec in Hdec'. injection Hdec' as <-.
  destruct (pick_image_fold (Path.dirname (file_name (spine_item e)))
              (item_sizes book) (findall_img 0 text))
    as [[Hnone _] | (l1 & src & l2 & Heq & Hb & Hs & Hpos & H1 & H2)].
  - rewrite Hnone in Hbest. discriminate.
  - rewrite Hbest in Hb. injection Hb as ->.
    exists l1, src, l2. eexists. split; [exact Heq|]. split; [reflexivity|].
    split; [exact Hs|]. split; [exact Hpos|]. split; [exact H1 | exact H2].
Qed.

(** X21.  When the OPF gave no cover and the search ends with one, the
    layout is pre-paginated and the cover names an item of the book:
    the item that gets marked is found, and its path ends with the
    cover href. *)
Theorem inferred_cover_names_an_item (st : State) (p : str) :
  cover_href st = None ->
  resolved_cover rt st = Some p ->
  pre_paginated (metadata st) = true
  /\ exists it, cover_item (output st) (Some p) = Some it
                /\ it ∈ items (output st)
                /\ file_name it <> []
                /\ Str.endswith (file_name it) p = true.
Proof.
  intros Hnone. unfold resolved_cover. rewrite Hnone. cbn [Str.truthy negb andb].
  destruct (pre_paginated (metadata st)); [|discriminate].
  destruct (infer_cover rt (output st)) as [best|] eqn:Hinf; [|discriminate].
  intros [= ->]. split; [reflexivity|].
  apply infer_cover_inv in Hinf as (e & text & _ & _ & Hbest & Hp).
  destruct (pick_image_fold (Path.dirname (file_name (spine_item e)))
              (item_sizes (output st)) (findall_img 0 text))
    as [[Hb _] | (l1 & src & l2 & _ & Hb & Hs & _)];
    [rewrite Hb in Hbest; discriminate|].
  rewrite Hbest in Hb. injection Hb as Hb. rewrite <- Hb in Hs.
  apply stored_size_some in Hs as (name & Hin & Hend).
  apply item_sizes_in in Hin as (it0 & Hin0 & Hname & Hne & _).
  destruct p as [|c p']; [done|]. cbn [cover_item].
  destruct (List.find _ (items (output st))) as [it|] eqn:Hfind.
  - apply List.find_some in Hfind as [Hin [Hn Hends]%andb_prop].
    exists it. split; [reflexivity|]. split; [by apply list_elem_of_In|].
    split; [by apply nonempty_true | exact Hends].
  - apply list_elem_of_In in Hin0.
    pose proof (List.find_none _ _ Hfind it0 Hin0) as Hno. cbv beta in Hno.
    rewrite Hname, Hend in Hno. by destruct name.
Qed.

(** X22.  Every image source that the search reads from a page stands
    in the page inside an [img] tag: after the tag name come one or
    more characters other than the closing bracket, then [src=], a
    quote, the source, and a quote; the source is not empty and holds
    no quote. *)
Theorem image_sources_are_quoted (skip : nat) (s g : str) :
  g ∈ findall_img skip s ->
  exists before mid q q' after,
    s = before ++ pystr "<img" ++ mid ++ pystr "src=" ++ q :: g ++ q' :: after
    /\ mid <> [] /\ Forall (fun c => Re.none_of (pystr ">") c = true) mid
    /\ quote q = true /\ quote q' = true
    /\ g <> [] /\ Forall (fun c => quote c = false) g.
Proof.
  revert skip. induction s as [|x s IH]; intros skip; cbn [findall_img].
  - by intros H%elem_of_nil.
  - assert (Hrest : forall k, g ∈ findall_img k s ->
      exists before mid q q' after,
        x :: s = before ++ pystr "<img" ++ mid ++ pystr "src=" ++ q :: g ++ q' :: after
        /\ mid <> [] /\ Forall (fun c => Re.none_of (pystr ">") c = true) mid
        /\ quote q = true /\ quote q' = true
        /\ g <> [] /\ Forall (fun c => quote c = false) g).
    { intros k (before & mid & q & q' & after & -> & H)%IH.
      by exists (x :: before), mid, q, q', after. }
    destruct skip as [|k]; [|by apply Hrest].
    destruct (img_at (x :: s)) as [[g0 rest]|] eqn:Hat; [|by apply Hrest].
    intros [-> | Hin]%elem_of_cons; [|by apply (Hrest _ Hin)].
    apply img_at_inv in Hat as (mid & q & q' & Heq & H).
    by exists [], mid, q, q', rest.
Qed.

End Cover.

(** * Closed instances *)

(** A page that is not UTF-8, and a page whose stylesheet gives no
    height. *)
Lemma fix_fixed_layout_page_fail_soft_witness :
  Utf8.decode [Byte.xff] = None
  /\ _fix_fixed_layout_page ascii_runtime [Byte.xff]
       (Some (pybytes "body{width:600px;height:800px;}")) = [Byte.xff]
  /\ (css_dimensions ascii_runtime (Some (pybytes "body{width:600px;}"))).2 = None
  /\ _fix_fixed_layout_page ascii_runtime (pybytes "<html><head></head></html>")
       (Some (pybytes "body{width:600px;}"))
     = pybytes "<html><head></head></html>".
Proof.
  split; [reflexivity|]. split.
  - apply (fix_fixed_layout_page_fail_soft ascii_runtime). left. reflexivity.
  - split; [reflexivity|].
    apply (fix_fixed_layout_page_fail_soft ascii_runtime). right. right. left.
    reflexivity.
Defined.

(** A page whose head tag carries an attribute gets no viewport. *)
Lemma viewport_needs_plain_head_witness :
  let page := pybytes "<html><head lang=en><title>t</title></head><body/></html>" in
  let css := Some (pybytes "body{width:600px;height:800px;}") in
  Utf8.decode page = Some (pystr "<html><head lang=en><title>t</title></head><body/></html>")
  /\ css_dimensions ascii_runtime css = (Some (pystr "600"), Some (pystr "800"))
  /\ _fix_fixed_layout_page ascii_runtime page css
     = Utf8.encode
         (fix_styles (pystr "600") (pystr "800")
            (pystr "<html><head lang=en><title>t</title></head><body/></html>")).
Proof.
  intros page css. split; [reflexivity|]. split; [reflexivity|].
  exact (proj1 (proj1 (proj2 (viewport_needs_plain_head ascii_runtime page css
                                (pystr "<html><head lang=en><title>t</title></head><body/></html>")
                                (pystr "600") (pystr "800") eq_refl eq_refl))
                  (or_introl eq_refl))).
Defined.



(** C4 as worded fails on the sample package: the metadata name the item
    [c] as the cover, and the extraction answers with the item marked
    [cover-image] that precedes it in the manifest. *)
Lemma cover_href_not_by_priority :
  declared_cover_id sample_metadata = Some (pystr "c")
  /\ cover_href_by_priority (declared_cover_id sample_metadata) (ET.iter sample_manifest)
     = Some (pystr "c.jpg")
  /\ opf_cover_href (opf_metadata_of_root sample_package) = Some (pystr "x.jpg")
  /\ opf_cover_href (opf_metadata_of_root sample_package)
     <> cover_href_by_priority (declared_cover_id sample_metadata)
          (ET.iter sample_manifest).
Proof. repeat split; try reflexivity. vm_compute. discriminate. Qed.

Lemma cover_href_first_candidate_witness :
  opf_cover_href (opf_metadata_of_root sample_package) = Some (pystr "x.jpg").
Proof.
  apply (cover_href_first_candidate sample_package sample_metadata sample_manifest
           (opf_element "item"
              [("id", "x"); ("href", "x.jpg"); ("properties", "cover-image")] [])
           [sample_manifest]
           [opf_element "item" [("id", "c"); ("href", "c.jpg")] []]).
  - reflexivity.
  - reflexivity.
  - reflexivity.
  - intros i Hi. apply list_elem_of_singleton in Hi as ->. reflexivity.
  - reflexivity.
  - reflexivity.
Defined.

(** Two font faces of different families: one stylesheet each; then
    next to a third rule; and a font face without a family, between
    two rules of a stylesheet. *)
Lemma font_faces_keyed_by_family_witness :
  (_get_css_rule_key (pystr "@font-face{font-family:A;src:url(a)")
   = Some (pystr "@font-face:" ++ pystr "A")
   /\ _get_css_rule_key (pystr "@font-face{font-family:B;src:url(b)")
      = Some (pystr "@font-face:" ++ pystr "B")
   /\ _get_css_rule_key (pystr "@font-face{font-family:A;src:url(a)")
      <> _get_css_rule_key (pystr "@font-face{font-family:B;src:url(b)")
   /\ merge_css (pybytes "@font-face{font-family:A;src:url(a)}")
        (pybytes "@font-face{font-family:B;src:url(b)}")
      = Utf8.encode
          ((Str.strip (pystr "@font-face{font-family:A;src:url(a)") ++ pystr "}") ++ nl
           ++ (Str.strip (pystr "@font-face{font-family:B;src:url(b)") ++ pystr "}")))
  /\ (exists texts i j,
        merge_css (pybytes "@font-face{font-family:A;src:url(a)}p{x:1}")
          (pybytes "p{x:22}@font-face{font-family:B;src:url(b)}")
        = Utf8.encode (Str.join nl texts)
        /\ i <> j
        /\ texts !! i = Some (Str.strip (pystr "@font-face{font-family:A;src:url(a)")
                              ++ pystr "}")
        /\ texts !! j = Some (Str.strip (pystr "@font-face{font-family:B;src:url(b)")
                              ++ pystr "}"))
  /\ (merge_css (pybytes "p{x:1}@font-face{src:url(c)}q{y:1}") (pybytes "r{z:1}")
      = merge_css (pybytes "p{x:1}q{y:1}") (pybytes "r{z:1}")
      /\ merge_css (pybytes "r{z:1}") (pybytes "p{x:1}@font-face{src:url(c)}q{y:1}")
         = merge_css (pybytes "r{z:1}") (pybytes "p{x:1}q{y:1}")).
Proof.
  split; [|split].
  - apply (proj1 font_faces_keyed_by_family
             (pybytes "@font-face{font-family:A;src:url(a)}")
             (pybytes "@font-face{font-family:B;src:url(b)}")
             (pystr "@font-face{font-family:A;src:url(a)")
             (pystr "@font-face{font-family:B;src:url(b)")
             (pystr "A") (pystr "B")); try reflexivity.
    discriminate.
  - apply (proj1 (proj2 font_faces_keyed_by_family)
             (pybytes "@font-face{font-family:A;src:url(a)}p{x:1}")
             (pybytes "p{x:22}@font-face{font-family:B;src:url(b)}")
             (pystr "@font-face{font-family:A;src:url(a)")
             (pystr "@font-face{font-family:B;src:url(b)")
             (pystr "A") (pystr "B")); try reflexivity.
    + discriminate.
    + vm_compute. left.
    + vm_compute. do 3 right. left.
    + intros rule Hin. vm_compute in Hin.
      repeat (apply elem_of_cons in Hin as [-> | Hin];
              [first [reflexivity | vm_compute; discriminate]|]).
      by apply elem_of_nil in Hin.
    + intros rule Hin. vm_compute in Hin.
      repeat (apply elem_of_cons in Hin as [-> | Hin];
              [first [reflexivity | vm_compute; discriminate]|]).
      by apply elem_of_nil in Hin.
  - apply (proj2 (proj2 font_faces_keyed_by_family)
             (pybytes "p{x:1}@font-face{src:url(c)}q{y:1}") (pybytes "p{x:1}q{y:1}")
             (pybytes "r{z:1}") (pystr "p{x:1}") (pystr "@font-face{src:url(c)")
             (pystr "q{y:1}")); try reflexivity.
    right. exists (pystr "p{x:1"). reflexivity.
Defined.

(** C3 as worded fails on a tie: two rules of the same key and the same
    length are merged into the one that came first.  It fails without
    a tie: the merged rules come in the order of the stylesheet that
    arrived first.  And it fails for two rules of one key in the
    stylesheet already cached: the last one is kept, longer or not. *)
Lemma merge_css_order_matters :
  _get_css_rule_key (pystr "a{x:1") = _get_css_rule_key (pystr "a{x:2")
  /\ merge_css (pybytes "a{x:1}") (pybytes "a{x:2}") = pybytes "a{x:1}"
  /\ merge_css (pybytes "a{x:2}") (pybytes "a{x:1}") = pybytes "a{x:2}"
  /\ merge_css (pybytes "a{x:1}") (pybytes "a{x:2}")
     <> merge_css (pybytes "a{x:2}") (pybytes "a{x:1}")
  /\ merge_css (pybytes "a{x:1}b{y:22}") (pybytes "b{y:2}a{x:11}")
     <> merge_css (pybytes "b{y:2}a{x:11}") (pybytes "a{x:1}b{y:22}")
  /\ _get_css_rule_key (pystr "a{xxxx") = _get_css_rule_key (pystr "a{y")
  /\ merge_css (pybytes "a{xxxx}a{y}") (pybytes "b{z}")
     = Utf8.encode (pystr "a{y}" ++ nl ++ pystr "b{z}").
Proof. repeat split; try reflexivity; vm_compute; discriminate. Qed.

(** Two stylesheets of two and three rules, then two of one rule each. *)
Lemma longer_rule_wins_witness :
  (Dict.get (pystr "a")
     (merged_rules (pystr "a{x:1}b{y:22}") (pystr "b{y:2}a{x:11}c{z}"))
   = Some (pystr "a{x:11}")
   /\ Dict.get (pystr "b")
        (merged_rules (pystr "a{x:1}b{y:22}") (pystr "b{y:2}a{x:11}c{z}"))
      = Some (pystr "b{y:22}")
   /\ map fst (merged_rules (pystr "a{x:1}b{y:22}") (pystr "b{y:2}a{x:11}c{z}"))
      = [pystr "a"; pystr "b"; pystr "c"]
   /\ forall k, Dict.get k (merged_rules (pystr "a{x:1}b{y:22}") (pystr "b{y:2}a{x:11}c{z}"))
                = Dict.get k (merged_rules (pystr "b{y:2}a{x:11}c{z}") (pystr "a{x:1}b{y:22}")))
  /\ (merge_css_text (pystr "a{x:1" ++ pystr "}") (pystr "a{x:22" ++ pystr "}")
      = Str.strip (pystr "a{x:22") ++ pystr "}"
      /\ merge_css_text (pystr "a{x:22" ++ pystr "}") (pystr "a{x:1" ++ pystr "}")
         = Str.strip (pystr "a{x:22") ++ pystr "}").
Proof.
  split.
  - destruct (proj1 longer_rule_wins (pystr "a{x:1}b{y:22}") (pystr "b{y:2}a{x:11}c{z}"))
      as (Hget & Hkeys & Hcomm).
    + refine (bool_decide_unpack _ _). vm_compute. reflexivity.
    + refine (bool_decide_unpack _ _). vm_compute. reflexivity.
    + split; [|split; [|split]].
      * rewrite Hget. vm_compute. reflexivity.
      * rewrite Hget. vm_compute. reflexivity.
      * rewrite Hkeys. vm_compute. reflexivity.
      * apply Hcomm. intros k t1 t2 H1 H2.
        apply dict_get_lookup in H1 as [i1 H1%list_elem_of_lookup_2].
        apply dict_get_lookup in H2 as [i2 H2%list_elem_of_lookup_2].
        vm_compute in H1, H2.
        repeat match goal with
               | H : list_elem_of _ (_ :: _) |- _ => apply elem_of_cons in H as [H | H]
               | H : _ ∈ _ :: _ |- _ => apply elem_of_cons in H as [H | H]
               | H : _ ∈ [] |- _ => by apply elem_of_nil in H
               end;
          injection H1 as -> ->;
          first [by discriminate H2 | injection H2 as ->; vm_compute; lia].
  - apply (proj1 (proj2 longer_rule_wins (pystr "a{x:1") (pystr "a{x:22") (pystr "a")
                    eq_refl eq_refl eq_refl eq_refl eq_refl eq_refl)).
    vm_compute. lia.
Defined.

(** A file met for the first time. *)
Lemma size_decides_what_is_kept_witness :
  excluded (pystr "chapter.txt") = false
  /\ add_file ascii_runtime [] (single_file "chapter.txt" "abc")
       (initial_state no_rendition) (pystr "chapter.txt")
     = keep_file ascii_runtime [] (initial_state no_rendition) (pystr "chapter.txt")
         (pybytes "abc").
Proof.
  split; [reflexivity|].
  apply (proj1 (size_decides_what_is_kept ascii_runtime [] (single_file "chapter.txt" "abc")
                  (initial_state no_rendition) (pystr "chapter.txt") eq_refl)).
  reflexivity.
Defined.

(** A part of one page, merged twice. *)
Lemma merge_part_twice_witness :
  exists st1,
    merge_part ascii_runtime [] false 1 (initial_state no_rendition)
      (single_file "page1.xhtml" "<html/>") = Ok st1
    /\ exists st2,
         merge_part ascii_runtime [] false 1 st1 (single_file "page1.xhtml" "<html/>")
         = Ok st2
         /\ added_files st2 = added_files st1
         /\ output st2 = output st1.
Proof.
  eexists. split; [reflexivity|].
  apply (merge_part_twice ascii_runtime [] false 1 (initial_state no_rendition)).
  reflexivity.
Defined.

(** * Closed instances of the further properties *)

Lemma excluded_paths_stay_out_witness :
  exists st,
    _download_epub_in_parts ascii_runtime
      [single_file "mimetype" "application/epub+zip"; single_file "page1.xhtml" "<html/>"]
      [] no_rendition true = Ok st
    /\ forall p, is_Some (added_files st !! p) -> excluded p = false.
Proof.
  eexists. split; [reflexivity|].
  exact (proj1 (excluded_paths_stay_out ascii_runtime
                  [single_file "mimetype" "application/epub+zip";
                   single_file "page1.xhtml" "<html/>"]
                  [] no_rendition true _ eq_refl)).
Defined.

Lemma recorded_paths_are_the_items_witness :
  exists st,
    _download_epub_in_parts ascii_runtime [single_file "page1.xhtml" "<html/>"]
      [] no_rendition true = Ok st
    /\ (is_Some (added_files st !! pystr "page1.xhtml")
        <-> pystr "page1.xhtml" ∈ map file_name (items (output st))
            /\ Str.endswith (pystr "page1.xhtml") (pystr ".css") = false).
Proof.
  eexists. split; [reflexivity|].
  exact (recorded_paths_are_the_items ascii_runtime [single_file "page1.xhtml" "<html/>"]
           [] no_rendition true _ (pystr "page1.xhtml") eq_refl).
Defined.

Lemma spine_and_toc_hold_pages_witness :
  exists st,
    _download_epub_in_parts ascii_runtime [single_file "page1.xhtml" "<html/>"]
      [] no_rendition true = Ok st
    /\ forall e, e ∈ spine (output st) ->
         spine_item e ∈ items (output st)
         /\ Str.endswith (file_name (spine_item e)) (pystr "html") = true.
Proof.
  eexists. split; [reflexivity|].
  exact (proj1 (spine_and_toc_hold_pages ascii_runtime
                  [single_file "page1.xhtml" "<html/>"] [] no_rendition true _ eq_refl)).
Defined.

Lemma recorded_size_is_the_largest_witness :
  exists st,
    _download_epub_in_parts ascii_runtime
      [single_file "a.txt" "abc"; single_file "a.txt" "a"] [] no_rendition true = Ok st
    /\ forall p n, added_files st !! p = Some n ->
         exists part,
           part ∈ [single_file "a.txt" "abc"; single_file "a.txt" "a"]
           /\ p ∈ Zip.namelist part /\ n = length (Zip.read part p).
Proof.
  eexists. split; [reflexivity|].
  exact (proj2 (recorded_size_is_the_largest ascii_runtime
                  [single_file "a.txt" "abc"; single_file "a.txt" "a"] [] no_rendition
                  true _ eq_refl)).
Defined.


Lemma recorded_sizes_only_grow_witness :
  let st := keep_file ascii_runtime [] (initial_state no_rendition) (pystr "a.txt")
              (pybytes "abc") in
  exists st',
    merge_part ascii_runtime [] false 1 st (single_file "a.txt" "abcdef") = Ok st'
    /\ added_files st !! pystr "a.txt" = Some 3
    /\ exists n, added_files st' !! pystr "a.txt" = Some n /\ 3 <= n.
Proof.
  intros st. eexists. split; [reflexivity|]. split; [reflexivity|].
  exact (recorded_sizes_only_grow ascii_runtime [] false 1 st _
           (single_file "a.txt" "abcdef") (pystr "a.txt") 3 eq_refl eq_refl).
Defined.

Lemma progress_once_per_part_witness :
  exists st,
    _download_epub_in_parts ascii_runtime
      [single_file "a.txt" "abc"; single_file "b.txt" "a"] [] no_rendition true = Ok st
    /\ progress_made st = [2; 2].
Proof.
  eexists. split; [reflexivity|].
  exact (progress_once_per_part ascii_runtime
           [single_file "a.txt" "abc"; single_file "b.txt" "a"] [] no_rendition true _
           eq_refl).
Defined.

Lemma first_opf_decides_witness :
  exists st1 st2,
    merge_part ascii_runtime [] false 2 (initial_state no_rendition)
      (single_file "content.opf" "<package") = Ok st1
    /\ merge_parts ascii_runtime [] false 2 st1 [single_file "other.opf" "<package/>"]
       = Ok st2
    /\ metadata st2 = metadata st1 /\ cover_href st2 = cover_href st1
    /\ spine_properties st2 = spine_properties st1.
Proof.
  eexists. eexists.
  pose proof (first_opf_decides ascii_runtime [] false 2 (initial_state no_rendition) _ _
                (single_file "content.opf" "<package")
                [single_file "other.opf" "<package/>"] (pystr "content.opf")
                eq_refl (list_elem_of_here _ _) eq_refl eq_refl) as H.
  split; [reflexivity|]. split; [reflexivity|]. exact H.
Defined.


Lemma cover_id_and_href_agree_witness :
  exists manifest item,
    find_opf sample_package "manifest" = Some manifest
    /\ item ∈ ET.iter manifest
    /\ ET.get item (pystr "id") = opf_cover_id (opf_metadata_of_root sample_package)
    /\ ET.get item (pystr "href") = opf_cover_href (opf_metadata_of_root sample_package).
Proof. exact (cover_id_and_href_agree sample_package eq_refl). Defined.

Lemma spine_properties_come_from_the_document_witness :
  (pystr "page1.xhtml", pystr "page-spread-left")
    ∈ opf_spine_properties (opf_metadata_of_root sample_spread_package)
  /\ pystr "page-spread-left" <> [].
Proof.
  assert (Hin : (pystr "page1.xhtml", pystr "page-spread-left")
                  ∈ opf_spine_properties (opf_metadata_of_root sample_spread_package))
    by (vm_compute; left).
  split; [exact Hin|].
  exact (proj1 (spine_properties_come_from_the_document sample_spread_package _ _ Hin)).
Defined.

Lemma no_candidate_no_cover_href_witness :
  let root :=
    opf_element "package" []
      [sample_metadata;
       opf_element "manifest" [] [opf_element "item" [("id", "a"); ("href", "a.jpg")] []]] in
  opf_cover_href (opf_metadata_of_root root) = None
  /\ opf_cover_id (opf_metadata_of_root root) = Some (pystr "c").
Proof.
  intros root.
  apply (no_candidate_no_cover_href root sample_metadata
           (opf_element "manifest" [] [opf_element "item" [("id", "a"); ("href", "a.jpg")] []])
           eq_refl eq_refl).
  intros i Hi. apply elem_of_cons in Hi as [-> | Hi]; [reflexivity|].
  apply list_elem_of_singleton in Hi as ->. reflexivity.
Defined.

Lemma last_layout_meta_wins_witness :
  opf_rendition_layout (opf_metadata_of_root sample_layout_package)
  = Some (pystr "pre-paginated").
Proof.
  apply (proj1 (last_layout_meta_wins sample_layout_package
                  (opf_element "metadata" [] [sample_layout_meta]) eq_refl)
           [opf_element "metadata" [] [sample_layout_meta]] sample_layout_meta []).
  - reflexivity.
  - reflexivity.
  - by intros m ?%elem_of_nil.
Defined.

(** Two rules of one key in the cached stylesheet: the last is read. *)
Lemma merged_rule_never_shorter_witness :
  exists t, Dict.get (pystr "a") (merged_rules (pystr "a{xxxx}a{y}") (pystr "a{zz}b{y:2}"))
            = Some t
            /\ length (pystr "a{y}") <= length t.
Proof.
  exact (merged_rule_never_shorter (pystr "a{xxxx}a{y}") (pystr "a{zz}b{y:2}") (pystr "a")
           (pystr "a{y}") eq_refl).
Defined.

Lemma merged_rules_are_source_rules_witness :
  exists rule,
    rule ∈ Str.split 125%N (pystr "a{x:1}") ++ Str.split 125%N (pystr "a{x:22}b{y:2}")
    /\ Str.contains (pystr "{") rule = true
    /\ _get_css_rule_key rule = Some (pystr "a")
    /\ pystr "a{x:22}" = Str.strip rule ++ pystr "}".
Proof.
  exact (merged_rules_are_source_rules (pystr "a{x:1}") (pystr "a{x:22}b{y:2}") (pystr "a")
           (pystr "a{x:22}") eq_refl).
Defined.

Lemma other_files_are_kept_verbatim_witness :
  exists st part,
    _download_epub_in_parts ascii_runtime
      [single_file "a.txt" ""; single_file "a.txt" "abc"] [] no_rendition false = Ok st
    /\ part ∈ [single_file "a.txt" ""; single_file "a.txt" "abc"]
    /\ pystr "a.txt" ∈ Zip.namelist part
    /\ latest_body (output st) (pystr "a.txt") = Some (Zip.read part (pystr "a.txt"))
    /\ length (Zip.read part (pystr "a.txt")) = 3.
Proof.
  eexists.
  destruct (other_files_are_kept_verbatim ascii_runtime
              [single_file "a.txt" ""; single_file "a.txt" "abc"] [] no_rendition false _
              (pystr "a.txt") 3 eq_refl eq_refl eq_refl) as (part & H).
  exists part. split; [reflexivity | exact H].
Defined.

Lemma part_updates_stylesheet_witness :
  exists st',
    merge_part ascii_runtime [] false 2 (initial_state no_rendition)
      (single_file "s.css" "a{x:1}") = Ok st'
    /\ Dict.get (pystr "s.css") (css_cache st') = Some (pybytes "a{x:1}").
Proof.
  eexists. split; [reflexivity|].
  apply (proj2 (part_updates_stylesheet ascii_runtime [] false 2
                  (initial_state no_rendition) _
                  (single_file "s.css" "a{x:1}") (pystr "s.css") eq_refl eq_refl)
           [] []).
  - reflexivity.
  - by intros ?%elem_of_nil.
  - by intros ?%elem_of_nil.
  - discriminate.
Defined.

Lemma dimensions_are_digits_witness :
  css_dimensions ascii_runtime (Some (pybytes "body{width:600px;height:800px;}"))
  = (Some (pystr "600"), Some (pystr "800"))
  /\ Forall (fun c => isdecimal ascii_runtime c = true) (pystr "600")
  /\ Forall (fun c => isdecimal ascii_runtime c = true) (pystr "800").
Proof.
  split; [reflexivity|].
  exact (dimensions_are_digits ascii_runtime
           (Some (pybytes "body{width:600px;height:800px;}")) (pystr "600") (pystr "800")
           eq_refl).
Defined.

Lemma inferred_cover_is_first_largest_image_witness :
  let target src := Path.normpath (Path.join (pystr "OEBPS/text") src) in
  exists before src after size,
    findall_img 0 (default [] (Utf8.decode sample_page)) = before ++ src :: after
    /\ pystr "OEBPS/images/b.png" = target src
    /\ stored_size (item_sizes sample_cover_book) (pystr "OEBPS/images/b.png") = Some size
    /\ 0 < size
    /\ (forall src' n, src' ∈ before ->
          stored_size (item_sizes sample_cover_book) (target src') = Some n -> n < size)
    /\ (forall src' n, src' ∈ after ->
          stored_size (item_sizes sample_cover_book) (target src') = Some n -> n <= size).
Proof.
  exact (inferred_cover_is_first_largest_image ascii_runtime sample_cover_book
           (SpineItem {| file_name := pystr "OEBPS/text/p1.xhtml";
                         content := sample_page; media_type := None |})
           (default [] (Utf8.decode sample_page)) (pystr "OEBPS/images/b.png")
           eq_refl eq_refl eq_refl).
Defined.

Lemma inferred_cover_names_an_item_witness :
  pre_paginated (metadata sample_cover_state) = true
  /\ exists it, cover_item (output sample_cover_state) (Some (pystr "OEBPS/images/b.png"))
                = Some it
                /\ it ∈ items (output sample_cover_state)
                /\ file_name it <> []
                /\ Str.endswith (file_name it) (pystr "OEBPS/images/b.png") = true.
Proof.
  exact (inferred_cover_names_an_item ascii_runtime sample_cover_state
           (pystr "OEBPS/images/b.png") eq_refl eq_refl).
Defined.

Lemma image_sources_are_quoted_witness :
  exists before mid q q' after,
    default [] (Utf8.decode sample_page)
    = before ++ pystr "<img" ++ mid ++ pystr "src=" ++ q :: pystr "a.jpg" ++ q' :: after
    /\ mid <> [] /\ Forall (fun c => Re.none_of (pystr ">") c = true) mid
    /\ quote q = true /\ quote q' = true
    /\ pystr "a.jpg" <> [] /\ Forall (fun c => quote c = false) (pystr "a.jpg").
Proof.
  apply (image_sources_are_quoted 0 (default [] (Utf8.decode sample_page)) (pystr "a.jpg")).
  vm_compute. apply list_elem_of_here.
Defined.
